(** * QRadar documentation pipeline: HTML reference pages to OpenAPI to SDK

    A shallow embedding of the two generator scripts

      - [generate_openapi.py]: table extraction, endpoint parsing, schema
        inference, OpenAPI assembly;
      - [generate_sdk.py]: name sanitisation, operation collection, per-tag
        module generation.

    Conventions of the embedding.

      - A Python [str] is a [string]; the model covers ASCII text (code
        points below 128), where [str.lower], [str.upper], [str.strip],
        [str.isdigit] and the character classes of [re] have the tables
        written out below.  Characters from 128 upwards are kept as they
        are and belong to no class; a statement that would not hold of
        Python's Unicode tables is made for ASCII text only.
      - A Python [dict] is an association list in insertion order with
        unique keys: [dict_set] overwrites in place or appends, as
        [d[k] = v] does.
      - A Python [set] of names is a [gset string].
      - Results of library calls that the scripts only consume ([re.search]
        on the page title, [json.loads] on a [<pre>] block, the event
        stream of [HTMLParser.feed]) are inputs of the model. *)

From Stdlib Require Import Strings.String Strings.Ascii.
From Stdlib Require Import Numbers.DecimalString Numbers.DecimalNat.
From Stdlib Require Import Floats.SpecFloat.
From stdpp Require Import base list gmap strings.

Local Open Scope list_scope.

(** stdpp keeps [simpl] from unfolding string append; the proofs below
    compute with it. *)
Local Arguments String.append !_ _ / : simpl nomatch.

(** ** Python strings *)

Module PyStr.

Definition code (c : ascii) : nat := nat_of_ascii c.

(** [[A-Z]] *)
Definition is_upper (c : ascii) : bool :=
  (65 <=? code c)%nat && (code c <=? 90)%nat.

(** [[a-z]] *)
Definition is_lower (c : ascii) : bool :=
  (97 <=? code c)%nat && (code c <=? 122)%nat.

(** [\d], and the characters [str.isdigit] accepts *)
Definition is_digit (c : ascii) : bool :=
  (48 <=? code c)%nat && (code c <=? 57)%nat.

(** The characters [str.strip()] removes: TAB, LF, VT, FF, CR, the four
    separators FS, GS, RS, US, and the space. *)
Definition is_space (c : ascii) : bool :=
  ((9 <=? code c)%nat && (code c <=? 13)%nat)
  || ((28 <=? code c)%nat && (code c <=? 32)%nat).

Definition lower_char (c : ascii) : ascii :=
  if is_upper c then ascii_of_nat (code c + 32) else c.

Definition upper_char (c : ascii) : ascii :=
  if is_lower c then ascii_of_nat (code c - 32) else c.

(** [s.lower()] *)
Fixpoint lower (s : string) : string :=
  match s with
  | EmptyString => EmptyString
  | String c s' => String (lower_char c) (lower s')
  end.

(** [s.upper()] on ASCII text: [a]-[z] go to [A]-[Z], every other
    character stays.  (Beyond ASCII [str.upper] has letters of its own,
    some of which it takes into ASCII; they are outside the model.) *)
Fixpoint upper (s : string) : string :=
  match s with
  | EmptyString => EmptyString
  | String c s' => String (upper_char c) (upper s')
  end.

(** Truthiness of a string: [bool(s)] *)
Definition nonempty (s : string) : bool :=
  match s with EmptyString => false | String _ _ => true end.

(** [s.lstrip(chars)] and [s.rstrip(chars)], the set of characters given
    as a predicate *)
Fixpoint lstrip_by (p : ascii -> bool) (s : string) : string :=
  match s with
  | EmptyString => EmptyString
  | String c s' => if p c then lstrip_by p s' else s
  end.

Fixpoint rstrip_by (p : ascii -> bool) (s : string) : string :=
  match s with
  | EmptyString => EmptyString
  | String c s' =>
      match rstrip_by p s' with
      | EmptyString => if p c then EmptyString else String c EmptyString
      | r => String c r
      end
  end.

Definition strip_by (p : ascii -> bool) (s : string) : string :=
  rstrip_by p (lstrip_by p s).

(** [s.strip()] *)
Definition strip (s : string) : string := strip_by is_space s.

Fixpoint mem_char (c : ascii) (chars : string) : bool :=
  match chars with
  | EmptyString => false
  | String d chars' => Ascii.eqb c d || mem_char c chars'
  end.

(** [s.strip(chars)] *)
Definition strip_chars (chars : string) (s : string) : string :=
  strip_by (fun c => mem_char c chars) s.

(** [s.startswith(p)] *)
Definition startswith (s p : string) : bool := String.prefix p s.

(** [needle in s] on strings *)
Fixpoint contains (needle s : string) : bool :=
  String.prefix needle s ||
  match s with
  | EmptyString => false
  | String _ s' => contains needle s'
  end.

(** [s.isdigit()]: at least one character and every character a digit *)
Fixpoint all_digits (s : string) : bool :=
  match s with
  | EmptyString => true
  | String c s' => is_digit c && all_digits s'
  end.

Definition isdigit (s : string) : bool := nonempty s && all_digits s.

(** [s.replace(a, b)] for one-character [a] *)
Fixpoint replace_char (a : ascii) (b : string) (s : string) : string :=
  match s with
  | EmptyString => EmptyString
  | String c s' =>
      if Ascii.eqb c a then b +:+ replace_char a b s'
      else String c (replace_char a b s')
  end.

(** [s.split(sep)] for a one-character separator: never the empty list *)
Fixpoint split (sep : ascii) (s : string) : list string :=
  match s with
  | EmptyString => [EmptyString]
  | String c s' =>
      if Ascii.eqb c sep then EmptyString :: split sep s'
      else match split sep s' with
           | [] => [String c EmptyString]
           | w :: ws => String c w :: ws
           end
  end.

(** [sep.join(parts)] *)
Fixpoint join (sep : string) (parts : list string) : string :=
  match parts with
  | [] => EmptyString
  | [p] => p
  | p :: ps => p +:+ sep +:+ join sep ps
  end.

(** [str(n)] for a non-negative integer *)
Definition str_of_nat (n : nat) : string :=
  NilZero.string_of_uint (Nat.to_uint n).

(** [s in (a, b, ...)]: membership in a tuple of strings *)
Definition in_tuple (s : string) (t : list string) : bool :=
  existsb (String.eqb s) t.

End PyStr.

(** ** The fragment of [re] the scripts use

    Every pattern of [generate_sdk.py] is a sequence of character classes,
    each taken once or one-or-more times ([+], greedy, with backtracking).
    A match yields the text taken by each atom; the replacement template is
    a function of these pieces. *)

Module Re.

Inductive atom : Type :=
| One (p : ascii -> bool)
| Many1 (p : ascii -> bool).

(** Match the atoms at the start of [s]: the pieces, or [None]. *)
Fixpoint match_here (atoms : list atom) (s : string)
  : option (list string) :=
  match atoms with
  | [] => Some []
  | One p :: rest =>
      match s with
      | String c s' =>
          if p c then
            match match_here rest s' with
            | Some gs => Some (String c EmptyString :: gs)
            | None => None
            end
          else None
      | EmptyString => None
      end
  | Many1 p :: rest =>
      (fix many (taken : string) (s : string) : option (list string) :=
         match s with
         | String c s' =>
             if p c then
               let taken' := taken +:+ String c EmptyString in
               match many taken' s' with
               | Some gs => Some gs
               | None =>
                   match match_here rest s' with
                   | Some gs => Some (taken' :: gs)
                   | None => None
                   end
               end
             else None
         | EmptyString => None
         end) EmptyString s
  end.

Definition matched_length (gs : list string) : nat :=
  list_sum (map String.length gs).

(** [re.sub(pattern, repl, s)]: leftmost matches, none overlapping.
    [skip] counts the characters of the current match still to pass. *)
Fixpoint sub_from (atoms : list atom) (repl : list string -> string)
    (skip : nat) (s : string) : string :=
  match s with
  | EmptyString => EmptyString
  | String c s' =>
      match skip with
      | S k => sub_from atoms repl k s'
      | O =>
          match match_here atoms s with
          | Some gs =>
              repl gs +:+ sub_from atoms repl (matched_length gs - 1) s'
          | None => String c (sub_from atoms repl 0 s')
          end
      end
  end.

Definition sub (atoms : list atom) (repl : list string -> string)
    (s : string) : string :=
  sub_from atoms repl 0 s.

End Re.

(** ** Python dictionaries, in insertion order *)

Section Dict.
Context {V : Type}.

Definition dict : Type := list (string * V).

(** [d.get(k)] *)
Fixpoint dict_get (k : string) (d : dict) : option V :=
  match d with
  | [] => None
  | (k', v) :: d' => if String.eqb k k' then Some v else dict_get k d'
  end.

(** [k in d] *)
Definition dict_has (k : string) (d : dict) : bool :=
  match dict_get k d with Some _ => true | None => false end.

(** [d[k] = v]: an existing key keeps its place, a new key goes last *)
Fixpoint dict_set (k : string) (v : V) (d : dict) : dict :=
  match d with
  | [] => [(k, v)]
  | (k', v') :: d' =>
      if String.eqb k k' then (k, v) :: d'
      else (k', v') :: dict_set k v d'
  end.

(** [list(d)] *)
Definition dict_keys (d : dict) : list string := map fst d.

(** What every Python dictionary satisfies: no key twice *)
Definition dict_wf (d : dict) : Prop := NoDup (dict_keys d).
End Dict.

Arguments dict V : clear implicits.

(** [x is not None], and whether a key read from YAML is there *)
Definition present {A} (o : option A) : bool :=
  match o with Some _ => true | None => false end.

(** ** Values of [json.loads] *)

Inductive json : Type :=
| JNull
| JBool (b : bool)
| JInt (n : Z)
| JFloat (f : spec_float)
| JStr (s : string)
| JList (l : list json)
| JDict (d : list (string * json)).

(** ** Records of the OpenAPI document *)

(** [{'name', 'in', 'description', 'required', 'schema': {'type': t}}] *)
Record Param : Type := {
  p_name : string;
  p_in : string;
  p_description : string;
  p_required : bool;
  p_schema_type : string
}.

(** One property of the request-body schema: [{'type', 'description'}] *)
Record BodyProp : Type := {
  bp_type : string;
  bp_description : string
}.

(** [{'type': 'object', 'properties': ..., 'required': [...]}]; the key
    [required] is present only for a non-empty list *)
Record BodySchema : Type := {
  bs_properties : dict BodyProp;
  bs_required : option (list string)
}.

(** [{'required': True, 'content': {mime: {'schema': schema}}}] *)
Record RequestBody : Type := {
  rb_required : bool;
  rb_mime : string;
  rb_schema : BodySchema
}.

(** A response: [{'description': ...}] with, when attached,
    ['content': {mime: {'schema': schema}}] *)
Record Response : Type := {
  r_description : string;
  r_content : option (dict json)
}.

(** The dictionary [_parse_html_file] returns *)
Record EndpointData : Type := {
  d_method : string;
  d_api_path : string;
  d_summary : string;
  d_description : string;
  d_parameters : list Param;
  d_request_body : option RequestBody;
  d_responses : dict Response
}.

(** An operation object.  Each key may be absent in a document read from
    YAML; [op_extra] lists the keys the generators never read. *)
Record Operation : Type := {
  op_summary : option string;
  op_description : option string;
  op_operationId : option string;
  op_tags : option (list string);
  op_responses : option (dict Response);
  op_parameters : option (list Param);
  op_requestBody : option RequestBody;
  op_extra : list string
}.

(** A path item: the operations by method key, and the optional path-level
    [parameters] *)
Record PathItem : Type := {
  pi_parameters : option (list Param);
  pi_ops : dict Operation
}.

(** The document: the constant head and the [paths] mapping *)
Record OpenAPI : Type := {
  oa_openapi : string;
  oa_title : string;
  oa_version : string;
  oa_server_url : string;
  oa_paths : dict PathItem
}.

(** * generate_sdk.py *)

Module Sdk.
Import PyStr.

(** [keyword.kwlist] of the standard library: the reserved words.  The
    soft keywords ([match], [case], [type], [_]) are not in it. *)
Definition kwlist : list string :=
  [ "False"; "None"; "True"; "and"; "as"; "assert"; "async"; "await";
    "break"; "class"; "continue"; "def"; "del"; "elif"; "else"; "except";
    "finally"; "for"; "from"; "global"; "if"; "import"; "in"; "is";
    "lambda"; "nonlocal"; "not"; "or"; "pass"; "raise"; "return"; "try";
    "while"; "with"; "yield" ].

(** [keyword.iskeyword] *)
Definition iskeyword (s : string) : bool := in_tuple s kwlist.

Definition is_lower_or_digit (c : ascii) : bool := is_lower c || is_digit c.
Definition is_underscore (c : ascii) : bool := Ascii.eqb c "_"%char.
Definition is_brace (c : ascii) : bool :=
  Ascii.eqb c "{"%char || Ascii.eqb c "}"%char.

(** [r'([A-Z]+)([A-Z][a-z])'] with template [r'\1_\2'] *)
Definition re_acronym : list Re.atom :=
  [Re.Many1 is_upper; Re.One is_upper; Re.One is_lower].
Definition repl_acronym (gs : list string) : string :=
  match gs with
  | [g1; u; l] => g1 +:+ "_" +:+ u +:+ l
  | _ => String.concat EmptyString gs
  end.

(** [r'([a-z\d])([A-Z])'] with template [r'\1_\2'] *)
Definition re_camel : list Re.atom :=
  [Re.One is_lower_or_digit; Re.One is_upper].
Definition repl_camel (gs : list string) : string :=
  match gs with
  | [a; b] => a +:+ "_" +:+ b
  | _ => String.concat EmptyString gs
  end.

(** [r'_+'] with template ['_'] *)
Definition re_underscores : list Re.atom := [Re.Many1 is_underscore].

(** [r'[{}]'] with the empty template *)
Definition re_brace : list Re.atom := [Re.One is_brace].

(** Lines 30-33 of [_to_snake]: everything before the keyword test *)
Definition snake_body (name : string) : string :=
  let s := Re.sub re_acronym repl_acronym name in
  let s := Re.sub re_camel repl_camel s in
  let s := replace_char " "%char "_" (replace_char "-"%char "_" s) in
  strip_chars "_" (lower (Re.sub re_underscores (fun _ => "_") s)).

Definition _to_snake (name : string) : string :=
  let s := snake_body name in
  if iskeyword s then s +:+ "_" else s.

Definition _sanitise_module_name (tag : string) : string :=
  let name := _to_snake tag in
  if in_tuple name
       [ "auth"; "help"; "type"; "input"; "filter"; "id"; "list";
         "set"; "map"; "hash"; "format"; "open"; "import" ]
  then name +:+ "_api"
  else name.

Definition _path_to_method_name (method path : string) : string :=
  let parts :=
    lower method
      :: map (Re.sub re_brace (fun _ => EmptyString))
             (split "/"%char (strip_chars "/" path)) in
  let joined := join "_" (filter (fun p => nonempty p = true) parts) in
  _to_snake joined.

(** The operation dictionaries [_collect_operations] builds *)
Record CollectedOp : Type := {
  c_method : string;
  c_path : string;
  c_operation_id : string;
  c_summary : string;
  c_parameters : list Param;
  c_request_body : option RequestBody;
  c_response_schema : json
}.

Definition http_methods : list string :=
  ["get"; "post"; "put"; "patch"; "delete"; "head"; "options"].

(** [bool(operation)]: a dictionary is true when it has a key *)
Definition operation_truthy (op : Operation) : bool :=
  present (op_summary op) || present (op_description op)
  || present (op_operationId op) || present (op_tags op)
  || present (op_responses op) || present (op_parameters op)
  || present (op_requestBody op)
  || match op_extra op with [] => false | _ :: _ => true end.

(** [bool(v)] on a JSON value *)
Definition json_truthy (v : json) : bool :=
  match v with
  | JNull => false
  | JBool b => b
  | JInt n => negb (Z.eqb n 0)
  | JFloat f => match f with S754_zero _ => false | _ => true end
  | JStr s => nonempty s
  | JList l => match l with [] => false | _ => true end
  | JDict d => match d with [] => false | _ => true end
  end.

(** Lines 97-98: the first tag, ['default'] when there is none *)
Definition tag_of (op : Operation) : string :=
  match default ["default"] (op_tags op) with
  | t :: _ => t
  | [] => "default"
  end.

(** One round of the loop over [('200', '201')], lines 106-110 *)
Definition first_schema (responses : dict Response) (code : string)
    (resp_schema : json) : json :=
  match dict_get code responses with
  | Some resp =>
      match default [] (r_content resp) with
      | (_, schema) :: _ => schema
      | [] => resp_schema
      end
  | None => resp_schema
  end.

Definition response_schema_of (op : Operation) : json :=
  let responses := default [] (op_responses op) in
  let s := first_schema responses "200" (JDict []) in
  if json_truthy s then s else first_schema responses "201" s.

Definition collected (path : string) (path_params : list Param)
    (method : string) (op : Operation) : CollectedOp :=
  {| c_method := method;
     c_path := path;
     c_operation_id := default EmptyString (op_operationId op);
     c_summary := default EmptyString (op_summary op);
     c_parameters := path_params ++ default [] (op_parameters op);
     c_request_body := op_requestBody op;
     c_response_schema := response_schema_of op |}.

(** [ops_by_tag[tag].append(x)] on a [defaultdict(list)] *)
Definition dict_append {A} (tag : string) (x : A) (d : dict (list A))
  : dict (list A) :=
  dict_set tag (default [] (dict_get tag d) ++ [x]) d.

(** The body of [for method in http_methods] *)
Definition collect_method (path : string) (path_item : PathItem)
    (ops_by_tag : dict (list CollectedOp)) (method : string)
  : dict (list CollectedOp) :=
  match dict_get method (pi_ops path_item) with
  | Some operation =>
      if operation_truthy operation then
        dict_append (tag_of operation)
          (collected path (default [] (pi_parameters path_item))
             method operation)
          ops_by_tag
      else ops_by_tag
  | None => ops_by_tag
  end.

Definition collect_path (ops_by_tag : dict (list CollectedOp))
    (entry : string * PathItem) : dict (list CollectedOp) :=
  fold_left (collect_method entry.1 entry.2) http_methods ops_by_tag.

Definition _collect_operations (spec : OpenAPI) : dict (list CollectedOp) :=
  fold_left collect_path (oa_paths spec) [].

(** *** [_generate_api_module] *)

(** The double quote, for the emitted source text *)
Definition dq : string := String (ascii_of_nat 34) EmptyString.

(** [s.replace(old, new)] for a non-empty [old]: occurrences from the
    left, none overlapping; [skip] counts what is left of the current one *)
Fixpoint replace_from (old new : string) (skip : nat) (s : string)
  : string :=
  match s with
  | EmptyString => EmptyString
  | String c s' =>
      match skip with
      | S k => replace_from old new k s'
      | O =>
          if String.prefix old s
          then new +:+ replace_from old new (String.length old - 1) s'
          else String c (replace_from old new 0 s')
      end
  end.

Definition replace (old new s : string) : string :=
  replace_from old new 0 s.

(** [re.split(r'[_\-\s]+', tag)] *)
Definition is_word_sep (c : ascii) : bool :=
  Ascii.eqb c "_"%char || Ascii.eqb c "-"%char || is_space c.

Fixpoint re_split (p : ascii -> bool) (in_sep : bool) (s : string)
  : list string :=
  match s with
  | EmptyString => [EmptyString]
  | String c s' =>
      if p c then
        if in_sep then re_split p true s'
        else EmptyString :: re_split p true s'
      else
        match re_split p false s' with
        | w :: ws => String c w :: ws
        | [] => [String c EmptyString]
        end
  end.

(** [w.capitalize()] *)
Definition capitalize (w : string) : string :=
  match w with
  | EmptyString => EmptyString
  | String c w' => String (upper_char c) (lower w')
  end.

Definition _class_name (tag : string) : string :=
  String.concat EmptyString (map capitalize (re_split is_word_sep false tag))
  +:+ "API".

(** [f'{original}_{counter}'] *)
Definition suffixed (original : string) (counter : nat) : string :=
  original +:+ "_" +:+ str_of_nat counter.

(** The [while func_name in seen_names] loop, lines 434-438.  One unit
    of [fuel] pays for one test of the loop condition. *)
Fixpoint dedup_loop (fuel : nat) (seen_names : gset string)
    (original func_name : string) (counter : nat) : option string :=
  match fuel with
  | O => None
  | S fuel' =>
      if decide (func_name ∈ seen_names) then
        dedup_loop fuel' seen_names original
          (suffixed original counter) (S counter)
      else Some func_name
  end.

(** The loop cannot test more names than [seen_names] holds, plus one *)
Definition unique_name (seen_names : gset string) (original : string)
  : option string :=
  dedup_loop (S (size seen_names)) seen_names original original 2.

Definition path_params (parameters : list Param) : list Param :=
  filter (fun p => String.eqb (p_in p) "path" = true) parameters.

Definition optional_params (parameters : list Param) : list Param :=
  filter (fun p => in_tuple (p_in p) ["query"; "header"] = true) parameters.

(** The name bound for a keyword parameter, lines 453-455 *)
Definition keyword_name (p : Param) : string :=
  let pname := _to_snake (p_name p) in
  if in_tuple pname ["range"] then "range_header" else pname.

(** Lines 446-448 *)
Definition sig_parts (parameters : list Param) : list string :=
  "self" :: map (fun p => _to_snake (p_name p)) (path_params parameters).

(** Lines 451-462 *)
Definition kw_args (parameters : list Param)
    (request_body : option RequestBody) : list string :=
  (if present request_body then ["body: Optional[Any] = None"] else [])
  ++ map (fun p => keyword_name p +:+ ": Optional[Any] = None")
       (optional_params parameters)
  ++ ["**kwargs: Any"].

(** The names a signature binds for the rows of the parameter table:
    the positional ones, then the keyword ones *)
Definition binding_names (parameters : list Param) : list string :=
  map (fun p => _to_snake (p_name p)) (path_params parameters)
  ++ map keyword_name (optional_params parameters).

(** Lines 474-477 *)
Definition url_of (path : string) (parameters : list Param) : string :=
  fold_left
    (fun url p =>
       replace ("{" +:+ p_name p +:+ "}")
               ("{" +:+ _to_snake (p_name p) +:+ "}") url)
    (path_params parameters) path.

Definition query_params (parameters : list Param) : list Param :=
  filter (fun p => String.eqb (p_in p) "query"
                   && negb (in_tuple (_to_snake (p_name p))
                              ["fields"; "filter"; "sort"]) = true)
    (optional_params parameters).

Definition hdr_params (parameters : list Param) : list Param :=
  filter (fun p => String.eqb (p_in p) "header"
                   && negb (in_tuple (_to_snake (p_name p)) ["range"])
                   = true)
    (optional_params parameters).

(** [', '.join(f'"{p["name"]}": {_to_snake(p["name"])}' for p in ps)] *)
Definition entries (ps : list Param) : string :=
  join ", "
    (map (fun p => dq +:+ p_name p +:+ dq +:+ ": " +:+ _to_snake (p_name p))
       ps).

(** Is there an optional parameter, query only or any, of that name? *)
Definition has_optional (query_only : bool) (pname : string)
    (parameters : list Param) : bool :=
  existsb (fun p => (negb query_only || String.eqb (p_in p) "query")
                    && String.eqb (_to_snake (p_name p)) pname)
    (optional_params parameters).

(** The lines one round of [for op in operations] appends, lines
    464-538, for the name the loop settled on *)
Definition method_lines (func_name : string) (op : CollectedOp)
  : list string :=
  let method := c_method op in
  let path := c_path op in
  let summary := strip (c_summary op) in
  let parameters := c_parameters op in
  let request_body := c_request_body op in
  let sig :=
    join ", " (sig_parts parameters ++ kw_args parameters request_body) in
  let url := url_of path parameters in
  let qp := query_params parameters in
  let hp := hdr_params parameters in
  let params_kwarg :=
    match qp with [] => EmptyString | _ => ", params=params" end in
  let headers_kwarg :=
    match hp with [] => EmptyString | _ => ", headers=headers" end in
  let range_kwarg :=
    if has_optional false "range" parameters
    then ", range_header=range_header" else EmptyString in
  let fields_kwarg :=
    if has_optional true "fields" parameters then ", fields=fields"
    else EmptyString in
  let filter_kwarg :=
    if has_optional true "filter" parameters then ", filter_expr=filter"
    else EmptyString in
  let sort_kwarg :=
    if has_optional true "sort" parameters then ", sort=sort" else EmptyString in
  let body_kwarg :=
    if present request_body then ", json_body=body" else EmptyString in
  let call_args :=
    "url" +:+ params_kwarg +:+ headers_kwarg +:+ range_kwarg
    +:+ fields_kwarg +:+ filter_kwarg +:+ sort_kwarg +:+ body_kwarg
    +:+ ", **kwargs" in
  ["    def " +:+ func_name +:+ "(" +:+ sig +:+ ") -> Any:"]
  ++ [if nonempty summary
      then "        " +:+ dq +:+ dq +:+ dq +:+ summary +:+ dq +:+ dq +:+ dq
      else "        " +:+ dq +:+ dq +:+ dq +:+ "Call " +:+ upper method
           +:+ " " +:+ path +:+ dq +:+ dq +:+ dq]
  ++ [match path_params parameters with
      | [] => "        url = " +:+ dq +:+ url +:+ dq
      | _ => "        url = f" +:+ dq +:+ url +:+ dq
      end]
  ++ match qp with
     | [] => []
     | _ =>
         [ "        params = {" +:+ entries qp +:+ "}";
           "        params = {k: v for k, v in params.items() if v is not None}" ]
     end
  ++ match hp with
     | [] => []
     | _ =>
         [ "        headers = {" +:+ entries hp +:+ "}";
           "        headers = {k: v for k, v in headers.items() if v is not None}" ]
     end
  ++ [ "        return self._s." +:+ method +:+ "(" +:+ call_args +:+ ")";
       EmptyString ].

(** Lines 405-421 *)
Definition module_header (tag : string) : list string :=
  [ dq +:+ dq +:+ dq +:+ "API methods for the ``" +:+ tag +:+ "`` tag."
      +:+ dq +:+ dq +:+ dq;
    EmptyString;
    "from __future__ import annotations";
    EmptyString;
    "from typing import Any, Dict, List, Optional";
    EmptyString;
    "from .._http import QRadarSession";
    EmptyString;
    EmptyString;
    "class " +:+ _class_name tag +:+ ":";
    "    " +:+ dq +:+ dq +:+ dq +:+ "Client for the QRadar ``" +:+ tag
      +:+ "`` API endpoints." +:+ dq +:+ dq +:+ dq;
    EmptyString;
    "    def __init__(self, session: QRadarSession) -> None:";
    "        self._s = session";
    EmptyString ].

(** The loop [for op in operations], lines 425-538, on its two pieces of
    state: [seen_names] and [module_lines].  [None] when the inner loop
    has no fuel left. *)
Fixpoint generate_loop (seen_names : gset string)
    (module_lines : list string) (operations : list CollectedOp)
  : option (list string) :=
  match operations with
  | [] => Some module_lines
  | op :: operations' =>
      match unique_name seen_names
              (_path_to_method_name (c_method op) (c_path op)) with
      | Some func_name =>
          generate_loop ({[func_name]} ∪ seen_names)
            (module_lines ++ method_lines func_name op) operations'
      | None => None
      end
  end.

Definition _generate_api_module (tag : string)
    (operations : list CollectedOp) : option string :=
  match generate_loop ∅ (module_header tag) operations with
  | Some module_lines => Some (join (String (ascii_of_nat 10) EmptyString) module_lines)
  | None => None
  end.

(** The method names the loop settles on, in the order of the
    operations: the same loop, keeping the names only *)
Fixpoint method_names (seen_names : gset string)
    (operations : list CollectedOp) : option (list string) :=
  match operations with
  | [] => Some []
  | op :: operations' =>
      match unique_name seen_names
              (_path_to_method_name (c_method op) (c_path op)) with
      | Some func_name =>
          match method_names ({[func_name]} ∪ seen_names) operations' with
          | Some names => Some (func_name :: names)
          | None => None
          end
      | None => None
      end
  end.

(** *** [_python_type] *)

(** [t == 'literal'] for a value read from a schema *)
Definition is_str (v : json) (s : string) : bool :=
  match v with JStr s' => String.eqb s' s | _ => false end.

(** The type hint of a schema.  A schema is a dictionary; on a value that
    is true and not a dictionary the call [schema.get] raises, which is
    [None] here.  The inner loop is [schema.get('items', {})] followed by
    the recursive call of line 72. *)
Fixpoint _python_type (schema : json) : option string :=
  if negb (json_truthy schema) then Some "Any"
  else
    match schema with
    | JDict d =>
        let t := default (JStr "object") (dict_get "type" d) in
        if is_str t "integer" then Some "int"
        else if is_str t "number" then Some "float"
        else if is_str t "boolean" then Some "bool"
        else if is_str t "array" then
          match
            (fix items_hint (d : list (string * json)) : option string :=
               match d with
               | [] => Some "Any"
               | (k, items) :: d' =>
                   if String.eqb "items" k then
                     if json_truthy items then _python_type items
                     else Some "Any"
                   else items_hint d'
               end) d
          with
          | Some inner => Some ("List[" +:+ inner +:+ "]")
          | None => None
          end
        else if is_str t "object" then Some "Dict[str, Any]"
        else Some "str"
    | _ => None
    end.

End Sdk.

(** * generate_openapi.py *)

Module Openapi.
Import PyStr.

(** ** [_TableParser]

    [HTMLParser.feed] calls the three handlers in document order, with
    tag names in lower case; the model runs them over that sequence. *)

Inductive event : Type :=
| StartTag (tag : string)
| EndTag (tag : string)
| Data (data : string).

Record Table : Type := {
  caption : string;
  rows : list (list string)
}.

Record TableParser : Type := {
  tables : list Table;
  _current_table : option Table;
  _current_row : list string;
  _cell_buf : string;
  _in_cell : bool;
  _in_caption : bool;
  _caption_buf : string;
  _skip_tag : option string;
  _skip_depth : Z
}.

(** [_TableParser()] *)
Definition new_parser : TableParser :=
  Build_TableParser [] None [] EmptyString false false EmptyString None 0.

Definition handle_starttag (self : TableParser) (tag : string)
  : TableParser :=
  let '(Build_TableParser ts cur row cell in_cell in_cap cap skip depth) :=
    self in
  match skip with
  | Some _ =>
      Build_TableParser ts cur row cell in_cell in_cap cap skip (depth + 1)
  | None =>
      if in_tuple tag ["script"; "style"] then
        Build_TableParser ts cur row cell in_cell in_cap cap (Some tag) 1
      else if String.eqb tag "table" then
        Build_TableParser ts (Some (Build_Table EmptyString [])) row cell in_cell
          in_cap cap skip depth
      else if String.eqb tag "caption" then
        Build_TableParser ts cur row cell in_cell true EmptyString skip depth
      else if in_tuple tag ["td"; "th"] then
        Build_TableParser ts cur row EmptyString true in_cap cap skip depth
      else if String.eqb tag "tr" then
        Build_TableParser ts cur [] cell in_cell in_cap cap skip depth
      else self
  end.

(** [any(c.strip() for c in row)] *)
Definition any_nonblank (row : list string) : bool :=
  existsb (fun c => nonempty (strip c)) row.

Definition handle_endtag (self : TableParser) (tag : string)
  : TableParser :=
  let '(Build_TableParser ts cur row cell in_cell in_cap cap skip depth) :=
    self in
  match skip with
  | Some _ =>
      Build_TableParser ts cur row cell in_cell in_cap cap
        (if Z.eqb (depth - 1) 0 then None else skip) (depth - 1)
  | None =>
      if String.eqb tag "table" && present cur then
        Build_TableParser (ts ++ option_list cur) None row cell in_cell
          in_cap cap skip depth
      else if String.eqb tag "caption" then
        Build_TableParser ts
          (match cur with
           | Some t => Some (Build_Table (strip cap) (rows t))
           | None => None
           end)
          row cell in_cell false cap skip depth
      else if in_tuple tag ["td"; "th"] then
        Build_TableParser ts cur
          (match cur with
           | Some _ => row ++ [strip cell]
           | None => row
           end)
          cell false in_cap cap skip depth
      else if String.eqb tag "tr" && present cur then
        Build_TableParser ts
          (match cur with
           | Some t =>
               Some (Build_Table (caption t)
                       (if any_nonblank row then rows t ++ [row]
                        else rows t))
           | None => None
           end)
          [] cell in_cell in_cap cap skip depth
      else self
  end.

Definition handle_data (self : TableParser) (data : string)
  : TableParser :=
  let '(Build_TableParser ts cur row cell in_cell in_cap cap skip depth) :=
    self in
  match skip with
  | Some _ => self
  | None =>
      if in_cap then
        Build_TableParser ts cur row cell in_cell in_cap (cap +:+ data)
          skip depth
      else if in_cell then
        Build_TableParser ts cur row (cell +:+ data) in_cell in_cap cap
          skip depth
      else self
  end.

Definition handle (self : TableParser) (e : event) : TableParser :=
  match e with
  | StartTag tag => handle_starttag self tag
  | EndTag tag => handle_endtag self tag
  | Data data => handle_data self data
  end.

(** [tp.feed(content)] *)
Definition feed (self : TableParser) (content : list event)
  : TableParser :=
  fold_left handle content self.

(** One cell of a table, or a whole row of them, as the scanner emits it *)
Definition cell_events (text : string) : list event :=
  [StartTag "td"; Data text; EndTag "td"].

Definition row_events (cells : list string) : list event :=
  [StartTag "tr"] ++ flat_map cell_events cells ++ [EndTag "tr"].

Definition table_events (cap : string) (rws : list (list string))
  : list event :=
  [StartTag "table"; StartTag "caption"; Data cap; EndTag "caption"]
  ++ flat_map row_events rws ++ [EndTag "table"].

(** ** Type names and schema inference *)

Definition _TYPE_MAP : dict string :=
  [ ("string", "string");
    ("number", "number");
    ("number (integer)", "integer");
    ("integer", "integer");
    ("int", "integer");
    ("long", "integer");
    ("boolean", "boolean");
    ("bool", "boolean");
    ("array", "array");
    ("array<object>", "array");
    ("object", "object") ].

Definition _map_type (raw : string) : string :=
  default "string" (dict_get (lower raw) _TYPE_MAP).

(** [{'type': t}] *)
Definition type_schema (t : string) : json := JDict [("type", JStr t)].

Fixpoint _json_to_schema (value : json) : json :=
  match value with
  | JBool _ => type_schema "boolean"
  | JInt _ => type_schema "integer"
  | JFloat _ => type_schema "number"
  | JStr _ => type_schema "string"
  | JList l =>
      match l with
      | v0 :: _ =>
          JDict [("type", JStr "array"); ("items", _json_to_schema v0)]
      | [] => JDict [("type", JStr "array"); ("items", JDict [])]
      end
  | JDict d =>
      let props :=
        (fix items (d : list (string * json)) : list (string * json) :=
           match d with
           | [] => []
           | (k, v) :: d' => (k, _json_to_schema v) :: items d'
           end) d in
      JDict [("type", JStr "object"); ("properties", JDict props)]
  | JNull => JDict []
  end.

(** ** [_parse_html_file] *)

(** What the parser reads off one page: the two groups of the title
    search (or no match), the text of the short description with tags
    removed and entities unescaped (or no match), the scanner's events,
    and for each [<pre>] block in document order what [json.loads] gives
    on its cleaned text, [None] when it raises. *)
Record HtmlFile : Type := {
  title_m : option (string * string);
  desc_m : option string;
  content : list event;
  pre_blocks : list (option json)
}.

(** [rows[1:] if rows else []] *)
Definition skip_header (rws : list (list string)) : list (list string) :=
  match rws with [] => [] | _ :: rws' => rws' end.

(** The three row lists, lines 168-181: a later table of the same kind
    replaces an earlier one *)
Record RowSets : Type := {
  params_rows : list (list string);
  body_rows : list (list string);
  response_rows : list (list string)
}.

Definition classify (rs : RowSets) (table : Table) : RowSets :=
  let cap := lower (caption table) in
  if contains "request parameter details" cap then
    {| params_rows := skip_header (rows table);
       body_rows := body_rows rs; response_rows := response_rows rs |}
  else if contains "request body details" cap then
    {| params_rows := params_rows rs;
       body_rows := skip_header (rows table);
       response_rows := response_rows rs |}
  else if contains "response codes" cap then
    {| params_rows := params_rows rs; body_rows := body_rows rs;
       response_rows := skip_header (rows table) |}
  else rs.

Definition row_sets (file : HtmlFile) : RowSets :=
  fold_left classify (tables (feed new_parser (content file)))
    {| params_rows := []; body_rows := []; response_rows := [] |}.

(** The body of the loop over [params_rows], lines 186-203: the
    parameter a row gives, or [None] where the loop says [continue] *)
Definition param_of_row (row : list string) : option Param :=
  match row with
  | name :: location :: optionality :: data_type :: _mime :: desc_text :: _ =>
      let name := strip name in
      let location := lower (strip location) in
      if negb (in_tuple location ["query"; "path"; "header"]) then None
      else
        let required := String.eqb (lower (strip optionality)) "required" in
        Some {| p_name := name;
                p_in := location;
                p_description := strip desc_text;
                p_required := required || String.eqb location "path";
                p_schema_type := _map_type (strip data_type) |}
  | _ => None
  end.

Definition parameters_of (rws : list (list string)) : list Param :=
  omap param_of_row rws.

(** The test of line 220 *)
Definition says_required (b_desc : string) : bool :=
  contains "required" (lower b_desc)
  && startswith (lower (strip b_desc)) "required".

(** The body of the loop over [body_rows], lines 212-221, on
    [properties] and [required_fields] *)
Definition body_step (st : dict BodyProp * list string)
    (row : list string) : dict BodyProp * list string :=
  match row with
  | b_name :: b_type :: _b_mime :: b_desc :: _ =>
      let b_name := strip b_name in
      if negb (nonempty b_name) then st
      else
        let prop := {| bp_type := _map_type (strip b_type);
                       bp_description := strip b_desc |} in
        (dict_set b_name prop st.1,
         if says_required b_desc then st.2 ++ [b_name] else st.2)
  | _ => st
  end.

(** [[row[2].strip() for row in body_rows if len(row) > 2]] *)
Definition content_types (rws : list (list string)) : list string :=
  omap (fun row => match row with
                   | _ :: _ :: m :: _ => Some (strip m)
                   | _ => None
                   end) rws.

Definition request_body_of (rws : list (list string))
  : option RequestBody :=
  match rws with
  | [] => None
  | _ :: _ =>
      let '(properties, required_fields) := fold_left body_step rws ([], []) in
      let schema :=
        {| bs_properties := properties;
           bs_required := match required_fields with
                          | [] => None
                          | _ :: _ => Some required_fields
                          end |} in
      let mime := match content_types rws with
                  | m :: _ => m
                  | [] => "application/json"
                  end in
      Some {| rb_required := true; rb_mime := mime; rb_schema := schema |}
  end.

(** [desc_text or 'No description'] *)
Definition or_default (s d : string) : string :=
  if nonempty s then s else d.

(** The body of the loop over [response_rows], lines 239-245 *)
Definition response_step (responses : dict Response) (row : list string)
  : dict Response :=
  match row with
  | [] => responses
  | c :: rest =>
      let code := strip c in
      let desc_text :=
        match rest with
        | _ :: d2 :: _ => strip d2
        | [d1] => strip d1
        | [] => EmptyString
        end in
      if negb (isdigit code) then responses
      else
        dict_set code
          {| r_description := or_default desc_text "No description";
             r_content := None |}
          responses
  end.

(** Lines 237-248 *)
Definition responses_of (rws : list (list string)) : dict Response :=
  match fold_left response_step rws [] with
  | [] => [("200", {| r_description := "Success"; r_content := None |})]
  | responses => responses
  end.

(** Lines 253-264: the first block that parses; the loop stops there *)
Fixpoint response_sample (blocks : list (option json)) : option json :=
  match blocks with
  | [] => None
  | Some v :: _ => Some v
  | None :: blocks' => response_sample blocks'
  end.

(** The schema lines 269-277 attach.  A sample that parsed to [null] is
    Python's [None], which the test [is not None] takes for no sample. *)
Definition response_schema (file : HtmlFile) : json :=
  match response_sample (pre_blocks file) with
  | Some JNull | None => type_schema "object"
  | Some v => _json_to_schema v
  end.

(** Line 267 *)
Definition ok_code (method : string) (responses : dict Response) : string :=
  if String.eqb method "POST" && dict_has "201" responses
  then "201" else "200".

(** Lines 268-277: [responses[ok_code]['content'] = ...] *)
Definition attach_schema (method : string) (schema : json)
    (responses : dict Response) : dict Response :=
  let code := ok_code method responses in
  match dict_get code responses with
  | Some resp =>
      dict_set code
        {| r_description := r_description resp;
           r_content := Some [("application/json", schema)] |}
        responses
  | None => responses
  end.

(** [None] stands for the empty dictionary of line 151 *)
Definition _parse_html_file (file : HtmlFile) : option EndpointData :=
  match title_m file with
  | None => None
  | Some (g1, g2) =>
      let method := upper g1 in
      let api_path := strip g2 in
      let description :=
        match desc_m file with
        | Some raw => strip raw
        | None => EmptyString
        end in
      let rs := row_sets file in
      Some {| d_method := method;
              d_api_path := api_path;
              d_summary := description;
              d_description := description;
              d_parameters := parameters_of (params_rows rs);
              d_request_body := request_body_of (body_rows rs);
              d_responses :=
                attach_schema method (response_schema file)
                  (responses_of (response_rows rs)) |}
  end.

(** ** [build_openapi] *)

Definition _serialize_response (resp : Response) : Response :=
  {| r_description := r_description resp; r_content := r_content resp |}.

Definition _cap (s : string) : string :=
  match s with
  | EmptyString => EmptyString
  | String c s' => String (upper_char c) s'
  end.

Definition path_segments (api_path : string) : list string :=
  split "/"%char (strip_chars "/" api_path).

Definition _make_operation_id (method api_path : string) : string :=
  method +:+
  String.concat EmptyString
    (map (fun p => _cap (strip_chars "{}" p)) (path_segments api_path)).

Definition _extract_tag (api_path : string) : string :=
  match path_segments api_path with
  | p :: _ => p
  | [] => "default"
  end.

(** Lines 376-391 *)
Definition operation_of (data : EndpointData) : Operation :=
  let method := lower (d_method data) in
  {| op_summary := Some (d_summary data);
     op_description := Some (d_description data);
     op_operationId := Some (_make_operation_id method (d_api_path data));
     op_tags := Some [_extract_tag (d_api_path data)];
     op_responses :=
       Some (map (fun cr => (cr.1, _serialize_response cr.2))
               (d_responses data));
     op_parameters := match d_parameters data with
                      | [] => None
                      | ps => Some ps
                      end;
     op_requestBody := d_request_body data;
     op_extra := [] |}.

Definition empty_path_item : PathItem :=
  {| pi_parameters := None; pi_ops := [] |}.

(** Lines 370-393: one parsed page folded into [spec['paths']] *)
Definition add_operation (paths : dict PathItem) (data : EndpointData)
  : dict PathItem :=
  let method := lower (d_method data) in
  let api_path := d_api_path data in
  let paths :=
    if dict_has api_path paths then paths
    else dict_set api_path empty_path_item paths in
  match dict_get api_path paths with
  | Some item =>
      dict_set api_path
        {| pi_parameters := pi_parameters item;
           pi_ops := dict_set method (operation_of data) (pi_ops item) |}
        paths
  | None => paths
  end.

(** The body of [for html_path in html_files]: a page without a title
    is skipped *)
Definition build_step (paths : dict PathItem) (file : HtmlFile)
  : dict PathItem :=
  match _parse_html_file file with
  | Some data => add_operation paths data
  | None => paths
  end.

(** [html_files] are the pages in the sorted order of their names *)
Definition build_openapi (html_files : list HtmlFile) : OpenAPI :=
  {| oa_openapi := "3.0.0";
     oa_title := "IBM QRadar REST API";
     oa_version := "26.0";
     oa_server_url := "https://{host}/api";
     oa_paths := fold_left build_step html_files [] |}.

End Openapi.

(** ** [_TextExtractor] *)

Module Extractor.
Import PyStr Openapi.

Record TextExtractor : Type := {
  _buf : list string;
  _in_pre : bool;
  _pre_buf : string;
  pre_blocks : list string;
  _skip_tag : option string;
  _skip_depth : Z
}.

(** [_TextExtractor()] *)
Definition new_extractor : TextExtractor :=
  Build_TextExtractor [] false EmptyString [] None 0.

(** The marker that stands for a [<pre>] block in the text *)
Definition pre_marker : string :=
  String (ascii_of_nat 10) "__PRE__" +:+ String (ascii_of_nat 10) EmptyString.

Definition handle_starttag (self : TextExtractor) (tag : string)
  : TextExtractor :=
  let '(Build_TextExtractor buf in_pre pre blocks skip depth) := self in
  match skip with
  | Some _ => Build_TextExtractor buf in_pre pre blocks skip (depth + 1)
  | None =>
      if in_tuple tag ["script"; "style"] then
        Build_TextExtractor buf in_pre pre blocks (Some tag) 1
      else if String.eqb tag "pre" then
        Build_TextExtractor buf true EmptyString blocks skip depth
      else self
  end.

Definition handle_endtag (self : TextExtractor) (tag : string)
  : TextExtractor :=
  let '(Build_TextExtractor buf in_pre pre blocks skip depth) := self in
  match skip with
  | Some _ =>
      Build_TextExtractor buf in_pre pre blocks
        (if Z.eqb (depth - 1) 0 then None else skip) (depth - 1)
  | None =>
      if String.eqb tag "pre" then
        Build_TextExtractor (buf ++ [pre_marker]) false pre (blocks ++ [pre])
          skip depth
      else self
  end.

Definition handle_data (self : TextExtractor) (data : string)
  : TextExtractor :=
  let '(Build_TextExtractor buf in_pre pre blocks skip depth) := self in
  match skip with
  | Some _ => self
  | None =>
      if in_pre then
        Build_TextExtractor buf in_pre (pre +:+ data) blocks skip depth
      else Build_TextExtractor (buf ++ [data]) in_pre pre blocks skip depth
  end.

Definition handle (self : TextExtractor) (e : event) : TextExtractor :=
  match e with
  | StartTag tag => handle_starttag self tag
  | EndTag tag => handle_endtag self tag
  | Data data => handle_data self data
  end.

(** [te.feed(content)] *)
Definition feed (self : TextExtractor) (content : list event)
  : TextExtractor :=
  fold_left handle content self.

(** The property [text]: [''.join(self._buf)] *)
Definition text (self : TextExtractor) : string :=
  String.concat EmptyString (_buf self).

End Extractor.

(** * qradar_sdk/_http.py

    The session wrapper the generator writes out ([_HTTP_SRC]).  The
    [requests] library is outside the model: a response is the record of
    what the wrapper reads from it, the server is a function from the
    prepared request (or, for paging, from the range asked for) to the
    response, and the retry adapter is left out. *)

Module Http.
Import PyStr.

(** The exceptions of [exceptions.py] and the one the wrapper can let
    through *)
Inductive Raised : Type :=
| QRadarAuthError (message : string)
| QRadarAPIError (status_code : Z) (message : json)
| QRadarNotFoundError (status_code : Z) (message : json)
| QRadarRateLimitError (status_code : Z) (message : json)
| AttributeError.

(** [isinstance(e, QRadarAPIError)]: the class and its two subclasses *)
Definition is_api_error (e : Raised) : bool :=
  match e with
  | QRadarAPIError _ _ | QRadarNotFoundError _ _ | QRadarRateLimitError _ _ =>
      true
  | _ => false
  end.

(** [isinstance(e, QRadarError)] *)
Definition is_qradar_error (e : Raised) : bool :=
  match e with AttributeError => false | _ => true end.

Inductive outcome (A : Type) : Type :=
| Returns (a : A)
| Raises (e : Raised).
Arguments Returns {A} a.
Arguments Raises {A} e.

(** [bool(s)] for an optional string argument *)
Definition truthy (o : option string) : bool :=
  match o with Some s => nonempty s | None => false end.

Definition is_slash (c : ascii) : bool := Ascii.eqb c "/"%char.

(** Lines 219-223 of [__init__] *)
Definition make_base_url (host : string) : string :=
  let base := rstrip_by is_slash host in
  let base :=
    if startswith base "http://" || startswith base "https://" then base
    else "https://" +:+ base in
  rstrip_by is_slash base +:+ "/api".

Record QRadarSession : Type := {
  base_url : string;
  version : string;
  headers : dict string;
  auth : option (string * string)
}.

(** [d.update(items)] *)
Definition update {V} (d items : dict V) : dict V :=
  fold_left (fun acc kv => dict_set kv.1 kv.2 acc) items d.

(** [QRadarSession(host, sec_token=, username=, password=, version=)],
    over the headers a fresh [requests.Session] starts with *)
Definition __init__ (library_headers : dict string) (host : string)
    (sec_token username password : option string) (version : string)
  : outcome QRadarSession :=
  if negb (truthy sec_token) && negb (truthy username && truthy password)
  then
    Raises (QRadarAuthError
              "Provide either 'sec_token' or both 'username' and 'password'.")
  else
    let headers :=
      update library_headers
        [("Accept", "application/json");
         ("Content-Type", "application/json");
         ("Version", version)] in
    Returns
      {| base_url := make_base_url host;
         version := version;
         headers :=
           if truthy sec_token
           then dict_set "SEC" (default EmptyString sec_token) headers
           else headers;
         auth :=
           if truthy sec_token then None
           else Some (default EmptyString username,
                      default EmptyString password) |}.

(** What the wrapper hands to [requests]: [params] and [headers] are
    [None] when the merged dictionary is empty *)
Record Outgoing : Type := {
  o_method : string;
  o_url : string;
  o_params : option (dict string);
  o_headers : option (dict string)
}.

(** [d or None] *)
Definition or_none {V} (d : dict V) : option (dict V) :=
  match d with [] => None | _ => Some d end.

(** Lines 287-295: a [None] value in [params] is dropped *)
Definition merged_params (params : option (dict (option string)))
    (fields filter_expr sort : option string) : dict string :=
  let m :=
    match params with
    | Some ps =>
        update []
          (omap (fun kv : string * option string =>
                   match kv.2 with Some v => Some (kv.1, v) | None => None end)
             ps)
    | None => []
    end in
  let m := match fields with Some v => dict_set "fields" v m | None => m end in
  let m :=
    match filter_expr with Some v => dict_set "filter" v m | None => m end in
  match sort with Some v => dict_set "sort" v m | None => m end.

(** Lines 297-301 *)
Definition merged_headers (headers : option (dict string))
    (range_header : option string) : dict string :=
  let m := match headers with Some hs => update [] hs | None => [] end in
  match range_header with
  | Some r => dict_set "Range" ("items=" +:+ r) m
  | None => m
  end.

(** The request of lines 303-312 *)
Definition prepare (self : QRadarSession) (method path : string)
    (params : option (dict (option string))) (headers : option (dict string))
    (range_header fields filter_expr sort : option string) : Outgoing :=
  {| o_method := upper method;
     o_url := base_url self +:+ path;
     o_params := or_none (merged_params params fields filter_expr sort);
     o_headers := or_none (merged_headers headers range_header) |}.

(** What the wrapper reads from a response: the status, the raw body,
    what [resp.json()] gives ([None] when it raises [ValueError]), the
    decoded text and the reason phrase *)
Record Response : Type := {
  status_code : Z;
  content : string;
  json_body : option json;
  text : string;
  reason : string
}.

(** [resp.ok] of [requests]: no status from 400 to 599 *)
Definition ok (resp : Response) : bool :=
  negb ((400 <=? status_code resp)%Z && (status_code resp <? 600)%Z).

Section Wrapper.
(** [str(v)] of Python on a parsed JSON value that is not a string *)
Variable py_str : json → string.

(** [a or b] on parsed values *)
Definition or_else (a b : json) : json :=
  if Sdk.json_truthy a then a else b.

(** [f'{message}'] *)
Definition format (message : json) : string :=
  match message with JStr s => s | _ => py_str message end.

(** Lines 387-391.  [detail.get] raises on a body that parsed to anything
    but an object; a missing key reads as [None]. *)
Definition error_message (resp : Response) : outcome json :=
  match json_body resp with
  | Some (JDict detail) =>
      Returns
        (or_else (default JNull (dict_get "message" detail))
           (or_else (default JNull (dict_get "description" detail))
              (JStr (py_str (JDict detail)))))
  | Some _ => Raises AttributeError
  | None =>
      Returns
        (JStr (Openapi.or_default (text resp)
                 (Openapi.or_default (reason resp) "Unknown error")))
  end.

(** [None] when the call returns, else what it raises *)
Definition _raise_for_status (resp : Response) : option Raised :=
  if ok resp then None
  else
    match error_message resp with
    | Raises e => Some e
    | Returns message =>
        if Z.eqb (status_code resp) 401 then
          Some (QRadarAuthError ("Authentication failed: " +:+ format message))
        else if Z.eqb (status_code resp) 404 then
          Some (QRadarNotFoundError (status_code resp) message)
        else if Z.eqb (status_code resp) 429 then
          Some (QRadarRateLimitError (status_code resp) message)
        else Some (QRadarAPIError (status_code resp) message)
    end.

(** What [request] returns: the parsed body, the text, or [None] *)
Inductive Body : Type :=
| Parsed (v : json)
| Text (s : string)
| NoBody.

(** [request], with the transport as a function of the prepared request *)
Definition request (send : Outgoing → Response) (self : QRadarSession)
    (method path : string) (params : option (dict (option string)))
    (headers : option (dict string))
    (range_header fields filter_expr sort : option string) : outcome Body :=
  let resp :=
    send (prepare self method path params headers range_header fields
            filter_expr sort) in
  match _raise_for_status resp with
  | Some e => Raises e
  | None =>
      if nonempty (content resp) then
        match json_body resp with
        | Some v => Returns (Parsed v)
        | None => Returns (Text (text resp))
        end
      else Returns NoBody
  end.
End Wrapper.

(** [paginate], read to its end as [list(session.paginate(...))] does.
    [get start end] is the page [self.get] returns for the range header
    [f"{start}-{end}"]; one unit of [fuel] pays for one request. *)
Fixpoint paginate_loop {A} (fuel : nat) (get : Z → Z → list A)
    (page_size : Z) (max_items : option Z) (start fetched : Z)
  : option (list (list A)) :=
  match fuel with
  | O => None
  | S fuel' =>
      let end_ := (start + page_size - 1)%Z in
      let page := get start end_ in
      match page with
      | [] => Some []
      | _ :: _ =>
          let fetched := (fetched + Z.of_nat (length page))%Z in
          let enough :=
            match max_items with
            | Some m => (m <=? fetched)%Z
            | None => false
            end in
          if enough then Some [page]
          else if (Z.of_nat (length page) <? page_size)%Z then Some [page]
          else
            match paginate_loop fuel' get page_size max_items
                    (start + page_size)%Z fetched with
            | Some pages => Some (page :: pages)
            | None => None
            end
      end
  end.

Definition paginate {A} (fuel : nat) (get : Z → Z → list A)
    (page_size : Z) (max_items : option Z) : option (list (list A)) :=
  paginate_loop fuel get page_size max_items 0 0.

End Http.

(** * Notions used in the statements *)

Module Notions.
Import PyStr Sdk Openapi.

Definition has_underscore (s : string) : bool := mem_char "_"%char s.

(** The name [_path_to_method_name] derives for an operation *)
Definition base_name (op : CollectedOp) : string :=
  _path_to_method_name (c_method op) (c_path op).

(** The rule by which a method gets its name, given the names taken:
    the base name when it is free, else the base name with the least
    suffix from 2 upwards that is free *)
Definition name_rule (taken : gset string) (base n : string) : Prop :=
  (n ∉ taken) ∧
  (((base ∉ taken) ∧ n = base) ∨
   ((base ∈ taken) ∧
    ∃ k, 2 ≤ k ∧ n = suffixed base k ∧
         ∀ j, 2 ≤ j → j < k → suffixed base j ∈ taken)).

(** The names [b], [b_2], ..., [b_(k+1)] *)
Definition taken_upto (b : string) (k : nat) : gset string :=
  list_to_set (b :: map (suffixed b) (seq 2 k)).

(** The cell of a row at a position, empty when the row is shorter *)
Definition cell (i : nat) (row : list string) : string :=
  nth i row EmptyString.

(** The rows of the parameter table that yield a parameter: at least
    six cells and a location among query, path, header *)
Definition qualifying_row (row : list string) : bool :=
  (6 <=? length row)%nat
  && in_tuple (lower (strip (cell 1 row))) ["query"; "path"; "header"].

(** The name a signature binds for such a row: [_to_snake] of the name
    cell, with [range] taken to [range_header] outside the path *)
Definition row_binding (row : list string) : string :=
  let pname := _to_snake (strip (cell 0 row)) in
  if String.eqb (lower (strip (cell 1 row))) "path" then pname
  else if in_tuple pname ["range"] then "range_header" else pname.

(** Is the location of a row the path? *)
Definition path_row (row : list string) : bool :=
  String.eqb (lower (strip (cell 1 row))) "path".

(** The annotation the signature puts after a keyword parameter *)
Definition optional_any (pname : string) : string :=
  pname +:+ ": Optional[Any] = None".

(** The operation the generator collects for a parsed page: the builder
    files it under the page's path and lower-cased method, in a path item
    without parameters of its own, and the collector reads it back from
    there *)
Definition collected_of (data : EndpointData) : CollectedOp :=
  collected (d_api_path data) [] (lower (d_method data)) (operation_of data).

Definition header_row : list string :=
  ["Parameter"; "Type"; "Optionality"; "Data Type"; "MIME Type";
   "Description"].

(** A page [GET /things/{id}] whose parameter table names [id] twice,
    once in the path and once in the query *)
Definition twice_id_file : HtmlFile :=
  {| title_m := Some ("GET", "/things/{id}");
     desc_m := Some "Gets a thing.";
     content :=
       table_events "Request Parameter Details"
         [ header_row;
           ["id"; "path"; "Optional"; "Number (Integer)"; "text/plain";
            "The thing."];
           ["id"; "query"; "Optional"; "String"; "text/plain";
            "Another id."] ];
     pre_blocks := [] |}.

(** The rows of the body table that give a field: at least four cells
    and a name that is not blank *)
Definition body_field_row (row : list string) : bool :=
  (4 <=? length row)%nat && nonempty (strip (cell 0 row)).

(** The description cell, lower-cased and stripped, starts with the word *)
Definition starts_required (row : list string) : bool :=
  startswith (strip (lower (cell 3 row))) "required".

(** No digits-only code in the first cell *)
Definition non_numeric_row (row : list string) : Prop :=
  isdigit (strip (cell 0 row)) = false.

Definition codes_header_row : list string :=
  ["HTTP Response Code"; "Unique Code"; "Description"].

Definition body_header_row : list string :=
  ["Parameter"; "Data Type"; "MIME Type"; "Description"].

(** A page [GET /things] whose response table has one row, without a
    numeric code, and no sample *)
Definition no_code_file : HtmlFile :=
  {| title_m := Some ("GET", "/things");
     desc_m := None;
     content :=
       table_events "Response Codes"
         [ codes_header_row; ["n/a"; EmptyString; "Nothing documented."] ];
     pre_blocks := [] |}.

Definition thing_sample : json :=
  JDict [("id", JInt 1); ("name", JStr "x"); ("tags", JList [JStr "a"])].

(** A page [POST /things] with a body table and the codes 200, 201 and
    409; its first [<pre>] block does not parse, the second does *)
Definition post_file : HtmlFile :=
  {| title_m := Some ("post", "/things");
     desc_m := Some " Creates a thing. ";
     content :=
       table_events "Request Body Details"
         [ body_header_row;
           ["name"; "String"; "application/json"; " Required - The name."];
           ["note"; "String"; "application/json";
            "Optional. Not required by anyone."];
           ["  "; "String"; "application/json"; "Required"] ]
       ++ table_events "Response Codes"
            [ codes_header_row;
              ["200"; EmptyString; "The thing was updated."];
              ["201"; EmptyString; "The thing was created."];
              ["409"; "1004"; EmptyString] ];
     pre_blocks := [None; Some thing_sample] |}.

(** *** The schema inferencer as the specification describes it *)

Inductive scalar : Type := TBoolean | TInteger | TNumber | TString.

(** The schema type of the data model, with the empty schema *)
Inductive Schema : Type :=
| SEmpty
| SScalar (t : scalar)
| SArray (items : Schema)
| SObject (properties : list (string * Schema)).

(** bool to boolean, int to integer, float to number, str to string, a
    list to an array of the schema of its first element (of the empty
    schema when it has none), a dict to an object of the schemas of its
    values, anything else to the empty schema *)
Fixpoint infer_schema (value : json) : Schema :=
  match value with
  | JBool _ => SScalar TBoolean
  | JInt _ => SScalar TInteger
  | JFloat _ => SScalar TNumber
  | JStr _ => SScalar TString
  | JList [] => SArray SEmpty
  | JList (first :: _) => SArray (infer_schema first)
  | JDict d =>
      SObject
        ((fix each (d : list (string * json)) : list (string * Schema) :=
            match d with
            | [] => []
            | (name, v) :: d' => (name, infer_schema v) :: each d'
            end) d)
  | JNull => SEmpty
  end.

Definition scalar_name (t : scalar) : string :=
  match t with
  | TBoolean => "boolean"
  | TInteger => "integer"
  | TNumber => "number"
  | TString => "string"
  end.

(** A schema written as the OpenAPI object: [{}], [{type: t}],
    [{type: array, items: ...}], [{type: object, properties: {...}}] *)
Fixpoint schema_object (s : Schema) : json :=
  match s with
  | SEmpty => JDict []
  | SScalar t => JDict [("type", JStr (scalar_name t))]
  | SArray items =>
      JDict [("type", JStr "array"); ("items", schema_object items)]
  | SObject properties =>
      JDict
        [("type", JStr "object");
         ("properties",
          JDict
            ((fix each (ps : list (string * Schema)) : list (string * json) :=
                match ps with
                | [] => []
                | (name, p) :: ps' => (name, schema_object p) :: each ps'
                end) properties))]
  end.

(** *** OpenAPI assembly *)

(** Does a parsed page describe this path and (lower-case) method? *)
Definition same_operation (api_path method : string) (data : EndpointData)
  : bool :=
  String.eqb (d_api_path data) api_path
  && String.eqb (lower (d_method data)) method.

(** [spec['paths'][api_path][method]], when both keys are there *)
Definition lookup_operation (paths : dict PathItem)
    (api_path method : string) : option Operation :=
  match dict_get api_path paths with
  | Some item => dict_get method (pi_ops item)
  | None => None
  end.

(** The distinct elements of a list, in the order they first occur *)
Fixpoint first_occurrences (l : list string) : list string :=
  match l with
  | [] => []
  | x :: l' => x :: filter (fun y => y ≠ x) (first_occurrences l')
  end.

(** Three pages in the order they are processed: two of them describe
    [GET /things], with a page for [/things/{id}] in between *)
Definition things_pages : list HtmlFile :=
  [ no_code_file; twice_id_file;
    {| title_m := Some ("get", "/things"); desc_m := Some "Lists things.";
       content := []; pre_blocks := [] |} ].

(** *** Operation collection *)

(** What the collector takes for one method key of a path item: the tag
    and the operation dictionary, or nothing when the key is absent or
    its operation object is empty *)
Definition entry_of (path : string) (path_item : PathItem)
    (method : string) : option (string * CollectedOp) :=
  match dict_get method (pi_ops path_item) with
  | Some operation =>
      if operation_truthy operation then
        Some (tag_of operation,
              collected path (default [] (pi_parameters path_item))
                method operation)
      else None
  | None => None
  end.

Definition entries_of_path (entry : string * PathItem)
  : list (string * CollectedOp) :=
  omap (entry_of entry.1 entry.2) http_methods.

(** Everything collected from a document, in the order of collection *)
Definition all_entries (spec : OpenAPI) : list (string * CollectedOp) :=
  flat_map entries_of_path (oa_paths spec).

(** Operations appended one by one to the list of their tag *)
Definition group (entries : list (string * CollectedOp))
    (ops_by_tag : dict (list CollectedOp)) : dict (list CollectedOp) :=
  fold_left (fun acc e => dict_append e.1 e.2 acc) entries ops_by_tag.

(** Is this the operation collected for that path and method? *)
Definition at_path_method (path method : string) (c : CollectedOp) : Prop :=
  c_path c = path ∧ c_method c = method.

(** The line break between the lines of a module *)
Definition nl : string := String (ascii_of_nat 10) EmptyString.

Definition widgets_operation : Operation :=
  {| op_summary := Some "Lists the widgets.";
     op_description := None;
     op_operationId := Some "getWidgets";
     op_tags := Some ["widgets"];
     op_responses :=
       Some [("200", {| r_description := "OK"; r_content := None |})];
     op_parameters := None;
     op_requestBody := None;
     op_extra := [] |}.

Definition empty_operation : Operation :=
  {| op_summary := None; op_description := None; op_operationId := None;
     op_tags := None; op_responses := None; op_parameters := None;
     op_requestBody := None; op_extra := [] |}.

(** A path item with a GET operation, a TRACE operation and an empty
    object under PUT *)
Definition widgets_item : PathItem :=
  {| pi_parameters := None;
     pi_ops := [("get", widgets_operation);
                ("trace", widgets_operation);
                ("put", empty_operation)] |}.

(** A document with the one path [/widgets] *)
Definition widgets_spec : OpenAPI :=
  {| oa_openapi := "3.0.0"; oa_title := "Widgets"; oa_version := "1";
     oa_server_url := "https://{host}/api";
     oa_paths := [("/widgets", widgets_item)] |}.

(** The operation collected for [GET /widgets], with nothing declared *)
Definition widgets_op : CollectedOp :=
  {| c_method := "get"; c_path := "/widgets"; c_operation_id := "getWidgets";
     c_summary := EmptyString; c_parameters := []; c_request_body := None;
     c_response_schema := JDict [] |}.

End Notions.

(** * Notions used in the further properties *)

Module MoreNotions.
Import PyStr Sdk Openapi Notions.

(** What the scanner makes of a table given by its caption and rows:
    everything stripped, rows without a non-blank cell left out *)
Definition scanned_table (cap : string) (rws : list (list string)) : Table :=
  {| caption := strip cap;
     rows := filter (fun row => any_nonblank row = true)
               (map (map strip) rws) |}.

(** The events between an opening [<script>] or [<style>] and the tag that
    closes it: the depth, 1 after the opening tag, goes up with every start
    tag and down with every end tag, stays above 0 and is 1 at the end *)
Fixpoint stays_inside (depth : Z) (body : list event) : bool :=
  match body with
  | [] => Z.eqb depth 1
  | Data _ :: body' => stays_inside depth body'
  | StartTag _ :: body' => stays_inside (depth + 1) body'
  | EndTag _ :: body' => (1 <? depth)%Z && stays_inside (depth - 1) body'
  end.

(** Every character of a string passes a test *)
Fixpoint all_chars (P : ascii → bool) (s : string) : bool :=
  match s with
  | EmptyString => true
  | String c s' => P c && all_chars P s'
  end.

(** What [lstrip] leaves does not start with a stripped character *)
Definition head_kept (p : ascii → bool) (s : string) : bool :=
  match s with EmptyString => true | String c _ => negb (p c) end.

(** A row as the scanner keeps it: every cell stripped, one of them not
    blank; a table of such rows under a stripped caption *)
Definition clean_row (row : list string) : Prop :=
  any_nonblank row = true ∧ Forall (fun c => strip c = c) row.

Definition clean_table (t : Table) : Prop :=
  strip (caption t) = caption t ∧ Forall clean_row (rows t).

(** What holds of the scanner after any events *)
Definition scanner_inv (p : TableParser) : Prop :=
  Forall clean_table (tables p)
  ∧ (∀ t, _current_table p = Some t → clean_table t)
  ∧ Forall (fun c => strip c = c) (_current_row p)
  ∧ match _skip_tag p with
    | Some _ => (1 <= _skip_depth p)%Z
    | None => _skip_depth p = 0%Z
    end.

(** The scanner between two tables, with the tables it has so far *)
Definition settled (ts : list Table) (p : TableParser) : Prop :=
  tables p = ts ∧ _current_table p = None ∧ _skip_tag p = None.

(** The scanner inside a table, past its caption *)
Definition in_table (ts : list Table) (t : Table) (p : TableParser) : Prop :=
  tables p = ts ∧ _current_table p = Some t ∧ _in_caption p = false
  ∧ _skip_tag p = None.

(** The same, inside a row with the cells read so far *)
Definition in_row (ts : list Table) (t : Table) (row : list string)
    (p : TableParser) : Prop :=
  in_table ts t p ∧ _current_row p = row.

(** A page with a script that holds markup of its own, before a table *)
Definition script_then_table : list event :=
  [StartTag "script"; Data "document.write('"; StartTag "table";
   StartTag "script"; EndTag "script"; EndTag "table"; Data "')";
   EndTag "script"]
  ++ table_events "Response Codes" [codes_header_row].

(** Markup inside a [<pre>] block that neither ends the block nor opens a
    skipped subtree or another block *)
Definition plain_event (e : event) : bool :=
  match e with
  | StartTag t => negb (in_tuple t ["script"; "style"; "pre"])
  | EndTag t => negb (String.eqb t "pre")
  | Data _ => true
  end.

(** The text of some events: their data, joined *)
Fixpoint data_of (evs : list event) : string :=
  match evs with
  | [] => EmptyString
  | Data d :: evs' => d +:+ data_of evs'
  | _ :: evs' => data_of evs'
  end.

(** Some text, then a [<pre>] block with the given events inside *)
Definition text_then_pre (part : string * list event) : list event :=
  Data part.1 :: StartTag "pre" :: part.2 ++ [EndTag "pre"].

(** The six type names of an OpenAPI schema *)
Definition openapi_types : list string :=
  ["string"; "number"; "integer"; "boolean"; "array"; "object"].

(** Text within ASCII: every character has a code below 128 *)
Definition ascii_text (s : string) : bool :=
  all_chars (fun c => (code c <? 128)%nat) s.

(** Does a response carry a schema? *)
Definition has_content (cr : string * Response) : Prop :=
  present (r_content cr.2) = true.

(** A page without a recognisable title *)
Definition untitled_file : HtmlFile :=
  {| title_m := None; desc_m := Some "An overview page.";
     content := table_events "Response Codes" [codes_header_row];
     pre_blocks := [] |}.

(** An operation as the builder writes it under a path and method *)
Definition built_operation (api_path : string) (mo : string * Operation)
  : Prop :=
  operation_truthy mo.2 = true
  ∧ op_tags mo.2 = Some [_extract_tag api_path]
  ∧ op_operationId mo.2 = Some (_make_operation_id mo.1 api_path)
  ∧ ∃ responses, op_responses mo.2 = Some responses ∧ responses ≠ [].

(** A path item as the builder leaves it: no path-level parameters, at
    least one operation, no method twice *)
Definition built_item (pe : string * PathItem) : Prop :=
  pi_parameters pe.2 = None
  ∧ pi_ops pe.2 ≠ []
  ∧ dict_wf (pi_ops pe.2)
  ∧ Forall (built_operation pe.1) (pi_ops pe.2).

(** The number of operations in all the lists of a collection *)
Definition total_operations (ops_by_tag : dict (list CollectedOp)) : nat :=
  list_sum (map (fun tc => length tc.2) ops_by_tag).

(** The module names [_sanitise_module_name] steers clear of *)
Definition clashing_names : list string :=
  [ "auth"; "help"; "type"; "input"; "filter"; "id"; "list";
    "set"; "map"; "hash"; "format"; "open"; "import" ].

(** *** Shapes of converted names *)

Definition not_upper (c : ascii) : bool := negb (is_upper c).

(** Neither a space nor a hyphen *)
Definition no_gap (c : ascii) : bool :=
  negb (Ascii.eqb c " "%char) && negb (Ascii.eqb c "-"%char).

(** A character a converted name can hold *)
Definition snake_char (c : ascii) : bool := not_upper c && no_gap c.

(** The longest prefix of a string whose characters pass a test *)
Fixpoint run (p : ascii → bool) (s : string) : string :=
  match s with
  | EmptyString => EmptyString
  | String c s' => if p c then String c (run p s') else EmptyString
  end.

(** The loop of [Re.match_here] for a [+] atom, by its own name *)
Definition many1_loop (p : ascii → bool) (rest : list Re.atom)
  : string → string → option (list string) :=
  fix many (taken : string) (s : string) : option (list string) :=
    match s with
    | String c s' =>
        if p c then
          let taken' := taken +:+ String c EmptyString in
          match many taken' s' with
          | Some gs => Some gs
          | None =>
              match Re.match_here rest s' with
              | Some gs => Some (taken' :: gs)
              | None => None
              end
          end
        else None
    | EmptyString => None
    end.

(** No two underscores side by side *)
Fixpoint no_double (s : string) : bool :=
  match s with
  | EmptyString => true
  | String c s' =>
      negb (is_underscore c && negb (head_kept is_underscore s'))
      && no_double s'
  end.

(** [re.sub(r'_+', '_', s)] *)
Definition squeeze (s : string) : string :=
  Re.sub re_underscores (fun _ => "_") s.

(** A name as [_to_snake] leaves it before the keyword test *)
Definition snake_shaped (s : string) : Prop :=
  all_chars snake_char s = true
  ∧ no_double s = true
  ∧ strip_chars "_" s = s.

(** *** The HTTP wrapper *)

(** Is a parsed body anything but a JSON object? *)
Definition not_object (v : json) : bool :=
  match v with JDict _ => false | _ => true end.

(** A 404 with a JSON object for a body, and a 500 whose body is a JSON
    list *)
Definition not_found_response : Http.Response :=
  {| Http.status_code := 404;
     Http.content := "{...}";
     Http.json_body := Some (JDict [("message", JStr "No such offense.")]);
     Http.text := "{...}";
     Http.reason := "Not Found" |}.

Definition list_body_response : Http.Response :=
  {| Http.status_code := 500;
     Http.content := "[...]";
     Http.json_body := Some (JList [JStr "boom"]);
     Http.text := "[...]";
     Http.reason := "Internal Server Error" |}.

(** A console that holds a list of items and answers the range
    [start]-[end] with the items at these positions, both ends included *)
Definition range_server {A} (items : list A) (start end_ : Z) : list A :=
  take (Z.to_nat (end_ - start + 1)) (drop (Z.to_nat start) items).

(** The type hint of a sample value: that of its first element for a
    list, [Any] where nothing is known *)
Fixpoint type_hint (v : json) : string :=
  match v with
  | JNull => "Any"
  | JBool _ => "bool"
  | JInt _ => "int"
  | JFloat _ => "float"
  | JStr _ => "str"
  | JList l =>
      match l with
      | v0 :: _ => "List[" +:+ type_hint v0 +:+ "]"
      | [] => "List[Any]"
      end
  | JDict _ => "Dict[str, Any]"
  end.

(** The value a caller gave for a query parameter: [None] when the key
    is missing or its value is [None] *)
Definition given_param (params : dict (option string)) (k : string)
  : option string :=
  match dict_get k params with Some (Some v) => Some v | _ => None end.

End MoreNotions.

(** * Properties *)

(** ** The model on small inputs *)

Section Examples.
Import PyStr Sdk Openapi Notions.

Example class_name_example :
  _class_name "gui_app-framework" = "GuiAppFrameworkAPI".
Proof. reflexivity. Qed.

Example widgets_method :
  method_lines "get_widgets" widgets_op
  = [ "    def get_widgets(self, **kwargs: Any) -> Any:";
      "        " +:+ dq +:+ dq +:+ dq +:+ "Call GET /widgets" +:+ dq +:+ dq +:+ dq;
      "        url = " +:+ dq +:+ "/widgets" +:+ dq;
      "        return self._s.get(url, **kwargs)";
      EmptyString ].
Proof. reflexivity. Qed.

Example widgets_names :
  method_names ∅ [widgets_op; widgets_op; widgets_op]
  = Some ["get_widgets"; "get_widgets_2"; "get_widgets_3"].
Proof. vm_compute. reflexivity. Qed.

Example to_snake_camel : _to_snake "fooBar" = "foo_bar".
Proof. reflexivity. Qed.

Example to_snake_acronym : _to_snake "HTTPServerID" = "http_server_id".
Proof. reflexivity. Qed.

Example to_snake_dashes : _to_snake "__Content-Type  x__" = "content_type_x".
Proof. reflexivity. Qed.

Example to_snake_keyword : _to_snake "Import" = "import_".
Proof. reflexivity. Qed.

Example method_name_example :
  _path_to_method_name "GET" "/siem/offenses/{offense_id}/notes"
  = "get_siem_offenses_offense_id_notes".
Proof. reflexivity. Qed.

Example module_name_example :
  map _sanitise_module_name ["help"; "import"; "siem"; "gui-app framework"]
  = ["help_api"; "import_"; "siem"; "gui_app_framework"].
Proof. reflexivity. Qed.

Example feed_skips_script_and_blank_rows :
  tables (feed new_parser
            ([StartTag "script"; StartTag "table"; EndTag "table";
              EndTag "script"]
             ++ table_events " Response Codes "
                  [["HTTP Response Code"; "Unique Code"; "Description"];
                   [" "; EmptyString];
                   ["200"; EmptyString; " The list was retrieved. "]]))
  = [ {| caption := "Response Codes";
         rows := [["HTTP Response Code"; "Unique Code"; "Description"];
                  ["200"; EmptyString; "The list was retrieved."]] |} ].
Proof. reflexivity. Qed.

End Examples.

(** ** Strings *)

Section StringFacts.
Import PyStr.

Lemma append_nil_r (s : string) : s +:+ EmptyString = s.
Proof. induction s as [|c s IH]; simpl; [reflexivity | by rewrite IH]. Qed.

Lemma append_assoc (a b c : string) : (a +:+ b) +:+ c = a +:+ b +:+ c.
Proof. induction a as [|x a IH]; simpl; [reflexivity | by rewrite IH]. Qed.

Lemma append_inj_l (a b c : string) : a +:+ b = a +:+ c → b = c.
Proof.
  induction a as [|x a IH]; simpl; [done |].
  intros [= H]. by apply IH.
Qed.

Lemma append_length (a b : string) :
  String.length (a +:+ b) = (String.length a + String.length b)%nat.
Proof. induction a as [|x a IH]; simpl; [reflexivity | by rewrite IH]. Qed.

Lemma prefix_append (p s : string) : String.prefix p (p +:+ s) = true.
Proof.
  induction p as [|c p IH]; simpl; [by destruct s |].
  destruct (ascii_dec c c); [done | congruence].
Qed.

Lemma prefix_split (p s : string) :
  String.prefix p s = true → ∃ r, s = p +:+ r.
Proof.
  revert s. induction p as [|c p IH]; intros s H.
  - by exists s.
  - destruct s as [|d s]; simpl in H; [done |].
    destruct (ascii_dec c d) as [->|]; [| done].
    destruct (IH _ H) as [r ->]. by exists r.
Qed.

Lemma contains_prefix (needle s : string) :
  String.prefix needle s = true → contains needle s = true.
Proof. intros H. destruct s; simpl in *; by rewrite H. Qed.

Lemma contains_append_l (needle a s : string) :
  contains needle s = true → contains needle (a +:+ s) = true.
Proof.
  intros H. induction a as [|c a IH]; simpl; [done |].
  rewrite IH. apply orb_true_r.
Qed.

Lemma contains_middle (needle a b : string) :
  contains needle (a +:+ needle +:+ b) = true.
Proof. apply contains_append_l, contains_prefix, prefix_append. Qed.

Lemma lower_append (a b : string) : lower (a +:+ b) = lower a +:+ lower b.
Proof. induction a as [|c a IH]; simpl; [reflexivity | by rewrite IH]. Qed.

Lemma is_space_lower_char (c : ascii) :
  is_space (lower_char c) = is_space c.
Proof. by destruct c as [[] [] [] [] [] [] [] []]. Qed.

(** [strip] only drops characters at the two ends *)
Lemma lstrip_by_split (p : ascii → bool) (s : string) :
  ∃ a, s = a +:+ lstrip_by p s.
Proof.
  induction s as [|c s [a IH]]; simpl; [by exists EmptyString |].
  destruct (p c); [| by exists EmptyString].
  exists (String c a). simpl. by rewrite <- IH.
Qed.

Lemma rstrip_by_split (p : ascii → bool) (s : string) :
  ∃ b, s = rstrip_by p s +:+ b.
Proof.
  induction s as [|c s [b IH]]; simpl; [by exists EmptyString |].
  destruct (rstrip_by p s) as [|d r] eqn:E.
  - destruct (p c).
    + by exists (String c s).
    + exists s. done.
  - exists b. simpl in *. by rewrite <- IH.
Qed.

Lemma strip_by_split (p : ascii → bool) (s : string) :
  ∃ a b, s = a +:+ strip_by p s +:+ b.
Proof.
  unfold strip_by.
  destruct (lstrip_by_split p s) as [a Ha].
  destruct (rstrip_by_split p (lstrip_by p s)) as [b Hb].
  exists a, b. by rewrite <- Hb.
Qed.

Lemma lstrip_lower (s : string) :
  lstrip_by is_space (lower s) = lower (lstrip_by is_space s).
Proof.
  induction s as [|c s IH]; simpl; [reflexivity |].
  rewrite is_space_lower_char. by destruct (is_space c).
Qed.

Lemma rstrip_lower (s : string) :
  rstrip_by is_space (lower s) = lower (rstrip_by is_space s).
Proof.
  induction s as [|c s IH]; simpl; [reflexivity |].
  rewrite IH, is_space_lower_char.
  destruct (rstrip_by is_space s); simpl; [by destruct (is_space c) | done].
Qed.

(** Lower-casing and stripping commute *)
Lemma strip_lower (s : string) : strip (lower s) = lower (strip s).
Proof. unfold strip, strip_by. by rewrite lstrip_lower, rstrip_lower. Qed.

Lemma to_uint_nonnil (n : nat) : Nat.to_uint n ≠ Decimal.Nil.
Proof.
  rewrite <- (DecimalNat.Unsigned.of_to n), DecimalNat.Unsigned.to_of.
  unfold Decimal.unorm. by destruct (Decimal.nzhead _).
Qed.

Lemma str_of_nat_inj (j k : nat) : str_of_nat j = str_of_nat k → j = k.
Proof.
  unfold str_of_nat. intros H.
  apply DecimalNat.Unsigned.to_uint_inj.
  assert (Some (Nat.to_uint j) = Some (Nat.to_uint k)) as [= E]; [| done].
  rewrite <- (NilZero.usu _ (to_uint_nonnil j)).
  rewrite <- (NilZero.usu _ (to_uint_nonnil k)).
  by rewrite H.
Qed.

End StringFacts.

(** ** Names of the generated SDK *)

Section NameFacts.
Import PyStr Sdk Notions.

Lemma keywords_have_no_underscore (s : string) :
  iskeyword s = true → has_underscore s = false.
Proof.
  unfold iskeyword, in_tuple. intros H.
  apply existsb_exists in H as (k & Hk & E).
  apply String.eqb_eq in E as ->.
  assert (forallb (fun k => negb (has_underscore k)) kwlist = true) as A
    by reflexivity.
  rewrite forallb_forall in A. specialize (A _ Hk).
  by destruct (has_underscore k).
Qed.

Lemma has_underscore_append (a b : string) :
  has_underscore (a +:+ String "_"%char b) = true.
Proof.
  unfold has_underscore. induction a as [|c a IH]; simpl; [done |].
  rewrite IH. apply orb_true_r.
Qed.

Lemma underscored_not_keyword (a b : string) :
  iskeyword (a +:+ String "_"%char b) = false.
Proof.
  destruct (iskeyword _) eqn:E; [| done].
  apply keywords_have_no_underscore in E.
  by rewrite has_underscore_append in E.
Qed.

Lemma to_snake_not_keyword (name : string) :
  iskeyword (_to_snake name) = false.
Proof.
  unfold _to_snake. destruct (iskeyword (snake_body name)) eqn:E; [| done].
  apply underscored_not_keyword.
Qed.

Lemma suffixed_not_keyword (original : string) (k : nat) :
  iskeyword (suffixed original k) = false.
Proof. apply underscored_not_keyword. Qed.

Lemma suffixed_inj (original : string) (j k : nat) :
  suffixed original j = suffixed original k → j = k.
Proof.
  unfold suffixed. intros H. apply append_inj_l in H.
  simpl in H. injection H as H. by apply str_of_nat_inj.
Qed.

Lemma suffixed_not_original (original : string) (k : nat) :
  suffixed original k ≠ original.
Proof.
  unfold suffixed. intros H.
  apply (f_equal String.length) in H.
  rewrite append_length in H. simpl in H. lia.
Qed.

(** The loop looks at [seen_names] only through the names it tests *)
Lemma dedup_loop_agree (fuel : nat) (seen seen' : gset string)
    (original func_name : string) (counter : nat) :
  (func_name ∈ seen ↔ func_name ∈ seen') →
  (∀ k, counter ≤ k → suffixed original k ∈ seen
                      ↔ suffixed original k ∈ seen') →
  dedup_loop fuel seen original func_name counter
  = dedup_loop fuel seen' original func_name counter.
Proof.
  revert func_name counter.
  induction fuel as [|fuel IH]; intros fn c Hfn Hk; simpl; [done |].
  destruct (decide (fn ∈ seen)) as [Hin|Hin];
    destruct (decide (fn ∈ seen')) as [Hin'|Hin']; try tauto.
  apply IH; [apply Hk; lia | intros k ?; apply Hk; lia].
Qed.

(** The loop ends: with more fuel than names seen, it returns *)
Lemma dedup_loop_total (fuel : nat) (seen : gset string)
    (original func_name : string) (counter : nat) :
  func_name = original ∨ (∃ j, j < counter ∧ func_name = suffixed original j) →
  size seen < fuel →
  ∃ r, dedup_loop fuel seen original func_name counter = Some r.
Proof.
  revert seen func_name counter.
  induction fuel as [|fuel IH]; intros seen fn c Hfn Hsz; [lia |].
  simpl. destruct (decide (fn ∈ seen)) as [Hin|Hin]; [| by eexists].
  assert (∀ k, c ≤ k → suffixed original k ≠ fn) as Hne.
  { intros k Hk E. destruct Hfn as [->|(j & Hj & ->)].
    - by apply suffixed_not_original in E.
    - apply suffixed_inj in E. lia. }
  rewrite (dedup_loop_agree fuel seen (seen ∖ {[fn]})).
  - apply IH; [right; exists c; split; [lia | done] |].
    assert ({[fn]} ⊆ seen) as Hsub by (by apply singleton_subseteq_l).
    pose proof (size_difference _ _ Hsub) as E.
    pose proof (subseteq_size _ _ Hsub) as E'.
    rewrite size_singleton in E, E'. lia.
  - specialize (Hne c (le_n c)).
    rewrite elem_of_difference, elem_of_singleton. tauto.
  - intros k Hk. specialize (Hne k ltac:(lia)).
    rewrite elem_of_difference, elem_of_singleton. tauto.
Qed.

(** What the loop returns: the first free name among [func_name],
    [suffixed original counter], [suffixed original (counter + 1)], ... *)
Lemma dedup_loop_result (fuel : nat) (seen : gset string)
    (original func_name r : string) (counter : nat) :
  dedup_loop fuel seen original func_name counter = Some r →
  (r ∉ seen) ∧
  (((func_name ∉ seen) ∧ r = func_name) ∨
   ((func_name ∈ seen) ∧
    ∃ k, counter ≤ k ∧ r = suffixed original k ∧
         ∀ j, counter ≤ j → j < k → suffixed original j ∈ seen)).
Proof.
  revert func_name counter.
  induction fuel as [|fuel IH]; intros fn c; simpl; [done |].
  destruct (decide (fn ∈ seen)) as [Hin|Hin].
  - intros H. destruct (IH _ _ H) as [Hr [[Hn ->]|(Hs & k & Hk & -> & Hj)]].
    + split; [done |]. right. split; [done |].
      exists c. split; [lia |]. split; [done |]. intros; lia.
    + split; [done |]. right. split; [done |].
      exists k. split; [lia |]. split; [done |].
      intros j H1 H2. destruct (decide (j = c)) as [->|]; [done |].
      apply Hj; lia.
  - intros [= <-]. split; [done |]. by left.
Qed.

Lemma unique_name_total (seen : gset string) (original : string) :
  ∃ r, unique_name seen original = Some r ∧ name_rule seen original r.
Proof.
  unfold unique_name.
  destruct (dedup_loop_total (S (size seen)) seen original original 2)
    as [r Hr]; [by left | lia |].
  exists r. split; [done |]. by apply dedup_loop_result in Hr.
Qed.

Lemma name_rule_not_keyword (taken : gset string) (base n : string) :
  iskeyword base = false → name_rule taken base n → iskeyword n = false.
Proof.
  intros Hb [_ [[_ ->]|(_ & k & _ & -> & _)]]; [done |].
  apply suffixed_not_keyword.
Qed.

End NameFacts.

(** ** The loop over the operations of one tag *)

Section ModuleFacts.
Import PyStr Sdk Notions.

(** The loop names every operation, whatever was seen before: one name
    per operation, all different, each by [name_rule] on the names seen
    and those given so far. *)
Lemma method_names_spec (ops : list CollectedOp) (seen : gset string) :
  ∃ names,
    method_names seen ops = Some names
    ∧ length names = length ops
    ∧ NoDup names
    ∧ (∀ n, n ∈ names → n ∉ seen)
    ∧ ∀ i op n,
        ops !! i = Some op → names !! i = Some n →
        name_rule (seen ∪ list_to_set (take i names)) (base_name op) n.
Proof.
  revert seen. induction ops as [|op ops IH]; intros seen.
  - exists []. split; [done |]. split; [done |]. split; [constructor |].
    split; [by intros n ?%elem_of_nil | done].
  - simpl.
    destruct (unique_name_total seen
                (_path_to_method_name (c_method op) (c_path op)))
      as (r & -> & Hrule).
    destruct (IH ({[r]} ∪ seen)) as (names & -> & Hlen & Hnd & Hfresh & Hi).
    exists (r :: names). split; [done |]. split; [simpl; lia |].
    split; [| split].
    + constructor; [| done]. intros Hin. apply Hfresh in Hin. set_solver.
    + intros n [->|Hin]%elem_of_cons; [apply Hrule |].
      apply Hfresh in Hin. set_solver.
    + intros [|i] op' n; simpl.
      * intros [= <-] [= <-]. by rewrite (right_id_L ∅ (∪)).
      * intros Hop Hn. specialize (Hi _ _ _ Hop Hn).
        by rewrite (assoc_L (∪)), (comm_L (∪) seen).
Qed.

(** The text of the module is the header followed, operation by
    operation, by the lines of the method under its settled name. *)
Lemma generate_loop_lines (ops : list CollectedOp) (seen : gset string)
    (module_lines : list string) :
  generate_loop seen module_lines ops
  = match method_names seen ops with
    | Some names =>
        Some (module_lines
              ++ concat (zip_with method_lines names ops))
    | None => None
    end.
Proof.
  revert seen module_lines. induction ops as [|op ops IH]; intros; simpl.
  - by rewrite app_nil_r.
  - destruct (unique_name _ _) as [r|]; [| done].
    rewrite IH. destruct (method_names _ ops); [| done].
    simpl. by rewrite <- app_assoc.
Qed.

Lemma binding_names_not_keyword (parameters : list Param) :
  Forall (fun n => iskeyword n = false) (binding_names parameters).
Proof.
  unfold binding_names. apply Forall_app. split; apply Forall_forall.
  - intros n (p & <- & _)%list_elem_of_In%in_map_iff.
    apply to_snake_not_keyword.
  - intros n (p & <- & _)%list_elem_of_In%in_map_iff. unfold keyword_name.
    destruct (in_tuple _ _); [done | apply to_snake_not_keyword].
Qed.

Lemma module_name_not_keyword (tag : string) :
  iskeyword (_sanitise_module_name tag) = false.
Proof.
  unfold _sanitise_module_name. destruct (in_tuple _ _).
  - apply underscored_not_keyword.
  - apply to_snake_not_keyword.
Qed.

End ModuleFacts.

Section SameBase.
Import PyStr Sdk Notions.

Lemma elem_of_taken_upto (b : string) (k : nat) (x : string) :
  x ∈ taken_upto b k ↔ x = b ∨ ∃ j, 2 ≤ j ∧ j < 2 + k ∧ x = suffixed b j.
Proof.
  unfold taken_upto.
  rewrite elem_of_list_to_set, elem_of_cons, list_elem_of_In, in_map_iff.
  split; (intros [->|H]; [by left | right]).
  - destruct H as (j & <- & Hj). apply in_seq in Hj. exists j.
    split; [lia |]. split; [lia | done].
  - destruct H as (j & H1 & H2 & ->). exists j. split; [done |].
    apply in_seq. lia.
Qed.

Lemma suffixed_taken_upto (b : string) (k j : nat) :
  suffixed b j ∈ taken_upto b k ↔ 2 ≤ j ∧ j < 2 + k.
Proof.
  rewrite elem_of_taken_upto. split.
  - intros [H|(j' & H1 & H2 & H)].
    + by apply suffixed_not_original in H.
    + apply suffixed_inj in H. lia.
  - intros [H1 H2]. right. by exists j.
Qed.

Lemma taken_upto_S (b : string) (k : nat) :
  {[suffixed b (2 + k)]} ∪ taken_upto b k = taken_upto b (S k).
Proof.
  apply set_eq. intros x.
  rewrite elem_of_union, elem_of_singleton, !elem_of_taken_upto.
  split.
  - intros [->|[->|(j & H1 & H2 & ->)]].
    + right. exists (2 + k). split; [lia |]. split; [lia | done].
    + by left.
    + right. exists j. split; [lia |]. split; [lia | done].
  - intros [->|(j & H1 & H2 & ->)]; [right; by left |].
    destruct (decide (j = 2 + k)) as [->|]; [by left |].
    right. right. exists j. split; [lia |]. split; [lia | done].
Qed.

(** With [b] and its first suffixes taken, the loop gives the next one *)
Lemma unique_name_next (b : string) (k : nat) :
  unique_name (taken_upto b k) b = Some (suffixed b (2 + k)).
Proof.
  destruct (unique_name_total (taken_upto b k) b) as (r & -> & Hr & Hc).
  f_equal. destruct Hc as [[Hb _]|(_ & j & Hj & -> & Hbelow)].
  - exfalso. apply Hb. apply elem_of_taken_upto. by left.
  - rewrite suffixed_taken_upto in Hr.
    destruct (decide (j = 2 + k)) as [->|Hne]; [done |].
    assert (2 + k < j) as Hlt by lia.
    specialize (Hbelow (2 + k) ltac:(lia) Hlt).
    apply suffixed_taken_upto in Hbelow. lia.
Qed.

Lemma method_names_suffixes (b : string) (ops : list CollectedOp)
    (k : nat) :
  Forall (fun op => base_name op = b) ops →
  method_names (taken_upto b k) ops
  = Some (map (suffixed b) (seq (2 + k) (length ops))).
Proof.
  intros H. revert k.
  induction H as [|op ops Hop _ IH]; intros k; [done |].
  simpl. unfold base_name in Hop. rewrite Hop, unique_name_next.
  rewrite taken_upto_S, IH. done.
Qed.

(** Operations that all derive the name [b] are called [b], [b_2],
    [b_3], ... in their order *)
Lemma method_names_same_base (b : string) (op : CollectedOp)
    (ops : list CollectedOp) :
  Forall (fun op => base_name op = b) (op :: ops) →
  method_names ∅ (op :: ops)
  = Some (b :: map (suffixed b) (seq 2 (length ops))).
Proof.
  intros H. apply Forall_cons in H as [Hop H].
  simpl. unfold base_name in Hop. rewrite Hop.
  assert (unique_name ∅ b = Some b) as ->.
  { destruct (unique_name_total ∅ b) as (r & -> & _ & Hc).
    f_equal. destruct Hc as [[_ ->]|[Hb _]]; [done |].
    by apply not_elem_of_empty in Hb. }
  assert ({[b]} ∪ ∅ = taken_upto b 0) as ->.
  { unfold taken_upto. simpl. by rewrite (comm_L (∪)). }
  by rewrite (method_names_suffixes b ops 0 H).
Qed.

End SameBase.

(** ** Dictionaries *)

Section DictFacts.
Context {V : Type}.
Implicit Types (d : dict V) (k : string) (v : V).

Lemma dict_get_set_eq k v d : dict_get k (dict_set k v d) = Some v.
Proof.
  induction d as [|[k' v'] d IH]; simpl.
  - by rewrite String.eqb_refl.
  - destruct (String.eqb k k') eqn:E; simpl.
    + by rewrite String.eqb_refl.
    + by rewrite E.
Qed.

Lemma dict_get_set_ne k k' v d :
  k ≠ k' → dict_get k' (dict_set k v d) = dict_get k' d.
Proof.
  intros Hne. induction d as [|[k0 v0] d IH]; simpl.
  - apply String.eqb_neq in Hne. by rewrite String.eqb_sym, Hne.
  - destruct (String.eqb k k0) eqn:E; simpl.
    + apply String.eqb_eq in E as <-.
      apply String.eqb_neq in Hne. by rewrite String.eqb_sym, Hne.
    + by rewrite IH.
Qed.

Lemma dict_has_keys k d : dict_has k d = true ↔ k ∈ dict_keys d.
Proof.
  unfold dict_has, dict_keys. induction d as [|[k' v'] d IH]; simpl.
  - split; [done | by intros ?%elem_of_nil].
  - rewrite elem_of_cons. destruct (String.eqb k k') eqn:E.
    + apply String.eqb_eq in E. by split; [left |].
    + apply String.eqb_neq in E. rewrite IH.
      split; [by right | by intros [?|?]].
Qed.

Lemma dict_has_false_keys k d : dict_has k d = false ↔ k ∉ dict_keys d.
Proof.
  rewrite <- dict_has_keys. by destruct (dict_has k d).
Qed.

Lemma dict_get_elem_of k v d : dict_get k d = Some v → (k, v) ∈ d.
Proof.
  induction d as [|[k' v'] d IH]; simpl; [done |].
  destruct (String.eqb k k') eqn:E.
  - apply String.eqb_eq in E as <-. intros [= <-]. by left.
  - intros H. right. by apply IH.
Qed.

(** Assignment overwrites in place or appends: the keys keep their order *)
Lemma dict_keys_set k v d :
  dict_keys (dict_set k v d)
  = if dict_has k d then dict_keys d else dict_keys d ++ [k].
Proof.
  unfold dict_has, dict_keys. induction d as [|[k' v'] d IH]; simpl; [done |].
  destruct (String.eqb k k') eqn:E; simpl.
  - apply String.eqb_eq in E as <-. done.
  - rewrite IH. by destruct (dict_get k d).
Qed.

Lemma dict_set_Forall (P : string * V → Prop) k v d :
  P (k, v) → Forall P d → Forall P (dict_set k v d).
Proof.
  intros Hk. induction 1 as [|[k' v'] d Hx Hd IH]; simpl.
  - by repeat constructor.
  - destruct (String.eqb k k'); constructor; done.
Qed.

Lemma dict_has_set k k' v d :
  dict_has k' (dict_set k v d) = String.eqb k k' || dict_has k' d.
Proof.
  unfold dict_has. destruct (String.eqb k k') eqn:E.
  - apply String.eqb_eq in E as <-. by rewrite dict_get_set_eq.
  - apply String.eqb_neq in E. by rewrite dict_get_set_ne.
Qed.

End DictFacts.

(** * The claims *)

Import PyStr Sdk Openapi Notions.

(** C10.  [_to_snake] never returns a reserved word of Python: when the
    converted text is a keyword an underscore is put after it.  Hence no
    method name the module loop settles on (suffixed or not), no name bound
    in a signature for a row of the parameter table, no module name and no
    client attribute (which is [_to_snake] of the tag) is a keyword. *)
Theorem to_snake_never_keyword :
  (∀ name : string,
      iskeyword (_to_snake name) = false
      ∧ _to_snake name
        = if iskeyword (snake_body name) then snake_body name +:+ "_"
          else snake_body name)
  ∧ (∀ operations : list CollectedOp,
        ∃ names, method_names ∅ operations = Some names
                 ∧ Forall (fun n => iskeyword n = false) names)
  ∧ (∀ parameters : list Param,
        Forall (fun n => iskeyword n = false) (binding_names parameters))
  ∧ (∀ tag : string, iskeyword (_sanitise_module_name tag) = false).
Proof.
  split; [| split; [| split]].
  - intros name. split; [apply to_snake_not_keyword | done].
  - intros ops.
    destruct (method_names_spec ops ∅) as (names & E & _ & _ & _ & Hrule).
    exists names. split; [done |]. apply Forall_forall. intros n Hn.
    apply list_elem_of_lookup in Hn as [i Hi].
    destruct (lookup_lt_is_Some_2 ops i) as [op Hop].
    { apply lookup_lt_Some in Hi.
      destruct (method_names_spec ops ∅) as (names' & E' & Hlen & _).
      rewrite E in E'. injection E' as <-. lia. }
    eapply name_rule_not_keyword; [| by apply (Hrule i op n)].
    apply to_snake_not_keyword.
  - apply binding_names_not_keyword.
  - apply module_name_not_keyword.
Qed.

(** C7.  Within one generated module the loop gives every operation a
    method name, one per operation, and no two of them are equal.  An
    operation keeps the name derived from its method and path when no
    earlier method has it; otherwise it gets that name followed by [_k],
    [k] the least number from 2 upwards whose suffixed name no earlier
    method has.  So operations deriving one and the same name [b] are
    called [b], [b_2], [b_3], ... in the order they are processed. *)
Theorem method_names_deduplicated (operations : list CollectedOp) :
  ∃ names,
    method_names ∅ operations = Some names
    ∧ length names = length operations
    ∧ NoDup names
    ∧ (∀ i op n,
         operations !! i = Some op → names !! i = Some n →
         name_rule (list_to_set (take i names)) (base_name op) n)
    ∧ (∀ b,
         Forall (fun op => base_name op = b) operations →
         names = take (length operations)
                   (b :: map (suffixed b) (seq 2 (length operations)))).
Proof.
  destruct (method_names_spec operations ∅)
    as (names & E & Hlen & Hnd & _ & Hrule).
  exists names. split; [done |]. split; [done |]. split; [done |]. split.
  - intros i op n Hop Hn. specialize (Hrule i op n Hop Hn).
    by rewrite (left_id_L ∅ (∪)) in Hrule.
  - intros b Hb. destruct operations as [|op ops].
    + by destruct names.
    + rewrite (method_names_same_base b op ops Hb) in E.
      injection E as <-.
      change (length (op :: ops)) with (S (length ops)).
      rewrite seq_S, map_app, firstn_cons. f_equal.
      rewrite take_app_length'; [done |].
      by rewrite length_map, length_seq.
Qed.

(** ** Parameters: from the table to the signature *)

Section ParameterFacts.

Lemma param_of_row_spec (row : list string) :
  param_of_row row
  = if qualifying_row row then
      Some {| p_name := strip (cell 0 row);
              p_in := lower (strip (cell 1 row));
              p_description := strip (cell 5 row);
              p_required :=
                String.eqb (lower (strip (cell 2 row))) "required"
                || String.eqb (lower (strip (cell 1 row))) "path";
              p_schema_type := _map_type (strip (cell 3 row)) |}
    else None.
Proof.
  unfold qualifying_row, cell.
  destruct row as [|c0 [|c1 [|c2 [|c3 [|c4 [|c5 row]]]]]]; try done.
  simpl. by destruct (String.eqb _ "query" || _).
Qed.

Lemma parameters_of_names (rws : list (list string)) :
  map p_name (parameters_of rws)
  = map (fun row => strip (cell 0 row))
      (filter (fun row => qualifying_row row = true) rws).
Proof.
  unfold parameters_of. induction rws as [|row rws IH]; [done |].
  rewrite filter_cons. simpl. rewrite param_of_row_spec.
  destruct (qualifying_row row); simpl; [f_equal |]; exact IH.
Qed.

Lemma filter_split {A} (f : A → bool) (l : list A) :
  filter (fun x => f x = true) l ++ filter (fun x => f x = false) l ≡ₚ l.
Proof.
  induction l as [|x l IH]; [done |].
  rewrite !filter_cons. destruct (f x) eqn:E; simpl.
  - by apply perm_skip.
  - rewrite <- Permutation_middle. by apply perm_skip.
Qed.

(** The positional names are those of the path rows, in table order *)
Lemma path_params_of_rows (rws : list (list string)) :
  map (fun p => _to_snake (p_name p)) (path_params (parameters_of rws))
  = map row_binding
      (filter (fun row => path_row row = true)
         (filter (fun row => qualifying_row row = true) rws)).
Proof.
  unfold parameters_of, path_params.
  induction rws as [|row rws IH]; [done |].
  rewrite (filter_cons (fun row => qualifying_row row = true)).
  simpl. rewrite param_of_row_spec.
  destruct (qualifying_row row) eqn:Q; simpl; [| exact IH].
  rewrite !filter_cons. simpl. unfold path_row.
  destruct (String.eqb (lower (strip (cell 1 row))) "path") eqn:P; simpl;
    [| exact IH].
  f_equal; [| exact IH]. unfold row_binding. by rewrite P.
Qed.

(** The keyword names are those of the query and header rows, in table
    order *)
Lemma optional_params_of_rows (rws : list (list string)) :
  map keyword_name (optional_params (parameters_of rws))
  = map row_binding
      (filter (fun row => path_row row = false)
         (filter (fun row => qualifying_row row = true) rws)).
Proof.
  unfold parameters_of, optional_params.
  induction rws as [|row rws IH]; [done |].
  rewrite (filter_cons (fun row => qualifying_row row = true)).
  simpl. rewrite param_of_row_spec.
  destruct (qualifying_row row) eqn:Q; simpl; [| exact IH].
  apply andb_true_iff in Q as [_ Q].
  rewrite !filter_cons. simpl. unfold path_row.
  unfold in_tuple in Q. cbn [existsb] in Q.
  destruct (String.eqb (lower (strip (cell 1 row))) "path") eqn:P; simpl.
  - apply String.eqb_eq in P. rewrite P. simpl. exact IH.
  - assert (row_binding row
            = keyword_name
                {| p_name := strip (cell 0 row);
                   p_in := lower (strip (cell 1 row));
                   p_description := strip (cell 5 row);
                   p_required :=
                     String.eqb (lower (strip (cell 2 row))) "required"
                     || false;
                   p_schema_type := _map_type (strip (cell 3 row)) |}) as B.
    { unfold row_binding, keyword_name. by rewrite P. }
    destruct (String.eqb (lower (strip (cell 1 row))) "query");
      destruct (String.eqb (lower (strip (cell 1 row))) "header");
      try done; simpl; rewrite B; f_equal; exact IH.
Qed.

Lemma binding_names_of_rows (rws : list (list string)) :
  binding_names (parameters_of rws)
  = map row_binding
      (filter (fun row => path_row row = true)
         (filter (fun row => qualifying_row row = true) rws))
    ++ map row_binding
         (filter (fun row => path_row row = false)
            (filter (fun row => qualifying_row row = true) rws)).
Proof.
  unfold binding_names.
  by rewrite path_params_of_rows, optional_params_of_rows.
Qed.

(** The collector hands the generator the parameters and the body of the
    page as the parser left them *)
Lemma collected_of_parameters (data : EndpointData) :
  c_parameters (collected_of data) = d_parameters data
  ∧ c_request_body (collected_of data) = d_request_body data.
Proof.
  unfold collected_of, collected, operation_of. simpl.
  by destruct (d_parameters data).
Qed.

(** The first line of a method is its [def] line *)
Lemma method_lines_head (func_name : string) (op : CollectedOp) :
  head (method_lines func_name op)
  = Some ("    def " +:+ func_name +:+ "("
          +:+ join ", " (sig_parts (c_parameters op)
                         ++ kw_args (c_parameters op) (c_request_body op))
          +:+ ") -> Any:").
Proof. reflexivity. Qed.

End ParameterFacts.

(** C1, as the code has it.  The parser keeps one parameter per
    qualifying row of the parameter table, in the order of the table and
    under the name in the row's first cell, stripped; it neither converts
    nor renames.  The generator gets these parameters unchanged, and the
    [def] line of the method it writes binds, after [self], the
    [_to_snake] names of the path rows in table order, then [body] when
    the page has a request body, then the [_to_snake] names of the query
    and header rows in table order (with [range] taken to
    [range_header]), each as an optional keyword, then [**kwargs].  No
    suffix is added on a collision, so the names bound for the table are
    pairwise different exactly when the converted names of the qualifying
    rows are. *)
Theorem parameter_bindings_follow_rows (file : HtmlFile)
    (data : EndpointData) :
  _parse_html_file file = Some data →
  let qualifying :=
    filter (fun row => qualifying_row row = true)
      (params_rows (row_sets file)) in
  let positional :=
    map row_binding (filter (fun row => path_row row = true) qualifying) in
  let keyword :=
    map row_binding (filter (fun row => path_row row = false) qualifying) in
  let body :=
    if present (d_request_body data) then ["body: Optional[Any] = None"]
    else [] in
  let op := collected_of data in
  map p_name (d_parameters data)
  = map (fun row => strip (cell 0 row)) qualifying
  ∧ c_parameters op = d_parameters data
  ∧ sig_parts (c_parameters op) = "self" :: positional
  ∧ kw_args (c_parameters op) (c_request_body op)
    = body ++ map optional_any keyword ++ ["**kwargs: Any"]
  ∧ (∀ func_name,
       head (method_lines func_name op)
       = Some ("    def " +:+ func_name +:+ "("
               +:+ join ", " (("self" :: positional) ++ body
                              ++ map optional_any keyword
                              ++ ["**kwargs: Any"])
               +:+ ") -> Any:"))
  ∧ binding_names (c_parameters op) = positional ++ keyword
  ∧ (NoDup (positional ++ keyword) ↔ NoDup (map row_binding qualifying)).
Proof.
  intros H qualifying positional keyword body op.
  destruct (collected_of_parameters data) as [Ep Eb]. fold op in Ep, Eb.
  assert (d_parameters data = parameters_of (params_rows (row_sets file)))
    as E.
  { revert H. unfold _parse_html_file.
    destruct (title_m file) as [[g1 g2]|]; [| done]. by intros [= <-]. }
  assert (sig_parts (c_parameters op) = "self" :: positional) as Es.
  { rewrite Ep, E. unfold sig_parts, positional, qualifying.
    by rewrite <- path_params_of_rows. }
  assert (kw_args (c_parameters op) (c_request_body op)
          = body ++ map optional_any keyword ++ ["**kwargs: Any"]) as Ek.
  { rewrite Ep, Eb, E. unfold kw_args, keyword, qualifying. fold body.
    by rewrite <- optional_params_of_rows, map_map. }
  split; [rewrite E; apply parameters_of_names |].
  split; [done |]. split; [done |]. split; [done |].
  split; [intros func_name; by rewrite method_lines_head, Es, Ek |].
  split; [rewrite Ep, E; apply binding_names_of_rows |].
  unfold positional, keyword.
  by rewrite <- map_app, filter_split.
Qed.

Lemma parameter_bindings_follow_rows_witness :
  ∃ data, _parse_html_file twice_id_file = Some data
          ∧ map p_name (d_parameters data) = ["id"; "id"]
          ∧ head (method_lines "get_things_id" (collected_of data))
            = Some "    def get_things_id(self, id, id: Optional[Any] = None, **kwargs: Any) -> Any:".
Proof.
  eexists. split; [reflexivity |].
  destruct (parameter_bindings_follow_rows twice_id_file _ eq_refl)
    as (Hn & _ & _ & _ & Hd & _).
  split; [etrans; [exact Hn | reflexivity] |].
  etrans; [exact (Hd "get_things_id") | reflexivity].
Defined.

(** C1, as the specification words it, fails: a table that names a
    parameter twice gives an operation with two parameters of that name,
    and a method whose [def] line binds the name twice. *)
Lemma parameter_names_can_collide :
  ∃ data, _parse_html_file twice_id_file = Some data
          ∧ map p_name (d_parameters data) = ["id"; "id"]
          ∧ map (fun p => _to_snake (p_name p)) (d_parameters data)
            = ["id"; "id"]
          ∧ sig_parts (c_parameters (collected_of data)) = ["self"; "id"]
          ∧ kw_args (c_parameters (collected_of data))
              (c_request_body (collected_of data))
            = ["id: Optional[Any] = None"; "**kwargs: Any"]
          ∧ head (method_lines
                    (_path_to_method_name "get" "/things/{id}")
                    (collected_of data))
            = Some "    def get_things_id(self, id, id: Optional[Any] = None, **kwargs: Any) -> Any:"
          ∧ binding_names (c_parameters (collected_of data)) = ["id"; "id"]
          ∧ ¬ NoDup (binding_names (c_parameters (collected_of data))).
Proof.
  eexists. split; [reflexivity |].
  do 6 (split; [reflexivity |]).
  intros H. apply NoDup_cons in H as [H _]. apply H. by left.
Qed.

(** ** The endpoint parser *)

Section ParserFacts.

Lemma parse_html_file_Some (file : HtmlFile) (data : EndpointData) :
  _parse_html_file file = Some data →
  ∃ g1 g2,
    title_m file = Some (g1, g2)
    ∧ d_method data = upper g1
    ∧ d_parameters data = parameters_of (params_rows (row_sets file))
    ∧ d_request_body data = request_body_of (body_rows (row_sets file))
    ∧ d_responses data
      = attach_schema (upper g1) (response_schema file)
          (responses_of (response_rows (row_sets file))).
Proof.
  unfold _parse_html_file. destruct (title_m file) as [[g1 g2]|]; [| done].
  intros [= <-]. by exists g1, g2.
Qed.

Lemma elem_of_parameters_of (rws : list (list string)) (p : Param) :
  p ∈ parameters_of rws → ∃ row, row ∈ rws ∧ param_of_row row = Some p.
Proof. unfold parameters_of. by rewrite list_elem_of_omap. Qed.

(** The test of line 220 is the test of its second half *)
Lemma says_required_prefix (b_desc : string) :
  says_required b_desc = startswith (strip (lower b_desc)) "required".
Proof.
  unfold says_required. rewrite strip_lower.
  destruct (startswith (lower (strip b_desc)) "required") eqn:E;
    [| apply andb_false_r].
  rewrite andb_true_r.
  apply prefix_split in E as [r E].
  destruct (strip_by_split is_space b_desc) as (a & b & Hab).
  rewrite Hab at 1. rewrite !lower_append.
  fold (strip b_desc). rewrite E, append_assoc.
  apply contains_middle.
Qed.

Lemma body_step_required (rws : list (list string))
    (st : dict BodyProp * list string) :
  (fold_left body_step rws st).2
  = st.2 ++ map (fun row => strip (cell 0 row))
              (filter (fun row => body_field_row row && starts_required row
                                  = true) rws).
Proof.
  revert st. induction rws as [|row rws IH]; intros st; simpl.
  - by rewrite app_nil_r.
  - rewrite IH, filter_cons. clear IH.
    unfold body_field_row, starts_required, cell.
    destruct row as [|c0 [|c1 [|c2 [|c3 row]]]]; try done.
    simpl. destruct (nonempty (strip c0)); simpl; [| done].
    rewrite says_required_prefix.
    destruct (startswith _ _); simpl; [| done].
    by rewrite <- app_assoc.
Qed.

(** Every response the table gives is without content *)
Lemma responses_of_no_content (rws : list (list string)) :
  Forall (fun cr => r_content cr.2 = None) (responses_of rws).
Proof.
  unfold responses_of.
  assert (∀ acc, Forall (fun cr : string * Response => r_content cr.2 = None) acc →
                 Forall (fun cr => r_content cr.2 = None)
                   (fold_left response_step rws acc)) as H.
  { induction rws as [|row rws IH]; intros acc Hacc; [done |].
    simpl. apply IH. unfold response_step.
    destruct row as [|c rest]; [done |].
    destruct (negb _); [done |]. by apply dict_set_Forall. }
  specialize (H [] (Forall_nil_2 _)).
  destruct (fold_left response_step rws []); [| done].
  by repeat constructor.
Qed.

Lemma responses_of_non_numeric (rws : list (list string)) :
  Forall non_numeric_row rws →
  responses_of rws
  = [("200", {| r_description := "Success"; r_content := None |})].
Proof.
  intros H. unfold responses_of.
  assert (fold_left response_step rws [] = []) as ->; [| done].
  induction H as [|row rws Hrow _ IH]; [done |].
  simpl. unfold response_step at 2.
  destruct row as [|c rest]; [done |].
  unfold non_numeric_row, cell in Hrow. simpl in Hrow. by rewrite Hrow.
Qed.

Lemma dict_has_attach_schema (method code : string) (schema : json)
    (responses : dict Response) :
  dict_has code (attach_schema method schema responses)
  = dict_has code responses.
Proof.
  unfold attach_schema.
  destruct (dict_get (ok_code method responses) responses) as [resp|] eqn:E;
    [| done].
  rewrite dict_has_set.
  destruct (String.eqb _ code) eqn:E'; [| done].
  apply String.eqb_eq in E' as <-. unfold dict_has. by rewrite E.
Qed.

End ParserFacts.

(** C8.  Every parameter of a parsed page comes from a row of the
    parameter table.  When its location is [path] it is required,
    whatever the optionality cell of the row says; otherwise it is
    required exactly when that cell, stripped and lower-cased, is the
    word [required]. *)
Theorem path_parameters_are_required (file : HtmlFile)
    (data : EndpointData) (p : Param) :
  _parse_html_file file = Some data →
  p ∈ d_parameters data →
  ∃ row,
    row ∈ params_rows (row_sets file)
    ∧ param_of_row row = Some p
    ∧ (p_in p = "path" → p_required p = true)
    ∧ (p_in p ≠ "path" →
       p_required p = String.eqb (lower (strip (cell 2 row))) "required").
Proof.
  intros (g1 & g2 & _ & _ & -> & _)%parse_html_file_Some Hp.
  apply elem_of_parameters_of in Hp as (row & Hrow & Hp).
  exists row. split; [done |]. split; [done |].
  rewrite param_of_row_spec in Hp.
  destruct (qualifying_row row); [| done]. injection Hp as <-. simpl.
  split.
  - intros ->. apply orb_true_r.
  - intros Hne. apply String.eqb_neq in Hne. rewrite Hne. apply orb_false_r.
Qed.

Lemma path_parameters_are_required_witness :
  ∃ row,
    row ∈ params_rows (row_sets twice_id_file)
    ∧ cell 2 row = "Optional"
    ∧ ∃ p, param_of_row row = Some p ∧ p_required p = true.
Proof.
  destruct (path_parameters_are_required twice_id_file
              {| d_method := "GET"; d_api_path := "/things/{id}";
                 d_summary := "Gets a thing.";
                 d_description := "Gets a thing.";
                 d_parameters := parameters_of (params_rows (row_sets twice_id_file));
                 d_request_body := None;
                 d_responses :=
                   attach_schema "GET" (response_schema twice_id_file)
                     (responses_of (response_rows (row_sets twice_id_file))) |}
              {| p_name := "id"; p_in := "path"; p_description := "The thing.";
                 p_required := true; p_schema_type := "integer" |}
              eq_refl ltac:(by left))
    as (row & Hrow & Hp & Hpath & _).
  exists row. split; [done |]. split.
  - vm_compute in Hrow.
    apply elem_of_cons in Hrow as [->|Hrow]; [done |].
    apply elem_of_cons in Hrow as [->|Hrow]; [by vm_compute in Hp |].
    by apply elem_of_nil in Hrow.
  - eexists. split; [exact Hp |]. reflexivity.
Defined.

(** C3.  The [required] list of the body schema holds, in table order,
    the names of exactly those rows of the body table (with at least four
    cells and a name that is not blank) whose description cell,
    lower-cased and stripped, starts with the word [required]; the key is
    absent when there is no such row.  A description that has the word
    further on does not count. *)
Theorem required_fields_start_with_required (file : HtmlFile)
    (data : EndpointData) (request_body : RequestBody) :
  _parse_html_file file = Some data →
  d_request_body data = Some request_body →
  default [] (bs_required (rb_schema request_body))
  = map (fun row => strip (cell 0 row))
      (filter (fun row => body_field_row row && starts_required row = true)
         (body_rows (row_sets file))).
Proof.
  intros (g1 & g2 & _ & _ & _ & -> & _)%parse_html_file_Some.
  unfold request_body_of.
  destruct (body_rows (row_sets file)) as [|row rws] eqn:E; [done |].
  pose proof (body_step_required (row :: rws) ([], [])) as H.
  destruct (fold_left body_step (row :: rws) ([], []))
    as [properties required_fields].
  simpl in H. intros [= <-]. simpl. rewrite <- H.
  by destruct required_fields.
Qed.

Lemma required_fields_start_with_required_witness :
  ∃ data request_body,
    _parse_html_file post_file = Some data
    ∧ d_request_body data = Some request_body
    ∧ default [] (bs_required (rb_schema request_body)) = ["name"].
Proof.
  eexists _, _. split; [reflexivity |]. split; [reflexivity |].
  etrans;
    [exact (required_fields_start_with_required post_file _ _
              eq_refl eq_refl) |].
  reflexivity.
Defined.

(** C2, as the code has it.  When no row of the response table (the
    header row apart) has a numeric first cell, the response map of the
    parsed page has the one key [200], with the description [Success] and
    with the schema attached to it as content: the schema inferred from
    the sample, or the bare object when there is none. *)
Theorem default_response_carries_schema (file : HtmlFile)
    (data : EndpointData) :
  _parse_html_file file = Some data →
  Forall non_numeric_row (response_rows (row_sets file)) →
  d_responses data
  = [("200",
      {| r_description := "Success";
         r_content := Some [("application/json", response_schema file)] |})].
Proof.
  intros (g1 & g2 & _ & _ & _ & _ & ->)%parse_html_file_Some H.
  rewrite (responses_of_non_numeric _ H).
  unfold attach_schema, ok_code. simpl. by rewrite andb_false_r.
Qed.

Lemma default_response_carries_schema_witness :
  ∃ data,
    _parse_html_file no_code_file = Some data
    ∧ d_responses data
      = [("200",
          {| r_description := "Success";
             r_content :=
               Some [("application/json", type_schema "object")] |})].
Proof.
  eexists. split; [reflexivity |].
  apply (default_response_carries_schema no_code_file); [reflexivity |].
  repeat constructor.
Defined.

(** C2, as the specification words it, fails: the response map of such a
    page is not the bare synthesized map, its [200] entry has content. *)
Lemma default_response_is_not_bare :
  ∃ data,
    _parse_html_file no_code_file = Some data
    ∧ Forall non_numeric_row (response_rows (row_sets no_code_file))
    ∧ d_responses data
      ≠ [("200", {| r_description := "Success"; r_content := None |})].
Proof.
  eexists. split; [reflexivity |]. split; [by repeat constructor |].
  vm_compute. discriminate.
Qed.

(** C5.  On a page whose method is POST and whose response map has both
    [200] and [201], the schema (inferred from the sample, or the bare
    object) is the content of the [201] response, and the [200] response
    has no content. *)
Theorem post_schema_goes_to_201 (file : HtmlFile) (data : EndpointData) :
  _parse_html_file file = Some data →
  d_method data = "POST" →
  dict_has "200" (d_responses data) = true →
  dict_has "201" (d_responses data) = true →
  (∃ created,
      dict_get "201" (d_responses data) = Some created
      ∧ r_content created
        = Some [("application/json", response_schema file)])
  ∧ (∃ ok, dict_get "200" (d_responses data) = Some ok
           ∧ r_content ok = None).
Proof.
  intros (g1 & g2 & _ & -> & _ & _ & ->)%parse_html_file_Some Hpost.
  rewrite Hpost, !dict_has_attach_schema.
  set (responses := responses_of (response_rows (row_sets file))).
  intros H200 H201. unfold attach_schema, ok_code.
  rewrite H201. simpl.
  unfold dict_has in H200, H201.
  destruct (dict_get "201" responses) as [created|] eqn:E201; [| done].
  destruct (dict_get "200" responses) as [ok|] eqn:E200; [| done].
  split.
  - eexists. by rewrite dict_get_set_eq.
  - exists ok. rewrite dict_get_set_ne by done. split; [done |].
    pose proof (responses_of_no_content (response_rows (row_sets file)))
      as Hnone.
    rewrite Forall_forall in Hnone.
    by apply (Hnone ("200", ok)), dict_get_elem_of.
Qed.

Lemma post_schema_goes_to_201_witness :
  ∃ data,
    _parse_html_file post_file = Some data
    ∧ (∃ created,
          dict_get "201" (d_responses data) = Some created
          ∧ r_content created
            = Some [("application/json", _json_to_schema thing_sample)])
    ∧ (∃ ok, dict_get "200" (d_responses data) = Some ok
             ∧ r_content ok = None).
Proof.
  eexists. split; [reflexivity |].
  exact (post_schema_goes_to_201 post_file _ eq_refl eq_refl
           eq_refl eq_refl).
Defined.

(** ** The schema inferencer *)

(** Induction on a JSON value, with the property at hand for every
    element of a list and every value of a dictionary *)
Lemma json_nested_ind (P : json → Prop) :
  P JNull →
  (∀ b, P (JBool b)) →
  (∀ n, P (JInt n)) →
  (∀ f, P (JFloat f)) →
  (∀ s, P (JStr s)) →
  (∀ l, Forall P l → P (JList l)) →
  (∀ d, Forall (fun kv => P kv.2) d → P (JDict d)) →
  ∀ v, P v.
Proof.
  intros HNull HBool HInt HFloat HStr HList HDict.
  fix IH 1. intros [|b|n|f|s|l|d].
  - apply HNull.
  - apply HBool.
  - apply HInt.
  - apply HFloat.
  - apply HStr.
  - apply HList. induction l as [|v l IHl]; constructor;
      [apply IH | exact IHl].
  - apply HDict. induction d as [|[k v] d IHd]; constructor;
      [apply IH | exact IHd].
Qed.

(** C9.  [_json_to_schema] is the inferencer the specification
    describes: on every value of [json.loads] it returns the OpenAPI
    object of the schema that description gives.  On the sample
    [{"id": 1, "name": "x", "tags": ["a"]}] this is the object schema
    with an integer [id], a string [name] and an array of strings
    [tags]; on the empty list it is an array with the empty schema for
    its items. *)
Theorem json_to_schema_refines_inference :
  (∀ value : json, _json_to_schema value = schema_object (infer_schema value))
  ∧ infer_schema thing_sample
    = SObject [("id", SScalar TInteger); ("name", SScalar TString);
               ("tags", SArray (SScalar TString))]
  ∧ _json_to_schema thing_sample
    = JDict [("type", JStr "object");
             ("properties",
              JDict [("id", JDict [("type", JStr "integer")]);
                     ("name", JDict [("type", JStr "string")]);
                     ("tags", JDict [("type", JStr "array");
                                     ("items",
                                      JDict [("type", JStr "string")])])])]
  ∧ _json_to_schema (JList [])
    = JDict [("type", JStr "array"); ("items", JDict [])].
Proof.
  split; [| by repeat split].
  induction value as [|b|n|f|s|l Hl|d Hd] using json_nested_ind; try done.
  - destruct Hl as [|first l Hfirst _]; [done |].
    simpl. by rewrite Hfirst.
  - simpl. do 3 f_equal.
    induction Hd as [|[k v] d Hv _ IHd]; [done |].
    simpl in Hv. congruence.
Qed.

(** ** OpenAPI assembly *)

Section BuildFacts.

Lemma build_fold_parsed (html_files : list HtmlFile) (paths : dict PathItem) :
  fold_left build_step html_files paths
  = fold_left add_operation (omap _parse_html_file html_files) paths.
Proof.
  revert paths. induction html_files as [|file files IH]; intros paths;
    [done |].
  simpl. unfold build_step at 2.
  destruct (_parse_html_file file); simpl; apply IH.
Qed.

(** Adding a page sets its own entry and leaves every other one *)
Lemma lookup_add_operation (paths : dict PathItem) (data : EndpointData)
    (api_path method : string) :
  lookup_operation (add_operation paths data) api_path method
  = if same_operation api_path method data then Some (operation_of data)
    else lookup_operation paths api_path method.
Proof.
  unfold add_operation, lookup_operation, same_operation.
  set (path := d_api_path data). set (m := lower (d_method data)).
  set (paths' := if dict_has path paths then paths
                 else dict_set path empty_path_item paths).
  assert (∃ item, dict_get path paths' = Some item
                  ∧ dict_get method (pi_ops item)
                    = lookup_operation paths path method) as (item & E & Hitem).
  { unfold paths', lookup_operation, dict_has.
    destruct (dict_get path paths) as [item|] eqn:E.
    - by exists item.
    - exists empty_path_item. by rewrite dict_get_set_eq. }
  assert (∀ p, p ≠ path → dict_get p paths' = dict_get p paths) as Hother.
  { intros p Hp. unfold paths'. destruct (dict_has path paths); [done |].
    by apply dict_get_set_ne. }
  rewrite E.
  destruct (String.eqb path api_path) eqn:Ep; simpl.
  - apply String.eqb_eq in Ep as <-. rewrite dict_get_set_eq. simpl.
    destruct (String.eqb m method) eqn:Em.
    + apply String.eqb_eq in Em as <-. apply dict_get_set_eq.
    + apply String.eqb_neq in Em. rewrite dict_get_set_ne by done.
      by rewrite Hitem.
  - apply String.eqb_neq in Ep. rewrite dict_get_set_ne by done.
    by rewrite Hother.
Qed.

(** Adding a page leaves the paths in their order; a new path goes last *)
Lemma keys_add_operation (paths : dict PathItem) (data : EndpointData) :
  dict_keys (add_operation paths data)
  = if dict_has (d_api_path data) paths then dict_keys paths
    else dict_keys paths ++ [d_api_path data].
Proof.
  unfold add_operation.
  set (path := d_api_path data).
  destruct (dict_has path paths) eqn:H.
  - unfold dict_has in H.
    destruct (dict_get path paths) as [item|] eqn:E; [| done].
    rewrite dict_keys_set. unfold dict_has. by rewrite E.
  - rewrite dict_get_set_eq, dict_keys_set, dict_has_set.
    rewrite String.eqb_refl. simpl.
    by rewrite dict_keys_set, H.
Qed.

Lemma elem_of_first_occurrences (l : list string) (x : string) :
  x ∈ first_occurrences l ↔ x ∈ l.
Proof.
  induction l as [|y l IH]; simpl; [done |].
  rewrite !elem_of_cons, list_elem_of_filter, IH.
  destruct (decide (x = y)); [by split; left | tauto].
Qed.

Lemma first_occurrences_snoc (l : list string) (x : string) :
  first_occurrences (l ++ [x])
  = first_occurrences l ++ (if decide (x ∈ l) then [] else [x]).
Proof.
  induction l as [|y l IH]; simpl.
  - destruct (decide (x ∈ [])) as [H|_]; [by apply elem_of_nil in H | done].
  - rewrite IH, filter_app. f_equal. f_equal.
    destruct (decide (x = y)) as [->|Hne].
    + rewrite (decide_True (P := y ∈ y :: l)) by (by left).
      destruct (decide (y ∈ l)); [done |].
      by rewrite filter_cons_False by (by intros H; apply H).
    + destruct (decide (x ∈ l)) as [H|H].
      * by rewrite (decide_True (P := x ∈ y :: l)) by (by right).
      * rewrite (decide_False (P := x ∈ y :: l)).
        -- by rewrite filter_cons_True.
        -- by intros [?|?]%elem_of_cons.
Qed.

Lemma last_filter_snoc {A} (P : A → bool) (l : list A) (x : A) :
  last (filter (fun y => P y = true) (l ++ [x]))
  = if P x then Some x else last (filter (fun y => P y = true) l).
Proof.
  rewrite filter_app, filter_cons, filter_nil.
  destruct (P x).
  - rewrite (decide_True (P := true = true)) by done. apply last_snoc.
  - rewrite (decide_False (P := false = true)) by done.
    by rewrite app_nil_r.
Qed.

Lemma paths_of_parsed (parsed : list EndpointData) :
  (∀ api_path method,
      lookup_operation (fold_left add_operation parsed []) api_path method
      = operation_of
          <$> last (filter (fun d => same_operation api_path method d = true)
                      parsed))
  ∧ dict_keys (fold_left add_operation parsed [])
    = first_occurrences (map d_api_path parsed).
Proof.
  induction parsed as [|data parsed [IHl IHk]] using rev_ind; [done |].
  rewrite fold_left_app. cbn [fold_left]. split.
  - intros api_path method.
    rewrite lookup_add_operation, last_filter_snoc, IHl.
    by destruct (same_operation api_path method data).
  - rewrite keys_add_operation, map_app. cbn [map].
    rewrite first_occurrences_snoc, IHk.
    destruct (dict_has _ _) eqn:H.
    + apply dict_has_keys in H.
      rewrite IHk, elem_of_first_occurrences in H.
      by rewrite decide_True, app_nil_r.
    + apply dict_has_false_keys in H.
      rewrite IHk, elem_of_first_occurrences in H.
      by rewrite decide_False.
Qed.

End BuildFacts.

(** C6.  In the assembled document the operation stored under a path and
    method is the one of the last processed page that describes this
    path and method: a later page replaces an earlier one, and the
    assembly, a total function, raises nothing.  The keys of [paths] are
    the distinct paths of the parsed pages in the order in which they
    first occur. *)
Theorem later_page_wins_paths_keep_order (html_files : list HtmlFile) :
  let parsed := omap _parse_html_file html_files in
  let spec := build_openapi html_files in
  (∀ api_path method,
      lookup_operation (oa_paths spec) api_path method
      = operation_of
          <$> last (filter (fun d => same_operation api_path method d = true)
                      parsed))
  ∧ dict_keys (oa_paths spec) = first_occurrences (map d_api_path parsed).
Proof.
  simpl. rewrite build_fold_parsed. apply paths_of_parsed.
Qed.

Example later_page_wins_on_things :
  dict_keys (oa_paths (build_openapi things_pages))
  = ["/things"; "/things/{id}"]
  ∧ (op_summary <$> lookup_operation (oa_paths (build_openapi things_pages))
                      "/things" "get")
    = Some (Some "Lists things.").
Proof. split; reflexivity. Qed.

(** ** Operation collection *)

Section CollectFacts.

Lemma collect_path_group (entry : string * PathItem)
    (ops_by_tag : dict (list CollectedOp)) :
  collect_path ops_by_tag entry = group (entries_of_path entry) ops_by_tag.
Proof.
  unfold collect_path, entries_of_path, group.
  revert ops_by_tag.
  induction http_methods as [|m ms IH]; intros acc; [done |].
  simpl. rewrite IH. unfold collect_method, entry_of.
  destruct (dict_get m (pi_ops entry.2)) as [op|]; [| done].
  by destruct (operation_truthy op).
Qed.

Lemma group_app (es es' : list (string * CollectedOp))
    (acc : dict (list CollectedOp)) :
  group (es ++ es') acc = group es' (group es acc).
Proof. apply fold_left_app. Qed.

Lemma collect_operations_group (spec : OpenAPI) :
  _collect_operations spec = group (all_entries spec) [].
Proof.
  unfold _collect_operations, all_entries.
  generalize (@nil (string * list CollectedOp)) as acc.
  induction (oa_paths spec) as [|entry paths IH]; intros acc; [done |].
  simpl. by rewrite group_app, IH, collect_path_group.
Qed.

(** The list of a tag grows by the entries of that tag, in their order *)
Lemma group_lookup (tag : string) (es : list (string * CollectedOp))
    (acc : dict (list CollectedOp)) :
  default [] (dict_get tag (group es acc))
  = default [] (dict_get tag acc)
    ++ map snd (filter (fun e => e.1 = tag) es).
Proof.
  revert acc. induction es as [|[t c] es IH]; intros acc.
  - by rewrite app_nil_r.
  - unfold group in *. cbn [fold_left]. rewrite IH, filter_cons.
    unfold dict_append. cbn [fst snd].
    destruct (decide (t = tag)) as [->|Hne].
    + rewrite dict_get_set_eq. simpl. by rewrite <- app_assoc.
    + by rewrite dict_get_set_ne.
Qed.

Lemma filter_map_snd (tag : string) (P : CollectedOp → Prop)
    `{∀ c, Decision (P c)} (es : list (string * CollectedOp)) :
  filter P (map snd (filter (fun e => e.1 = tag) es))
  = map snd (filter (fun e => e.1 = tag ∧ P e.2) es).
Proof.
  induction es as [|[t c] es IH]; [done |].
  rewrite !filter_cons. cbn [fst snd].
  destruct (decide (t = tag)) as [->|Hne].
  - cbn [map]. rewrite filter_cons, IH. cbn [snd].
    destruct (decide (P c)).
    + by rewrite decide_True by (by split).
    + by rewrite decide_False by tauto.
  - rewrite IH. by rewrite decide_False by tauto.
Qed.

Lemma entry_of_Some (path method : string) (item : PathItem)
    (e : string * CollectedOp) :
  entry_of path item method = Some e →
  c_path e.2 = path ∧ c_method e.2 = method.
Proof.
  unfold entry_of. destruct (dict_get method (pi_ops item)) as [op|]; [| done].
  destruct (operation_truthy op); [| done]. by intros [= <-].
Qed.

(** No entry for a method that is not asked for, or for another path *)
Lemma entries_other_method (tag path path' method : string)
    (item : PathItem) (ms : list string) :
  path' ≠ path ∨ method ∉ ms →
  filter (fun e => e.1 = tag ∧ at_path_method path method e.2)
    (omap (entry_of path' item) ms) = [].
Proof.
  intros H. induction ms as [|m ms IH]; [done |].
  cbn [omap list_omap].
  assert (path' ≠ path ∨ method ∉ ms) as H'.
  { destruct H as [?|H]; [by left | right].
    intros ?. apply H. by right. }
  destruct (entry_of path' item m) as [e|] eqn:E; [| by apply IH].
  apply entry_of_Some in E as [E1 E2].
  rewrite filter_cons_False; [by apply IH |].
  unfold at_path_method. intros (_ & Hp & Hm).
  destruct H as [H|H]; [congruence |].
  apply H, elem_of_cons. left. congruence.
Qed.

Lemma entries_one_method (path method : string) (item : PathItem)
    (e : string * CollectedOp) (ms : list string) :
  NoDup ms → method ∈ ms →
  entry_of path item method = Some e →
  length (filter (fun e' => e'.1 = e.1 ∧ at_path_method path method e'.2)
            (omap (entry_of path item) ms)) = 1.
Proof.
  intros Hnd Hin He. induction Hnd as [|m ms Hm Hnd IH].
  - by apply elem_of_nil in Hin.
  - cbn [omap list_omap]. destruct (decide (m = method)) as [->|Hne].
    + rewrite He. rewrite filter_cons_True.
      * cbn [length]. f_equal.
        fold (omap (entry_of path item) ms).
        by rewrite entries_other_method by (by right).
      * split; [done |]. by apply entry_of_Some in He.
    + apply elem_of_cons in Hin as [->|Hin]; [done |].
      destruct (entry_of path item m) as [e'|] eqn:E; [| by apply IH].
      apply entry_of_Some in E as [_ E].
      rewrite filter_cons_False; [by apply IH |].
      unfold at_path_method. intros (_ & _ & ?). congruence.
Qed.

Lemma http_methods_NoDup : NoDup http_methods.
Proof. apply (bool_decide_unpack _). by vm_compute. Qed.

(** No entry at a path comes from the item of another path *)
Lemma entries_other_paths (tag path method : string)
    (paths : dict PathItem) :
  path ∉ dict_keys paths →
  filter (fun e => e.1 = tag ∧ at_path_method path method e.2)
    (flat_map entries_of_path paths) = [].
Proof.
  induction paths as [|[p item] paths IH]; intros Hp; [done |].
  cbn [flat_map]. rewrite filter_app. unfold entries_of_path at 1.
  cbn [fst snd]. rewrite entries_other_method.
  - apply IH. intros ?. apply Hp. by right.
  - left. intros ->. apply Hp. by left.
Qed.

(** A listed operation is collected once *)
Lemma entries_one_path (path method : string) (item : PathItem)
    (e : string * CollectedOp) (paths : dict PathItem) :
  dict_wf paths →
  dict_get path paths = Some item →
  method ∈ http_methods →
  entry_of path item method = Some e →
  length (filter (fun e' => e'.1 = e.1 ∧ at_path_method path method e'.2)
            (flat_map entries_of_path paths)) = 1.
Proof.
  unfold dict_wf, dict_keys. intros Hwf Hget Hm He.
  induction paths as [|[p item'] paths IH]; [done |].
  cbn [flat_map]. rewrite filter_app, length_app.
  unfold entries_of_path at 1. cbn [fst snd].
  cbn [map fst] in Hwf. apply NoDup_cons in Hwf as [Hp Hwf].
  simpl in Hget. destruct (String.eqb path p) eqn:E.
  - apply String.eqb_eq in E as <-. injection Hget as ->.
    rewrite (entries_one_method path method item e)
      by auto using http_methods_NoDup.
    by rewrite entries_other_paths.
  - apply String.eqb_neq in E.
    rewrite entries_other_method by (left; congruence).
    by apply IH.
Qed.

End CollectFacts.

(** C4, as the code has it.  An operation of the input document that
    sits under one of the method keys get, post, put, patch, delete,
    head, options and whose operation object is not empty is collected
    exactly once, into the list of its tag; the module generated for that
    tag has one method per collected operation, under pairwise different
    names, each with the lines written for its operation.  Parameters, a
    request body and a response schema play no part in this. *)
Theorem listed_operations_get_one_method (spec : OpenAPI)
    (path method : string) (path_item : PathItem) (operation : Operation) :
  dict_wf (oa_paths spec) →
  dict_get path (oa_paths spec) = Some path_item →
  method ∈ http_methods →
  dict_get method (pi_ops path_item) = Some operation →
  operation_truthy operation = true →
  ∃ operations names,
    dict_get (tag_of operation) (_collect_operations spec) = Some operations
    ∧ collected path (default [] (pi_parameters path_item)) method operation
      ∈ operations
    ∧ length (filter (at_path_method path method) operations) = 1
    ∧ method_names ∅ operations = Some names
    ∧ length names = length operations
    ∧ NoDup names
    ∧ _generate_api_module (tag_of operation) operations
      = Some (join nl (module_header (tag_of operation)
                       ++ concat (zip_with method_lines names operations))).
Proof.
  intros Hwf Hitem Hmethod Hop Htruthy.
  set (tag := tag_of operation).
  set (c := collected path (default [] (pi_parameters path_item))
              method operation).
  assert (entry_of path path_item method = Some (tag, c)) as He.
  { unfold entry_of. by rewrite Hop, Htruthy. }
  pose proof (entries_one_path path method path_item (tag, c)
                (oa_paths spec) Hwf Hitem Hmethod He) as Hone.
  pose proof (group_lookup tag (all_entries spec) []) as Hlook.
  rewrite <- collect_operations_group in Hlook. simpl in Hlook.
  assert ((tag, c) ∈ all_entries spec) as Hin.
  { unfold all_entries. apply list_elem_of_In, in_flat_map.
    exists (path, path_item). split.
    - by apply list_elem_of_In, dict_get_elem_of.
    - apply list_elem_of_In. unfold entries_of_path.
      apply list_elem_of_omap. by exists method. }
  assert (c ∈ map snd (filter (fun e => e.1 = tag) (all_entries spec)))
    as Hc.
  { apply list_elem_of_In, in_map_iff. exists (tag, c). split; [done |].
    apply list_elem_of_In, list_elem_of_filter. by split. }
  rewrite <- Hlook in Hc.
  destruct (dict_get tag (_collect_operations spec)) as [operations|] eqn:E;
    [| by apply elem_of_nil in Hc].
  simpl in Hc, Hlook.
  destruct (method_names_spec operations ∅)
    as (names & Hnames & Hlen & Hnd & _).
  exists operations, names.
  split; [done |]. split; [done |]. split.
  - rewrite Hlook, filter_map_snd, length_map. exact Hone.
  - split; [done |]. split; [done |]. split; [done |].
    unfold _generate_api_module. by rewrite generate_loop_lines, Hnames.
Qed.

Lemma listed_operations_get_one_method_witness :
  ∃ operations names,
    dict_get "widgets" (_collect_operations widgets_spec) = Some operations
    ∧ length (filter (at_path_method "/widgets" "get") operations) = 1
    ∧ method_names ∅ operations = Some names
    ∧ NoDup names.
Proof.
  destruct (listed_operations_get_one_method widgets_spec "/widgets" "get"
              widgets_item widgets_operation)
    as (operations & names & H1 & _ & H2 & H3 & _ & H4 & _).
  - apply (bool_decide_unpack _). by vm_compute.
  - reflexivity.
  - by left.
  - reflexivity.
  - reflexivity.
  - by exists operations, names.
Defined.

(** C4, as the specification words it, fails: an operation under the
    method key [trace], and an empty operation object under [put], are in
    the [paths] mapping of the document and no method is generated for
    them; the module of the tag has the one method of the GET operation. *)
Lemma unlisted_operations_are_dropped :
  lookup_operation (oa_paths widgets_spec) "/widgets" "trace"
  = Some widgets_operation
  ∧ lookup_operation (oa_paths widgets_spec) "/widgets" "put"
    = Some empty_operation
  ∧ map (fun tc => (tc.1, map c_method tc.2))
      (_collect_operations widgets_spec)
    = [("widgets", ["get"])]
  ∧ (method_names ∅ <$> dict_get "widgets" (_collect_operations widgets_spec))
    = Some (Some ["get_widgets"]).
Proof. repeat split; by vm_compute. Qed.

(** * Further properties *)

Import MoreNotions.

(** ** The table scanner on any sequence of events *)

Section ScannerFacts.

Lemma rstrip_by_idemp (p : ascii → bool) (s : string) :
  rstrip_by p (rstrip_by p s) = rstrip_by p s.
Proof.
  induction s as [|c s IH]; simpl; [done |].
  destruct (rstrip_by p s) as [|d r] eqn:E.
  - destruct (p c) eqn:Ec; simpl; [done | by rewrite Ec].
  - simpl in *. by rewrite IH.
Qed.

Lemma lstrip_by_head (p : ascii → bool) (s : string) :
  head_kept p (lstrip_by p s) = true.
Proof.
  induction s as [|c s IH]; simpl; [done |].
  destruct (p c) eqn:E; [done |]. simpl. by rewrite E.
Qed.

Lemma rstrip_by_head (p : ascii → bool) (s : string) :
  head_kept p s = true → head_kept p (rstrip_by p s) = true.
Proof.
  destruct s as [|c s]; simpl; [done |]. intros H.
  destruct (rstrip_by p s); simpl; [| done].
  destruct (p c) eqn:E; simpl; [done | by rewrite E].
Qed.

Lemma lstrip_by_id (p : ascii → bool) (s : string) :
  head_kept p s = true → lstrip_by p s = s.
Proof. destruct s as [|c s]; simpl; [done |]. by destruct (p c). Qed.

(** Stripping twice is stripping once *)
Lemma strip_by_idemp (p : ascii → bool) (s : string) :
  strip_by p (strip_by p s) = strip_by p s.
Proof.
  unfold strip_by.
  rewrite (lstrip_by_id p (rstrip_by p (lstrip_by p s))).
  - apply rstrip_by_idemp.
  - apply rstrip_by_head, lstrip_by_head.
Qed.

Lemma strip_idemp (s : string) : strip (strip s) = strip s.
Proof. apply strip_by_idemp. Qed.

End ScannerFacts.

Section ScannerInvariant.

Lemma scanner_inv_new : scanner_inv new_parser.
Proof.
  unfold scanner_inv; cbn. split; [constructor |].
  split; [done |]. split; [constructor | done].
Qed.

(** The four parts of the invariant, each after reduction *)
Ltac inv_parts := unfold scanner_inv; cbn; split; [| split; [| split]].

Lemma scanner_inv_handle (p : TableParser) (e : event) :
  scanner_inv p → scanner_inv (handle p e).
Proof.
  destruct p as [ts cur row cell in_cell in_cap cap skip depth].
  intros (Hts & Hcur & Hrow & Hskip). cbn in Hts, Hcur, Hrow, Hskip.
  destruct e as [tag|tag|data]; cbn [handle handle_starttag handle_endtag
                                     handle_data].
  - destruct skip as [t|]; [inv_parts; try done; lia |].
    destruct (in_tuple tag ["script"; "style"]); [inv_parts; try done |].
    destruct (String.eqb tag "table").
    { inv_parts; try done. intros t [= <-]. split; [done | constructor]. }
    destruct (String.eqb tag "caption"); [inv_parts; done |].
    destruct (in_tuple tag ["td"; "th"]); [inv_parts; done |].
    destruct (String.eqb tag "tr"); [| inv_parts; done].
    inv_parts; done.
  - destruct skip as [t|].
    { inv_parts; try done.
      destruct (Z.eqb (depth - 1) 0) eqn:E; lia. }
    destruct (String.eqb tag "table" && present cur).
    { inv_parts; try done.
      apply Forall_app. split; [done |].
      destruct cur as [t|]; cbn; [| constructor].
      constructor; [by apply Hcur | constructor]. }
    destruct (String.eqb tag "caption").
    { inv_parts; try done.
      destruct cur as [t|]; [| done]. intros t' [= <-].
      split; [apply strip_idemp | by apply (Hcur t)]. }
    destruct (in_tuple tag ["td"; "th"]).
    { inv_parts; try done.
      destruct cur as [t|]; [| done].
      apply Forall_app. split; [done |].
      constructor; [apply strip_idemp | constructor]. }
    destruct (String.eqb tag "tr" && present cur); [| inv_parts; done].
    inv_parts; try done.
    destruct cur as [t|]; [| done]. intros t' [= <-].
    destruct (Hcur t eq_refl) as [Hc Hr].
    split; [done |]. cbn.
    destruct (any_nonblank row) eqn:E; [| done].
    apply Forall_app. split; [done |].
    constructor; [by split | constructor].
  - destruct skip as [t|]; [inv_parts; done |].
    destruct in_cap; [inv_parts; done |].
    destruct in_cell; inv_parts; done.
Qed.

Lemma scanner_inv_feed (p : TableParser) (evs : list event) :
  scanner_inv p → scanner_inv (feed p evs).
Proof.
  unfold feed. revert p.
  induction evs as [|e evs IH]; intros p H; [done |].
  simpl. by apply IH, scanner_inv_handle.
Qed.

End ScannerInvariant.

(** X1.  Whatever the events, well formed or not, the tables the scanner
    gives have a stripped caption, every cell of theirs is stripped, and
    no row of theirs is blank: each has a cell that is not empty. *)
Theorem scanner_keeps_rows_clean (evs : list event) :
  Forall clean_table (tables (feed new_parser evs)).
Proof. apply (scanner_inv_feed new_parser evs scanner_inv_new). Qed.

(** ** The table scanner on well-formed tables *)

Section ScannerRoundTrip.

Lemma feed_app (p : TableParser) (a b : list event) :
  feed p (a ++ b) = feed (feed p a) b.
Proof. apply fold_left_app. Qed.

Lemma feed_cell (ts : list Table) (t : Table) (row : list string)
    (text : string) (p : TableParser) :
  in_row ts t row p →
  in_row ts t (row ++ [strip text]) (feed p (cell_events text)).
Proof.
  destruct p as [ts' cur row' cell in_cell in_cap cap skip depth].
  unfold in_row, in_table. cbn.
  intros [(-> & -> & -> & ->) ->]. by repeat split.
Qed.

Lemma feed_cells (ts : list Table) (t : Table) (cells : list string) :
  ∀ (row : list string) (p : TableParser),
    in_row ts t row p →
    in_row ts t (row ++ map strip cells)
      (feed p (flat_map cell_events cells)).
Proof.
  induction cells as [|text cells IH]; intros row p H.
  - by rewrite app_nil_r.
  - cbn [flat_map map]. rewrite feed_app.
    replace (row ++ strip text :: map strip cells)
      with ((row ++ [strip text]) ++ map strip cells)
      by (by rewrite <- app_assoc).
    by apply IH, feed_cell.
Qed.

Lemma feed_row (ts : list Table) (t : Table) (cells : list string)
    (p : TableParser) :
  in_table ts t p →
  in_table ts
    {| caption := caption t;
       rows := rows t ++ filter (fun row => any_nonblank row = true)
                           [map strip cells] |}
    (feed p (row_events cells)).
Proof.
  intros H. unfold row_events. rewrite !feed_app.
  assert (filter (fun row => any_nonblank row = true) [map strip cells]
          = if any_nonblank (map strip cells) then [map strip cells]
            else []) as ->.
  { rewrite filter_cons, filter_nil.
    destruct (any_nonblank (map strip cells)).
    - by rewrite decide_True.
    - by rewrite decide_False. }
  assert (in_row ts t [] (feed p [StartTag "tr"])) as H0.
  { destruct p as [ts' cur row' cell in_cell in_cap cap skip depth].
    unfold in_row, in_table in *. cbn in *.
    destruct H as (-> & -> & -> & ->). by repeat split. }
  apply (feed_cells ts t cells) in H0. cbn [app] in H0.
  destruct (feed (feed p [StartTag "tr"]) (flat_map cell_events cells))
    as [ts' cur row' cell in_cell in_cap cap skip depth].
  unfold in_row, in_table in *. cbn in H0.
  destruct H0 as [(-> & -> & -> & ->) ->].
  unfold feed. simpl.
  destruct (any_nonblank (map strip cells)); [done |].
  by rewrite app_nil_r.
Qed.

Lemma feed_rows (ts : list Table) (rws : list (list string)) :
  ∀ (t : Table) (p : TableParser),
    in_table ts t p →
    in_table ts
      {| caption := caption t;
         rows := rows t ++ filter (fun row => any_nonblank row = true)
                             (map (map strip) rws) |}
      (feed p (flat_map row_events rws)).
Proof.
  induction rws as [|cells rws IH]; intros t p H.
  - cbn. rewrite app_nil_r. by destruct t.
  - cbn [flat_map map]. rewrite feed_app.
    apply (feed_row ts t cells) in H. apply IH in H.
    cbn [caption rows] in H. rewrite <- app_assoc in H.
    change (map strip cells :: map (map strip) rws)
      with ([map strip cells] ++ map (map strip) rws).
    by rewrite filter_app.
Qed.

Lemma feed_table (ts : list Table) (cap : string)
    (rws : list (list string)) (p : TableParser) :
  settled ts p →
  settled (ts ++ [scanned_table cap rws]) (feed p (table_events cap rws)).
Proof.
  intros H. unfold table_events. rewrite !feed_app.
  assert (in_table ts {| caption := strip cap; rows := [] |}
            (feed p [StartTag "table"; StartTag "caption"; Data cap;
                     EndTag "caption"])) as H0.
  { destruct p as [ts' cur row' cell in_cell in_cap cap' skip depth].
    unfold settled, in_table in *. cbn in *.
    destruct H as (-> & -> & ->). by repeat split. }
  apply (feed_rows ts rws) in H0. cbn [caption rows app] in H0.
  destruct (feed (feed p _) (flat_map row_events rws))
    as [ts' cur row' cell in_cell in_cap cap' skip depth].
  unfold settled, in_table in *. cbn in H0 |- *.
  destruct H0 as (-> & -> & -> & ->). by repeat split.
Qed.

End ScannerRoundTrip.

(** X2.  Fed the events of well-formed tables, one after the other, the
    scanner gives these tables back in their order: each with its caption
    stripped, its cells stripped and its blank rows left out. *)
Theorem scanner_reads_tables_back
    (tbls : list (string * list (list string))) :
  tables (feed new_parser
            (flat_map (fun t => table_events t.1 t.2) tbls))
  = map (fun t => scanned_table t.1 t.2) tbls.
Proof.
  assert (∀ ts p, settled ts p →
            settled (ts ++ map (fun t => scanned_table t.1 t.2) tbls)
              (feed p (flat_map (fun t => table_events t.1 t.2) tbls)))
    as H.
  { induction tbls as [|[cap rws] tbls IH]; intros ts p Hp.
    - by rewrite app_nil_r.
    - cbn [flat_map map fst snd]. rewrite feed_app.
      apply (feed_table ts cap rws), IH in Hp.
      by rewrite <- app_assoc in Hp. }
  by destruct (H [] new_parser) as (-> & _).
Qed.

(** ** Script and style subtrees *)

Section SkipFacts.

Lemma feed_skipped (body : list event) :
  ∀ ts cur row cell in_cell in_cap cap t depth,
    stays_inside depth body = true →
    feed (Build_TableParser ts cur row cell in_cell in_cap cap (Some t) depth)
      body
    = Build_TableParser ts cur row cell in_cell in_cap cap (Some t) 1.
Proof.
  induction body as [|e body IH]; intros ts cur row cell in_cell in_cap cap
                                          t depth H.
  - simpl in H. apply Z.eqb_eq in H. by subst.
  - destruct e as [tag|tag|data]; simpl in H.
    + exact (IH _ _ _ _ _ _ _ _ _ H).
    + apply andb_true_iff in H as [Hd H]. apply Z.ltb_lt in Hd.
      unfold feed. cbn [fold_left handle handle_endtag].
      destruct (Z.eqb (depth - 1) 0) eqn:E; [apply Z.eqb_eq in E; lia |].
      exact (IH _ _ _ _ _ _ _ _ _ H).
    + exact (IH _ _ _ _ _ _ _ _ _ H).
Qed.

Lemma feed_skip_region (p : TableParser) (t t' : string)
    (body : list event) :
  in_tuple t ["script"; "style"] = true →
  _skip_tag p = None → _skip_depth p = 0%Z →
  stays_inside 1 body = true →
  feed p (StartTag t :: body ++ [EndTag t']) = p.
Proof.
  destruct p as [ts cur row cell in_cell in_cap cap skip depth].
  cbn [_skip_tag _skip_depth]. intros Ht -> -> H.
  change (StartTag t :: body ++ [EndTag t'])
    with ([StartTag t] ++ body ++ [EndTag t']).
  rewrite !feed_app. unfold feed at 3. cbn [fold_left handle handle_starttag].
  rewrite Ht, (feed_skipped body _ _ _ _ _ _ _ _ _ H).
  reflexivity.
Qed.

End SkipFacts.

(** X3.  A [<script>] or [<style>] subtree is skipped whole by the table
    scanner, nested tags and all: between the opening tag and the end tag
    that brings the depth back to zero, whatever that tag is called,
    nothing is read, so the scan goes on as if the subtree were not
    there. *)
Theorem scanner_skips_script_subtrees (before body after : list event)
    (t t' : string) :
  in_tuple t ["script"; "style"] = true →
  _skip_tag (feed new_parser before) = None →
  stays_inside 1 body = true →
  feed new_parser (before ++ StartTag t :: body ++ [EndTag t'] ++ after)
  = feed new_parser (before ++ after).
Proof.
  intros Ht Hskip Hbody.
  pose proof (scanner_inv_feed new_parser before scanner_inv_new)
    as (_ & _ & _ & Hdepth).
  rewrite Hskip in Hdepth.
  rewrite !feed_app.
  change (StartTag t :: body ++ [EndTag t'] ++ after)
    with ((StartTag t :: body) ++ [EndTag t'] ++ after).
  rewrite app_assoc, feed_app. f_equal.
  rewrite <- app_comm_cons. by apply feed_skip_region.
Qed.

Lemma scanner_skips_script_subtrees_witness :
  tables (feed new_parser script_then_table)
  = [ {| caption := "Response Codes"; rows := [codes_header_row] |} ].
Proof.
  etrans; [| reflexivity].
  exact (f_equal tables
           (scanner_skips_script_subtrees []
              [Data "document.write('"; StartTag "table"; StartTag "script";
               EndTag "script"; EndTag "table"; Data "')"]
              (table_events "Response Codes" [codes_header_row])
              "script" "script" eq_refl eq_refl eq_refl)).
Defined.

(** ** The text extractor *)

Section ExtractorFacts.

Lemma concat_empty_cons (x : string) (l : list string) :
  String.concat EmptyString (x :: l) = x +:+ String.concat EmptyString l.
Proof. destruct l; simpl; [by rewrite append_nil_r | done]. Qed.

Lemma concat_empty_app (l l' : list string) :
  String.concat EmptyString (l ++ l')
  = String.concat EmptyString l +:+ String.concat EmptyString l'.
Proof.
  induction l as [|x l IH]; [done |].
  rewrite <- app_comm_cons, !concat_empty_cons, IH.
  by rewrite append_assoc.
Qed.

Lemma extractor_feed_app (te : Extractor.TextExtractor) (a b : list event) :
  Extractor.feed te (a ++ b) = Extractor.feed (Extractor.feed te a) b.
Proof. apply fold_left_app. Qed.

Lemma extractor_feed_cons (te : Extractor.TextExtractor) (e : event)
    (evs : list event) :
  Extractor.feed te (e :: evs)
  = Extractor.feed (Extractor.handle te e) evs.
Proof. reflexivity. Qed.

(** Inside a block the data is gathered and the tags are passed over *)
Lemma extractor_feed_inside (inner : list event) :
  ∀ buf pre blocks depth,
    forallb plain_event inner = true →
    Extractor.feed
      (Extractor.Build_TextExtractor buf true pre blocks None depth) inner
    = Extractor.Build_TextExtractor buf true (pre +:+ data_of inner) blocks
        None depth.
Proof.
  induction inner as [|e inner IH]; intros buf pre blocks depth H.
  - simpl. by rewrite append_nil_r.
  - simpl in H. apply andb_true_iff in H as [He H].
    rewrite extractor_feed_cons.
    destruct e as [t|t|d]; simpl in He.
    + unfold in_tuple in He. cbn [existsb] in He.
      destruct (String.eqb t "script") eqn:E1; [done |].
      destruct (String.eqb t "style") eqn:E2; [done |].
      destruct (String.eqb t "pre") eqn:E3; [done |].
      unfold Extractor.handle, Extractor.handle_starttag, in_tuple.
      cbn [existsb]. rewrite E1, E2, E3. cbn [orb].
      exact (IH _ _ _ _ H).
    + destruct (String.eqb t "pre") eqn:E3; [done |].
      unfold Extractor.handle, Extractor.handle_endtag. rewrite E3.
      exact (IH _ _ _ _ H).
    + cbn [Extractor.handle Extractor.handle_data data_of].
      rewrite (IH _ _ _ _ H). by rewrite append_assoc.
Qed.

Lemma extractor_feed_part (part : string * list event) :
  ∀ buf pre blocks depth,
    forallb plain_event part.2 = true →
    Extractor.feed
      (Extractor.Build_TextExtractor buf false pre blocks None depth)
      (text_then_pre part)
    = Extractor.Build_TextExtractor
        (buf ++ [part.1; Extractor.pre_marker]) false (data_of part.2)
        (blocks ++ [data_of part.2]) None depth.
Proof.
  destruct part as [t inner]. intros buf pre blocks depth H.
  unfold text_then_pre. cbn [fst snd] in *.
  change (Data t :: StartTag "pre" :: inner ++ [EndTag "pre"])
    with ([Data t; StartTag "pre"] ++ inner ++ [EndTag "pre"]).
  rewrite !extractor_feed_app.
  unfold Extractor.feed at 3. cbn.
  rewrite (extractor_feed_inside inner _ _ _ _ H).
  unfold Extractor.feed. cbn. by rewrite <- app_assoc.
Qed.

End ExtractorFacts.

(** X4.  On a page made of stretches of text, each followed by a [<pre>]
    block, the extractor gives the blocks in document order, each as the
    data inside it with the tags inside left out, and a text in which
    every block is replaced by the marker. *)
Theorem extractor_reads_pre_blocks (parts : list (string * list event)) :
  Forall (fun part => forallb plain_event part.2 = true) parts →
  let te :=
    Extractor.feed Extractor.new_extractor (flat_map text_then_pre parts) in
  Extractor.pre_blocks te = map (fun part => data_of part.2) parts
  ∧ Extractor.text te
    = String.concat EmptyString
        (map (fun part => part.1 +:+ Extractor.pre_marker) parts).
Proof.
  intros H. cbn zeta. unfold Extractor.new_extractor, Extractor.text.
  assert (∀ buf pre blocks depth,
            ∃ pre',
              Extractor.feed
                (Extractor.Build_TextExtractor buf false pre blocks None depth)
                (flat_map text_then_pre parts)
              = Extractor.Build_TextExtractor
                  (buf ++ flat_map (fun part => [part.1; Extractor.pre_marker])
                            parts)
                  false pre'
                  (blocks ++ map (fun part => data_of part.2) parts)
                  None depth) as Hgen.
  { induction H as [|part parts Hpart _ IH]; intros buf pre blocks depth.
    - exists pre. cbn. by rewrite !app_nil_r.
    - cbn [flat_map map]. rewrite extractor_feed_app.
      rewrite (extractor_feed_part part _ _ _ _ Hpart).
      destruct (IH (buf ++ [part.1; Extractor.pre_marker]) (data_of part.2)
                  (blocks ++ [data_of part.2]) depth) as [pre' ->].
      exists pre'. by rewrite <- !app_assoc. }
  destruct (Hgen [] EmptyString [] 0%Z) as [pre' ->]. cbn.
  split; [done |].
  clear. induction parts as [|part parts IH]; [done |].
  cbn [flat_map map app].
  rewrite !concat_empty_cons, IH. by rewrite append_assoc.
Qed.

Lemma extractor_reads_pre_blocks_witness :
  Extractor.pre_blocks
    (Extractor.feed Extractor.new_extractor
       (flat_map text_then_pre
          [("Sample:", [StartTag "code"; Data "{"; Data "}"; EndTag "code"])]))
  = ["{}"].
Proof.
  exact (proj1 (extractor_reads_pre_blocks
                  [("Sample:",
                    [StartTag "code"; Data "{"; Data "}"; EndTag "code"])]
                  ltac:(by repeat constructor))).
Defined.

(** ** More on the endpoint parser *)

Section ParserInvariants.

Lemma dict_set_wf {V} (k : string) (v : V) (d : dict V) :
  dict_wf d → dict_wf (dict_set k v d).
Proof.
  unfold dict_wf. rewrite dict_keys_set.
  destruct (dict_has k d) eqn:E; [done |].
  intros H. apply NoDup_app. split; [done |].
  split; [| apply NoDup_singleton].
  intros x Hx ->%list_elem_of_singleton.
  by apply dict_has_false_keys in E.
Qed.

Lemma fold_response_step_inv (rws : list (list string)) :
  ∀ acc : dict Response,
    dict_wf acc →
    Forall (fun cr => isdigit cr.1 = true
                      ∧ nonempty (r_description cr.2) = true) acc →
    dict_wf (fold_left response_step rws acc)
    ∧ Forall (fun cr => isdigit cr.1 = true
                        ∧ nonempty (r_description cr.2) = true)
        (fold_left response_step rws acc).
Proof.
  induction rws as [|row rws IH]; intros acc Hwf Hall; [done |].
  cbn [fold_left]. apply IH; unfold response_step;
    destruct row as [|c rest]; try done;
    destruct (isdigit (strip c)) eqn:E; cbn [negb]; try done.
  - by apply dict_set_wf.
  - apply dict_set_Forall; [| done]. split; [done |]. cbn [snd r_description].
    unfold or_default.
    match goal with
    | |- context [if nonempty ?x then _ else _] =>
        by destruct (nonempty x) eqn:E'
    end.
Qed.

Lemma responses_of_inv (rws : list (list string)) :
  responses_of rws ≠ []
  ∧ dict_wf (responses_of rws)
  ∧ Forall (fun cr => isdigit cr.1 = true
                      ∧ nonempty (r_description cr.2) = true)
      (responses_of rws).
Proof.
  unfold responses_of.
  destruct (fold_response_step_inv rws [] (NoDup_nil_2) (Forall_nil_2 _))
    as [Hwf Hall].
  destruct (fold_left response_step rws []) as [|cr R]; [| done].
  split; [done |]. split.
  - unfold dict_wf. cbn. apply NoDup_singleton.
  - by repeat constructor.
Qed.

Lemma dict_keys_attach_schema (method : string) (schema : json)
    (responses : dict Response) :
  dict_keys (attach_schema method schema responses) = dict_keys responses.
Proof.
  unfold attach_schema.
  destruct (dict_get (ok_code method responses) responses) eqn:E; [| done].
  rewrite dict_keys_set. unfold dict_has. by rewrite E.
Qed.

Lemma filter_has_content_nil (responses : list (string * Response)) :
  Forall (fun cr => r_content cr.2 = None) responses →
  filter has_content responses = [].
Proof.
  induction 1 as [|cr R Hcr _ IH]; [done |].
  rewrite filter_cons_False; [done |].
  unfold has_content. by rewrite Hcr.
Qed.

Lemma filter_has_content_set (code : string) (resp resp' : Response)
    (responses : list (string * Response)) :
  Forall (fun cr => r_content cr.2 = None) responses →
  dict_get code responses = Some resp →
  present (r_content resp') = true →
  length (filter has_content (dict_set code resp' responses)) = 1.
Proof.
  intros Hall Hget Hc. unfold dict in *.
  induction Hall as [|[k r] R Hcr Hall IH]; [done |].
  cbn [dict_get dict_set] in Hget |- *.
  destruct (String.eqb code k) eqn:E.
  - rewrite filter_cons_True by done.
    by rewrite filter_has_content_nil.
  - rewrite filter_cons_False; [by apply IH |].
    unfold has_content. cbn in Hcr |- *. by rewrite Hcr.
Qed.

End ParserInvariants.

(** X5.  A page on which the title search finds nothing gives no record,
    and the batch goes on without it: wherever the page stands among the
    others, the assembled document is the one assembled without it. *)
Theorem untitled_pages_are_skipped (file : HtmlFile) :
  title_m file = None →
  _parse_html_file file = None
  ∧ ∀ before after,
      build_openapi (before ++ file :: after)
      = build_openapi (before ++ after).
Proof.
  intros H.
  assert (_parse_html_file file = None) as Hnone.
  { unfold _parse_html_file. by rewrite H. }
  split; [done |]. intros before after. unfold build_openapi. f_equal.
  rewrite !fold_left_app. cbn [fold_left].
  unfold build_step at 2. by rewrite Hnone.
Qed.

Lemma untitled_pages_are_skipped_witness :
  build_openapi ([no_code_file] ++ untitled_file :: [twice_id_file])
  = build_openapi ([no_code_file] ++ [twice_id_file]).
Proof.
  exact (proj2 (untitled_pages_are_skipped untitled_file eq_refl) _ _).
Defined.

(** X6.  The response map of a parsed page is never empty, has no status
    code twice, and every entry of it has a code made of digits only and a
    description that is not empty. *)
Theorem parsed_responses_are_well_formed (file : HtmlFile)
    (data : EndpointData) :
  _parse_html_file file = Some data →
  d_responses data ≠ []
  ∧ dict_wf (d_responses data)
  ∧ Forall (fun cr => isdigit cr.1 = true
                      ∧ nonempty (r_description cr.2) = true)
      (d_responses data).
Proof.
  intros (g1 & g2 & _ & _ & _ & _ & ->)%parse_html_file_Some.
  destruct (responses_of_inv (response_rows (row_sets file)))
    as (Hne & Hwf & Hall).
  set (R := responses_of (response_rows (row_sets file))) in *.
  split; [| split].
  - intros E. apply (f_equal dict_keys) in E.
    rewrite dict_keys_attach_schema in E. by destruct R.
  - unfold dict_wf. by rewrite dict_keys_attach_schema.
  - unfold attach_schema.
    destruct (dict_get (ok_code (upper g1) R) R) as [resp|] eqn:E; [| done].
    apply dict_set_Forall; [| done]. cbn.
    apply dict_get_elem_of in E. rewrite Forall_forall in Hall.
    destruct (Hall _ E) as [H1 H2]. done.
Qed.

Lemma parsed_responses_are_well_formed_witness :
  ∃ data, _parse_html_file post_file = Some data
          ∧ dict_keys (d_responses data) = ["200"; "201"; "409"]
          ∧ dict_wf (d_responses data).
Proof.
  eexists. split; [reflexivity |]. split; [reflexivity |].
  exact (proj1 (proj2 (parsed_responses_are_well_formed post_file _ eq_refl))).
Defined.

(** X7.  At most one response of a parsed page carries the schema: exactly
    one when the page documents the code 200, or is a POST page that
    documents 201, and none otherwise (a page that documents only error
    codes gets no schema at all). *)
Theorem schema_is_attached_at_most_once (file : HtmlFile)
    (data : EndpointData) :
  _parse_html_file file = Some data →
  length (filter has_content (d_responses data))
  = if dict_has "200" (d_responses data)
       || (String.eqb (d_method data) "POST"
           && dict_has "201" (d_responses data))
    then 1 else 0.
Proof.
  intros (g1 & g2 & _ & -> & _ & _ & ->)%parse_html_file_Some.
  rewrite !dict_has_attach_schema.
  pose proof (responses_of_no_content (response_rows (row_sets file)))
    as Hnone.
  set (R := responses_of (response_rows (row_sets file))) in *.
  unfold attach_schema, ok_code.
  destruct (String.eqb (upper g1) "POST" && dict_has "201" R) eqn:E.
  - rewrite orb_true_r.
    apply andb_true_iff in E as [_ E]. unfold dict_has in E.
    destruct (dict_get "201" R) as [resp|] eqn:E'; [| done].
    by apply (filter_has_content_set "201" resp).
  - rewrite orb_false_r. unfold dict_has.
    destruct (dict_get "200" R) as [resp|] eqn:E'.
    + by apply (filter_has_content_set "200" resp).
    + by rewrite filter_has_content_nil.
Qed.

Lemma schema_is_attached_at_most_once_witness :
  ∃ data, _parse_html_file post_file = Some data
          ∧ length (filter has_content (d_responses data)) = 1.
Proof.
  eexists. split; [reflexivity |].
  exact (schema_is_attached_at_most_once post_file _ eq_refl).
Defined.

(** ** Types, parameters and the request body *)

Section FieldFacts.

Lemma lower_upper_char (c : ascii) :
  (code c <? 128)%nat = true → lower_char (upper_char c) = lower_char c.
Proof. by destruct c as [[] [] [] [] [] [] [] []]. Qed.

Lemma lower_lower_char (c : ascii) :
  lower_char (lower_char c) = lower_char c.
Proof. by destruct c as [[] [] [] [] [] [] [] []]. Qed.

(** On ASCII text, upper-casing is undone by lower-casing *)
Lemma lower_upper (s : string) :
  ascii_text s = true → lower (upper s) = lower s.
Proof.
  induction s as [|c s IH]; simpl; [done |].
  intros [Hc Hs]%andb_true_iff.
  by rewrite lower_upper_char, (IH Hs).
Qed.

Lemma lower_idemp (s : string) : lower (lower s) = lower s.
Proof.
  induction s as [|c s IH]; simpl; [done |].
  by rewrite lower_lower_char, IH.
Qed.

Lemma dict_get_default_elem (d : list (string * string)) (k x : string) :
  default x (dict_get k d) ∈ x :: map snd d.
Proof.
  induction d as [|[k' v] d IH]; simpl; [by left |].
  destruct (String.eqb k k').
  - right. by left.
  - apply elem_of_cons in IH as [->|IH]; [by left |].
    right. by right.
Qed.

Lemma map_type_in_types (raw : string) : _map_type raw ∈ openapi_types.
Proof.
  pose proof (dict_get_default_elem _TYPE_MAP (lower raw) "string") as H.
  unfold _map_type. revert H. generalize (default "string"
    (dict_get (lower raw) _TYPE_MAP)). intros t H.
  cbn in H. unfold openapi_types.
  repeat (apply elem_of_cons in H as [->|H];
          [apply (bool_decide_unpack _); by vm_compute |]).
  by apply elem_of_nil in H.
Qed.

End FieldFacts.

(** X8.  [_map_type] always gives one of the six OpenAPI type names,
    whatever the text of the cell.  It gives the same type for a text and
    for that text in lower case, and, when the text is ASCII, also for
    that text in upper case. *)
Theorem map_type_gives_an_openapi_type (raw : string) :
  _map_type raw ∈ openapi_types
  ∧ _map_type (lower raw) = _map_type raw
  ∧ (ascii_text raw = true → _map_type (upper raw) = _map_type raw).
Proof.
  split; [apply map_type_in_types |].
  unfold _map_type. split; [by rewrite lower_idemp |].
  intros H. by rewrite (lower_upper raw H).
Qed.

Lemma map_type_gives_an_openapi_type_witness :
  ascii_text "Number (Integer)" = true
  ∧ _map_type "NUMBER (INTEGER)" = "integer".
Proof.
  split; [reflexivity |].
  etrans;
    [exact (proj2 (proj2 (map_type_gives_an_openapi_type "Number (Integer)"))
              eq_refl)
    | reflexivity].
Defined.

Section ParameterInvariants.

Lemma param_of_row_inv (row : list string) (p : Param) :
  param_of_row row = Some p →
  in_tuple (p_in p) ["query"; "path"; "header"] = true
  ∧ strip (p_name p) = p_name p
  ∧ strip (p_description p) = p_description p
  ∧ p_schema_type p ∈ openapi_types.
Proof.
  rewrite param_of_row_spec.
  destruct (qualifying_row row) eqn:Q; [| done]. intros [= <-].
  cbn [p_in p_name p_description p_schema_type].
  apply andb_true_iff in Q as [_ Q].
  split; [done |]. split; [apply strip_idemp |].
  split; [apply strip_idemp | apply map_type_in_types].
Qed.

Lemma parameters_of_length (rws : list (list string)) :
  length (parameters_of rws) ≤ length rws.
Proof.
  unfold parameters_of. induction rws as [|row rws IH]; [done |].
  cbn [omap list_omap length]. fold (omap param_of_row rws).
  destruct (param_of_row row); cbn [length]; lia.
Qed.

End ParameterInvariants.

(** X9.  Every parameter of a parsed page has one of the locations query,
    path and header, a name and a description without blanks at either
    end, and one of the six OpenAPI type names as its type; there are no
    more parameters than rows in the parameter table. *)
Theorem parsed_parameters_are_well_formed (file : HtmlFile)
    (data : EndpointData) :
  _parse_html_file file = Some data →
  length (d_parameters data) ≤ length (params_rows (row_sets file))
  ∧ Forall (fun p => in_tuple (p_in p) ["query"; "path"; "header"] = true
                     ∧ strip (p_name p) = p_name p
                     ∧ strip (p_description p) = p_description p
                     ∧ p_schema_type p ∈ openapi_types)
      (d_parameters data).
Proof.
  intros (g1 & g2 & _ & _ & -> & _)%parse_html_file_Some.
  split; [apply parameters_of_length |].
  apply Forall_forall. intros p Hp.
  apply elem_of_parameters_of in Hp as (row & _ & Hp).
  by apply (param_of_row_inv row).
Qed.

Lemma parsed_parameters_are_well_formed_witness :
  ∃ data, _parse_html_file twice_id_file = Some data
          ∧ length (d_parameters data) ≤ 2.
Proof.
  eexists. split; [reflexivity |].
  exact (proj1 (parsed_parameters_are_well_formed twice_id_file _ eq_refl)).
Defined.

Section BodyInvariants.

(** What the loop over the body rows keeps: no field twice, and every
    required name a field *)
Lemma fold_body_step_inv (rws : list (list string)) :
  ∀ st : dict BodyProp * list string,
    dict_wf st.1 → (∀ n, n ∈ st.2 → n ∈ dict_keys st.1) →
    dict_wf (fold_left body_step rws st).1
    ∧ ∀ n, n ∈ (fold_left body_step rws st).2 →
           n ∈ dict_keys (fold_left body_step rws st).1.
Proof.
  induction rws as [|row rws IH]; intros st Hwf Hreq; [done |].
  cbn [fold_left]. apply IH; unfold body_step;
    destruct row as [|c0 [|c1 [|c2 [|c3 row]]]]; try done;
    destruct (nonempty (strip c0)); cbn [negb fst snd]; try done.
  - by apply dict_set_wf.
  - intros n Hn.
    assert (n ∈ st.2 ∨ n = strip c0) as [H | ->].
    { destruct (says_required c3); [| by left].
      apply elem_of_app in Hn as [H|H]; [by left | right].
      by apply list_elem_of_singleton in H. }
    + rewrite dict_keys_set. apply Hreq in H.
      destruct (dict_has _ _); [done |]. apply elem_of_app. by left.
    + rewrite dict_keys_set. destruct (dict_has _ _) eqn:E.
      * by apply dict_has_keys.
      * apply elem_of_app. right. by left.
Qed.

End BodyInvariants.

(** X10.  A parsed page has a request body exactly when its body table has
    a row besides the header.  The body is then marked required, no field
    of its schema occurs twice, every name in its required list is one of
    its fields, and the required list, when present, is not empty. *)
Theorem parsed_request_body_is_well_formed (file : HtmlFile)
    (data : EndpointData) :
  _parse_html_file file = Some data →
  (d_request_body data = None ↔ body_rows (row_sets file) = [])
  ∧ ∀ request_body,
      d_request_body data = Some request_body →
      rb_required request_body = true
      ∧ dict_wf (bs_properties (rb_schema request_body))
      ∧ bs_required (rb_schema request_body) ≠ Some []
      ∧ ∀ n, n ∈ default [] (bs_required (rb_schema request_body)) →
             n ∈ dict_keys (bs_properties (rb_schema request_body)).
Proof.
  intros (g1 & g2 & _ & _ & _ & -> & _)%parse_html_file_Some.
  unfold request_body_of.
  destruct (body_rows (row_sets file)) as [|row rws]; [done |].
  destruct (fold_body_step_inv (row :: rws) ([], []) NoDup_nil_2
              ltac:(by intros n ?%elem_of_nil)) as [Hwf Hreq].
  destruct (fold_left body_step (row :: rws) ([], []))
    as [properties required_fields].
  cbn [fst snd] in Hwf, Hreq. split; [done |].
  intros request_body [= <-]. cbn.
  split; [done |]. split; [done |].
  destruct required_fields; [done |]. split; [done | exact Hreq].
Qed.

Lemma parsed_request_body_is_well_formed_witness :
  ∃ data request_body,
    _parse_html_file post_file = Some data
    ∧ d_request_body data = Some request_body
    ∧ dict_keys (bs_properties (rb_schema request_body)) = ["name"; "note"]
    ∧ dict_wf (bs_properties (rb_schema request_body)).
Proof.
  eexists _, _. split; [reflexivity |]. split; [reflexivity |].
  split; [reflexivity |].
  exact (proj1 (proj2 (proj2 (parsed_request_body_is_well_formed post_file _
                                eq_refl) _ eq_refl))).
Defined.

(** ** The assembled document *)

Section BuiltFacts.

Lemma dict_set_set {V} (k : string) (v v' : V) (d : dict V) :
  dict_set k v (dict_set k v' d) = dict_set k v d.
Proof.
  induction d as [|[k0 v0] d IH]; simpl.
  - by rewrite String.eqb_refl.
  - destruct (String.eqb k k0) eqn:E; simpl.
    + by rewrite String.eqb_refl.
    + by rewrite E, IH.
Qed.

Lemma dict_set_nonempty {V} (k : string) (v : V) (d : dict V) :
  dict_set k v d ≠ [].
Proof. destruct d as [|[k0 v0] d]; simpl; [done |]. by destruct (String.eqb k k0). Qed.

(** Adding a page is one assignment, into the item already there or into
    a fresh one *)
Lemma add_operation_set (paths : dict PathItem) (data : EndpointData) :
  add_operation paths data
  = let item :=
      default empty_path_item (dict_get (d_api_path data) paths) in
    dict_set (d_api_path data)
      {| pi_parameters := pi_parameters item;
         pi_ops := dict_set (lower (d_method data)) (operation_of data)
                     (pi_ops item) |}
      paths.
Proof.
  unfold add_operation, dict_has.
  destruct (dict_get (d_api_path data) paths) as [item|] eqn:E.
  - by rewrite E.
  - rewrite dict_get_set_eq. cbn. by rewrite dict_set_set.
Qed.

Lemma parsed_responses_nonempty (file : HtmlFile) (data : EndpointData) :
  _parse_html_file file = Some data → d_responses data ≠ [].
Proof.
  intros (g1 & g2 & _ & _ & _ & _ & ->)%parse_html_file_Some E.
  apply (f_equal dict_keys) in E. rewrite dict_keys_attach_schema in E.
  destruct (responses_of_inv (response_rows (row_sets file))) as [Hne _].
  by destruct (responses_of (response_rows (row_sets file))).
Qed.

Lemma operation_of_built (data : EndpointData) :
  d_responses data ≠ [] →
  built_operation (d_api_path data) (lower (d_method data), operation_of data).
Proof.
  intros H. split; [done |]. split; [done |]. split; [done |].
  eexists. split; [reflexivity |]. by destruct (d_responses data).
Qed.

Lemma add_operation_inv (paths : dict PathItem) (data : EndpointData) :
  d_responses data ≠ [] →
  dict_wf paths → Forall built_item paths →
  dict_wf (add_operation paths data)
  ∧ Forall built_item (add_operation paths data).
Proof.
  intros Hresp Hwf Hall. rewrite add_operation_set. cbn zeta.
  split; [by apply dict_set_wf |].
  apply dict_set_Forall; [| done].
  assert (pi_parameters (default empty_path_item
                           (dict_get (d_api_path data) paths)) = None
          ∧ dict_wf (pi_ops (default empty_path_item
                               (dict_get (d_api_path data) paths)))
          ∧ Forall (built_operation (d_api_path data))
              (pi_ops (default empty_path_item
                         (dict_get (d_api_path data) paths))))
    as (Hp & Hw & Ho).
  { destruct (dict_get (d_api_path data) paths) as [item|] eqn:E; cbn.
    - apply dict_get_elem_of in E. rewrite Forall_forall in Hall.
      by destruct (Hall _ E) as (? & _ & ? & ?).
    - split; [done |]. split; [apply NoDup_nil_2 | constructor]. }
  split; [done |]. cbn [fst snd pi_ops]. split; [apply dict_set_nonempty |].
  split; [by apply dict_set_wf |].
  apply dict_set_Forall; [| done]. by apply operation_of_built.
Qed.

Lemma built_paths_inv (html_files : list HtmlFile) :
  dict_wf (oa_paths (build_openapi html_files))
  ∧ Forall built_item (oa_paths (build_openapi html_files)).
Proof.
  cbn [oa_paths build_openapi].
  assert (∀ paths, dict_wf paths → Forall built_item paths →
            dict_wf (fold_left build_step html_files paths)
            ∧ Forall built_item (fold_left build_step html_files paths))
    as H.
  { induction html_files as [|file files IH]; intros paths Hwf Hall; [done |].
    cbn [fold_left]. unfold build_step at 2 4.
    destruct (_parse_html_file file) as [data|] eqn:E; [| by apply IH].
    destruct (add_operation_inv paths data) as [Hwf' Hall']; try done.
    - by apply (parsed_responses_nonempty file).
    - by apply IH. }
  apply H; [apply NoDup_nil_2 | constructor].
Qed.

End BuiltFacts.

(** X11.  In the document the builder assembles no path occurs twice.
    Every path item has no path-level parameters, at least one operation
    and no method twice; every operation has the first segment of its path
    as its one tag, the operation id made from its method and path, and a
    response map that is not empty. *)
Theorem built_document_is_well_formed (html_files : list HtmlFile) :
  dict_wf (oa_paths (build_openapi html_files))
  ∧ Forall built_item (oa_paths (build_openapi html_files)).
Proof. apply built_paths_inv. Qed.

(** ** From the pages to the collected operations *)

Section PipelineFacts.

(** An operation of a document under a listed method is collected once,
    into the list of its tag *)
Lemma collected_once (spec : OpenAPI) (path method : string)
    (path_item : PathItem) (operation : Operation) :
  dict_wf (oa_paths spec) →
  dict_get path (oa_paths spec) = Some path_item →
  method ∈ http_methods →
  dict_get method (pi_ops path_item) = Some operation →
  operation_truthy operation = true →
  ∃ operations,
    dict_get (tag_of operation) (_collect_operations spec) = Some operations
    ∧ collected path (default [] (pi_parameters path_item)) method operation
      ∈ operations
    ∧ length (filter (at_path_method path method) operations) = 1.
Proof.
  intros Hwf Hitem Hmethod Hop Htruthy.
  set (tag := tag_of operation).
  set (c := collected path (default [] (pi_parameters path_item))
              method operation).
  assert (entry_of path path_item method = Some (tag, c)) as He.
  { unfold entry_of. by rewrite Hop, Htruthy. }
  pose proof (entries_one_path path method path_item (tag, c)
                (oa_paths spec) Hwf Hitem Hmethod He) as Hone.
  pose proof (group_lookup tag (all_entries spec) []) as Hlook.
  rewrite <- collect_operations_group in Hlook. simpl in Hlook.
  assert (c ∈ map snd (filter (fun e => e.1 = tag) (all_entries spec)))
    as Hc.
  { apply list_elem_of_In, in_map_iff. exists (tag, c). split; [done |].
    apply list_elem_of_In, list_elem_of_filter. split; [done |].
    unfold all_entries. apply list_elem_of_In, in_flat_map.
    exists (path, path_item). split.
    - by apply list_elem_of_In, dict_get_elem_of.
    - apply list_elem_of_In. unfold entries_of_path.
      apply list_elem_of_omap. by exists method. }
  rewrite <- Hlook in Hc.
  destruct (dict_get tag (_collect_operations spec)) as [operations|] eqn:E;
    [| by apply elem_of_nil in Hc].
  simpl in Hc, Hlook. exists operations.
  split; [done |]. split; [done |].
  rewrite Hlook, filter_map_snd, length_map. exact Hone.
Qed.

Lemma last_filter_elem {A} (P : A → Prop) `{∀ x, Decision (P x)}
    (l : list A) (x : A) :
  x ∈ l → P x → ∃ y, last (filter P l) = Some y ∧ y ∈ l ∧ P y.
Proof.
  intros Hx HP.
  assert (x ∈ filter P l) as Hin by (by apply list_elem_of_filter).
  destruct (last (filter P l)) as [y|] eqn:E.
  - exists y. split; [done |].
    apply last_Some_elem_of, list_elem_of_filter in E. by destruct E.
  - apply last_None in E. rewrite E in Hin. by apply elem_of_nil in Hin.
Qed.

End PipelineFacts.

(** X12.  The two generators fit together.  For every page that parses and
    whose method, in lower case, is one the collector walks, the collector
    run on the assembled document has, in the list of the tag taken from
    the path, exactly one operation for that path and method: the one of
    the last page that describes them, without path-level parameters. *)
Theorem parsed_pages_are_collected_once (html_files : list HtmlFile)
    (data : EndpointData) :
  data ∈ omap _parse_html_file html_files →
  lower (d_method data) ∈ http_methods →
  ∃ operations last_data,
    dict_get (_extract_tag (d_api_path data))
      (_collect_operations (build_openapi html_files)) = Some operations
    ∧ last (filter (fun d => same_operation (d_api_path data)
                               (lower (d_method data)) d = true)
              (omap _parse_html_file html_files)) = Some last_data
    ∧ collected (d_api_path data) [] (lower (d_method data))
        (operation_of last_data) ∈ operations
    ∧ length (filter (at_path_method (d_api_path data)
                        (lower (d_method data))) operations) = 1.
Proof.
  intros Hdata Hmethod.
  set (path := d_api_path data). set (m := lower (d_method data)).
  destruct (last_filter_elem (fun d => same_operation path m d = true)
              (omap _parse_html_file html_files) data Hdata)
    as (last_data & Hlast & _ & Hsame).
  { unfold same_operation, path, m. by rewrite !String.eqb_refl. }
  destruct (built_paths_inv html_files) as [Hwf Hall].
  pose proof (paths_of_parsed (omap _parse_html_file html_files))
    as [Hlook _].
  specialize (Hlook path m). rewrite <- build_fold_parsed in Hlook.
  rewrite Hlast in Hlook. cbn in Hlook. unfold lookup_operation in Hlook.
  change (fold_left build_step html_files [])
    with (oa_paths (build_openapi html_files)) in Hlook.
  destruct (dict_get path (oa_paths (build_openapi html_files)))
    as [item|] eqn:Eitem; [| done].
  assert (pi_parameters item = None) as Hnone.
  { apply dict_get_elem_of in Eitem. rewrite Forall_forall in Hall.
    by destruct (Hall _ Eitem) as [? _]. }
  destruct (collected_once (build_openapi html_files) path m item
              (operation_of last_data) Hwf Eitem Hmethod Hlook eq_refl)
    as (operations & Hops & Hin & Hone).
  exists operations, last_data.
  unfold same_operation in Hsame.
  apply andb_true_iff in Hsame as [Hp _]. apply String.eqb_eq in Hp.
  split.
  - rewrite <- Hops. f_equal. unfold tag_of, operation_of. cbn.
    by rewrite Hp.
  - split; [done |]. split; [| done]. by rewrite Hnone in Hin.
Qed.

Lemma parsed_pages_are_collected_once_witness :
  ∃ operations,
    dict_get "things" (_collect_operations (build_openapi things_pages))
    = Some operations
    ∧ length (filter (at_path_method "/things" "get") operations) = 1.
Proof.
  destruct (parsed_pages_are_collected_once things_pages
              {| d_method := "GET"; d_api_path := "/things";
                 d_summary := EmptyString; d_description := EmptyString;
                 d_parameters := []; d_request_body := None;
                 d_responses :=
                   [("200",
                     {| r_description := "Success";
                        r_content :=
                          Some [("application/json",
                                 type_schema "object")] |})] |})
    as (operations & last_data & H1 & _ & _ & H2).
  - by left.
  - by left.
  - by exists operations.
Defined.

(** ** The collection as a whole *)

Section CollectionFacts.

Lemma total_operations_append (tag : string) (c : CollectedOp)
    (acc : list (string * list CollectedOp)) :
  total_operations (dict_append tag c acc) = S (total_operations acc).
Proof.
  unfold total_operations, dict_append.
  induction acc as [|[t cs] acc IH]; [done |].
  cbn [dict_get dict_set]. destruct (String.eqb tag t) eqn:E.
  - cbn. rewrite length_app. cbn. lia.
  - change (list_sum (map (fun tc : string * list CollectedOp => length tc.2)
                        ((t, cs) :: ?l)))
      with (length cs + list_sum (map (fun tc : string * list CollectedOp =>
                                         length tc.2) l)).
    cbn [map list_sum snd fold_right] in IH |- *. rewrite IH. lia.
Qed.

Lemma group_inv (es : list (string * CollectedOp)) :
  ∀ acc : list (string * list CollectedOp),
    dict_wf acc → Forall (fun tc => tc.2 ≠ []) acc →
    dict_wf (group es acc)
    ∧ Forall (fun tc => tc.2 ≠ []) (group es acc)
    ∧ total_operations (group es acc) = total_operations acc + length es.
Proof.
  induction es as [|[t c] es IH]; intros acc Hwf Hall.
  - unfold group. cbn [fold_left length].
    split; [done |]. split; [done | lia].
  - unfold group in *. cbn [fold_left fst snd].
    destruct (IH (dict_append t c acc)) as (H1 & H2 & H3).
    + by apply dict_set_wf.
    + apply dict_set_Forall; [| done]. cbn.
      by destruct (default [] (dict_get t acc)).
    + split; [done |]. split; [done |].
      rewrite H3, total_operations_append. cbn [length]. lia.
Qed.

End CollectionFacts.

(** X13.  The collection [_collect_operations] returns has no tag twice
    and no empty list.  The list of a tag holds the operations of that tag
    in the order of the document: path after path, and within a path in
    the order get, post, put, patch, delete, head, options.  Nothing is
    collected twice: the lists together have as many operations as there
    are non-empty operation objects under these method keys. *)
Theorem collection_groups_by_tag_in_order (spec : OpenAPI) :
  dict_wf (_collect_operations spec)
  ∧ Forall (fun tc => tc.2 ≠ []) (_collect_operations spec)
  ∧ (∀ tag,
       default [] (dict_get tag (_collect_operations spec))
       = map snd (filter (fun e => e.1 = tag) (all_entries spec)))
  ∧ total_operations (_collect_operations spec)
    = length (all_entries spec).
Proof.
  rewrite collect_operations_group.
  destruct (group_inv (all_entries spec) [] NoDup_nil_2 (Forall_nil_2 _))
    as (H1 & H2 & H3).
  split; [done |]. split; [done |]. split; [| done].
  intros tag. by rewrite group_lookup.
Qed.

(** ** More on the names of the SDK *)

Section ModuleNameFacts.

Lemma in_tuple_underscored (a b : string) (names : list string) :
  forallb (fun n => negb (has_underscore n)) names = true →
  in_tuple (a +:+ String "_"%char b) names = false.
Proof.
  intros H. unfold in_tuple.
  destruct (existsb _ names) eqn:E; [| done].
  apply existsb_exists in E as (n & Hn & E).
  apply String.eqb_eq in E as <-.
  rewrite forallb_forall in H. specialize (H _ Hn).
  by rewrite has_underscore_append in H.
Qed.

End ModuleNameFacts.

(** X14.  A module name is never one of the names the generator means to
    avoid (auth, help, type, input, filter, id, list, set, map, hash,
    format, open, import): a tag that converts to one of them gets the
    suffix [_api], and no name with that suffix is among them. *)
Theorem module_name_avoids_clashes (tag : string) :
  in_tuple (_sanitise_module_name tag) clashing_names = false.
Proof.
  unfold _sanitise_module_name. fold clashing_names.
  destruct (in_tuple (_to_snake tag) clashing_names) eqn:E; [| done].
  by apply in_tuple_underscored.
Qed.

(** ** The shape of converted names *)

Section SnakeFacts.

Lemma all_chars_append (P : ascii → bool) (a b : string) :
  all_chars P (a +:+ b) = all_chars P a && all_chars P b.
Proof.
  induction a as [|c a IH]; simpl; [done |].
  by rewrite IH, andb_assoc.
Qed.

Lemma all_chars_impl (P Q : ascii → bool) (s : string) :
  (∀ c, P c = true → Q c = true) →
  all_chars P s = true → all_chars Q s = true.
Proof.
  intros HPQ. induction s as [|c s IH]; simpl; [done |].
  intros [Hc Hs]%andb_true_iff. by rewrite (HPQ c Hc), (IH Hs).
Qed.

Lemma all_chars_strip_by (P p : ascii → bool) (s : string) :
  all_chars P s = true → all_chars P (strip_by p s) = true.
Proof.
  destruct (strip_by_split p s) as (a & b & E). intros H.
  rewrite E, !all_chars_append in H.
  apply andb_true_iff in H as [_ H]. by apply andb_true_iff in H as [H _].
Qed.

(** After the two calls of [replace] no space and no hyphen is left *)
Lemma replace_gaps (s : string) :
  all_chars no_gap
    (replace_char " "%char "_" (replace_char "-"%char "_" s)) = true.
Proof.
  induction s as [|c s IH]; [done |].
  cbn [replace_char].
  destruct (Ascii.eqb c "-") eqn:E1.
  - cbn. exact IH.
  - cbn [replace_char]. destruct (Ascii.eqb c " ") eqn:E2.
    + cbn. exact IH.
    + cbn [all_chars]. unfold no_gap at 1. by rewrite E1, E2.
Qed.

(** A substitution by a fixed text brings in no character the text and
    the string do not have *)
Lemma sub_from_all_chars (P : ascii → bool) (atoms : list Re.atom)
    (r : string) (s : string) (k : nat) :
  all_chars P r = true → all_chars P s = true →
  all_chars P (Re.sub_from atoms (fun _ => r) k s) = true.
Proof.
  intros Hr. revert k. induction s as [|c s IH]; intros k; [done |].
  cbn [all_chars Re.sub_from]. intros [Hc Hs]%andb_true_iff.
  destruct k as [|k]; [| by apply IH].
  destruct (Re.match_here atoms (String c s)) as [gs|].
  - rewrite all_chars_append, Hr. by apply IH.
  - cbn [all_chars]. rewrite Hc. by apply IH.
Qed.

Lemma snake_char_lower (c : ascii) :
  no_gap c = true → snake_char (lower_char c) = true.
Proof. by destruct c as [[] [] [] [] [] [] [] []]. Qed.

Lemma lower_all_chars (s : string) :
  all_chars no_gap s = true → all_chars snake_char (lower s) = true.
Proof.
  induction s as [|c s IH]; simpl; [done |].
  intros [Hc Hs]%andb_true_iff. by rewrite (snake_char_lower c Hc), (IH Hs).
Qed.

(** *** Runs of underscores *)

Lemma many1_loop_run (p : ascii → bool) (s taken : string) :
  many1_loop p [] taken s
  = match s with
    | String c s' =>
        if p c then Some [taken +:+ String c (run p s')] else None
    | EmptyString => None
    end.
Proof.
  revert taken. induction s as [|c s IH]; intros taken; [done |].
  cbn [many1_loop]. destruct (p c) eqn:Ec; [| done].
  cbn zeta. fold (many1_loop p []). rewrite IH.
  destruct s as [|d s']; [done |].
  cbn [run]. destruct (p d); [| done].
  by rewrite append_assoc.
Qed.

Lemma sub_from_run (p : ascii → bool) (atoms : list Re.atom)
    (repl : list string → string) (s : string) :
  Re.sub_from atoms repl (String.length (run p s)) s
  = Re.sub_from atoms repl 0 (lstrip_by p s).
Proof.
  induction s as [|c s IH]; [done |].
  cbn [run lstrip_by]. destruct (p c); [| done].
  cbn [String.length Re.sub_from]. exact IH.
Qed.

(** [re.sub(r'_+', '_', s)], run by run *)
Lemma squeeze_cons (c : ascii) (s : string) :
  squeeze (String c s)
  = if is_underscore c
    then String "_" (squeeze (lstrip_by is_underscore s))
    else String c (squeeze s).
Proof.
  unfold squeeze, Re.sub. cbn [Re.sub_from].
  change (Re.match_here re_underscores (String c s))
    with (many1_loop is_underscore [] EmptyString (String c s)).
  rewrite many1_loop_run. destruct (is_underscore c); [| done].
  cbn [String.append].
  replace (Re.matched_length [String c (run is_underscore s)] - 1)
    with (String.length (run is_underscore s))
    by (unfold Re.matched_length; simpl; lia).
  by rewrite sub_from_run.
Qed.

Lemma squeeze_head (s : string) :
  head_kept is_underscore s = true →
  head_kept is_underscore (squeeze s) = true.
Proof.
  destruct s as [|c s]; [done |]. rewrite squeeze_cons.
  cbn [head_kept]. destruct (is_underscore c) eqn:E; [done |].
  intros _. cbn [head_kept]. by rewrite E.
Qed.

Lemma lstrip_by_length (p : ascii → bool) (s : string) :
  String.length (lstrip_by p s) ≤ String.length s.
Proof.
  induction s as [|c s IH]; simpl; [done |].
  destruct (p c); simpl; lia.
Qed.

Lemma squeeze_no_double_upto (n : nat) (s : string) :
  String.length s ≤ n → no_double (squeeze s) = true.
Proof.
  revert s. induction n as [|n IH]; intros [|c s] Hn; simpl in Hn;
    try done; try lia.
  rewrite squeeze_cons. destruct (is_underscore c) eqn:Ec.
  - cbn [no_double].
    rewrite squeeze_head by apply lstrip_by_head.
    rewrite IH; [done |]. pose proof (lstrip_by_length is_underscore s). lia.
  - cbn [no_double]. rewrite Ec. cbn. apply IH. lia.
Qed.

(** After [re.sub(r'_+', '_', s)] no two underscores are side by side *)
Lemma squeeze_no_double (s : string) : no_double (squeeze s) = true.
Proof. by apply (squeeze_no_double_upto (String.length s)). Qed.

Lemma is_underscore_lower (c : ascii) :
  is_underscore (lower_char c) = is_underscore c.
Proof. by destruct c as [[] [] [] [] [] [] [] []]. Qed.

Lemma lower_no_double (s : string) : no_double (lower s) = no_double s.
Proof.
  induction s as [|c s IH]; [done |].
  cbn [lower no_double]. rewrite IH, is_underscore_lower.
  destruct s as [|d s]; [done |]. cbn [lower head_kept].
  by rewrite is_underscore_lower.
Qed.

Lemma no_double_append (a b : string) :
  no_double (a +:+ b) = true → no_double a = true ∧ no_double b = true.
Proof.
  induction a as [|c a IH]; [done |].
  cbn [String.append no_double].
  intros [Hc Hab]%andb_true_iff. destruct (IH Hab) as [Ha Hb].
  split; [| done]. rewrite Ha, andb_true_r.
  destruct a as [|d a]; [by destruct (is_underscore c) | done].
Qed.

Lemma no_double_strip_by (p : ascii → bool) (s : string) :
  no_double s = true → no_double (strip_by p s) = true.
Proof.
  destruct (strip_by_split p s) as (a & b & E). intros H.
  rewrite E in H. apply no_double_append in H as [_ H].
  by apply no_double_append in H as [H _].
Qed.

(** The text before the keyword test has the shape of a converted name *)
Lemma snake_body_shaped (name : string) : snake_shaped (snake_body name).
Proof.
  unfold snake_shaped, snake_body. cbn zeta.
  fold (squeeze (replace_char " " "_" (replace_char "-" "_"
          (Re.sub re_camel repl_camel
             (Re.sub re_acronym repl_acronym name))))).
  split; [| split].
  - apply all_chars_strip_by, lower_all_chars.
    apply sub_from_all_chars; [done | apply replace_gaps].
  - apply no_double_strip_by. rewrite lower_no_double.
    apply squeeze_no_double.
  - apply strip_by_idemp.
Qed.

(** A fact checked on every keyword holds of any keyword *)
Lemma keyword_cases (P : string → bool) (s : string) :
  forallb P kwlist = true → iskeyword s = true → P s = true.
Proof.
  intros H E. unfold iskeyword, in_tuple in E.
  apply existsb_exists in E as (k & Hk & E).
  apply String.eqb_eq in E as ->.
  rewrite forallb_forall in H. by apply H.
Qed.

Lemma startswith_underscore (s : string) :
  head_kept (fun c => mem_char c "_") s = true → startswith s "_" = false.
Proof.
  destruct s as [|c s]; [done |]. unfold startswith.
  cbn [String.prefix head_kept mem_char].
  destruct (ascii_dec "_" c) as [<-|]; [by cbn | done].
Qed.

(** *** Converting a converted name *)

Lemma sub_acronym_id (s : string) :
  all_chars not_upper s = true → Re.sub re_acronym repl_acronym s = s.
Proof.
  unfold Re.sub. induction s as [|c s IH]; [done |].
  cbn [all_chars]. intros [Hc Hs]%andb_true_iff.
  apply negb_true_iff in Hc.
  cbn [Re.sub_from re_acronym Re.match_here]. rewrite Hc.
  by rewrite (IH Hs).
Qed.

Lemma match_camel_none (c : ascii) (s : string) :
  all_chars not_upper s = true →
  Re.match_here re_camel (String c s) = None.
Proof.
  intros Hs. cbn [re_camel Re.match_here].
  destruct (is_lower_or_digit c); [| done].
  destruct s as [|d s]; [done |]. cbn [all_chars] in Hs.
  apply andb_true_iff in Hs as [Hd _]. apply negb_true_iff in Hd.
  by rewrite Hd.
Qed.

Lemma sub_camel_id (s : string) :
  all_chars not_upper s = true → Re.sub re_camel repl_camel s = s.
Proof.
  unfold Re.sub. induction s as [|c s IH]; [done |].
  cbn [all_chars]. intros [Hc Hs]%andb_true_iff.
  cbn [Re.sub_from]. by rewrite (match_camel_none c s Hs), (IH Hs).
Qed.

Lemma replace_char_id (a : ascii) (b s : string) :
  all_chars (fun c => negb (Ascii.eqb c a)) s = true →
  replace_char a b s = s.
Proof.
  induction s as [|c s IH]; [done |].
  cbn [all_chars replace_char]. intros [Hc Hs]%andb_true_iff.
  apply negb_true_iff in Hc. by rewrite Hc, (IH Hs).
Qed.

Lemma squeeze_id (s : string) : no_double s = true → squeeze s = s.
Proof.
  induction s as [|c s IH]; [done |].
  cbn [no_double]. intros [Hc Hs]%andb_true_iff.
  rewrite squeeze_cons. destruct (is_underscore c) eqn:E.
  - apply Ascii.eqb_eq in E as ->. cbn in Hc.
    apply negb_true_iff, negb_false_iff in Hc.
    by rewrite (lstrip_by_id _ _ Hc), (IH Hs).
  - by rewrite (IH Hs).
Qed.

Lemma lower_id (s : string) : all_chars not_upper s = true → lower s = s.
Proof.
  induction s as [|c s IH]; [done |].
  cbn [all_chars lower]. intros [Hc Hs]%andb_true_iff.
  apply negb_true_iff in Hc. unfold lower_char.
  by rewrite Hc, (IH Hs).
Qed.

(** On a name of that shape the conversion changes nothing *)
Lemma snake_body_fixed (s : string) : snake_shaped s → snake_body s = s.
Proof.
  intros (Hc & Hd & Hs). unfold snake_body. cbn zeta.
  assert (all_chars not_upper s = true) as Hu.
  { revert Hc. apply all_chars_impl. intros c. unfold snake_char.
    by intros [? _]%andb_true_iff. }
  assert (all_chars (fun c => negb (Ascii.eqb c "-")) s = true) as Hh.
  { revert Hc. apply all_chars_impl. intros c. unfold snake_char, no_gap.
    intros [_ H]%andb_true_iff. by apply andb_true_iff in H as [_ H]. }
  assert (all_chars (fun c => negb (Ascii.eqb c " ")) s = true) as Hsp.
  { revert Hc. apply all_chars_impl. intros c. unfold snake_char, no_gap.
    intros [_ H]%andb_true_iff. by apply andb_true_iff in H as [H _]. }
  rewrite (sub_acronym_id s Hu), (sub_camel_id s Hu).
  rewrite (replace_char_id "-" "_" s Hh), (replace_char_id " " "_" s Hsp).
  fold (squeeze s). by rewrite (squeeze_id s Hd), (lower_id s Hu).
Qed.

End SnakeFacts.

(** X15.  Whatever the text, [_to_snake] gives a name without capital
    letters, spaces or hyphens, in which no two underscores stand side by
    side and which does not start with an underscore; taking the
    underscores off its ends gives back the text as it was before the
    keyword test, so the only underscore a name can end in is the one put
    after a keyword. *)
Theorem to_snake_gives_a_clean_name (name : string) :
  all_chars snake_char (_to_snake name) = true
  ∧ no_double (_to_snake name) = true
  ∧ startswith (_to_snake name) "_" = false
  ∧ strip_chars "_" (_to_snake name) = snake_body name.
Proof.
  destruct (snake_body_shaped name) as (Hc & Hd & Hs).
  unfold _to_snake. destruct (iskeyword (snake_body name)) eqn:K.
  - split; [by rewrite all_chars_append, Hc |].
    split; [by apply (keyword_cases (fun k => no_double (k +:+ "_"))) |].
    split.
    + apply negb_true_iff.
      by apply (keyword_cases (fun k => negb (startswith (k +:+ "_") "_"))).
    + apply String.eqb_eq.
      by apply (keyword_cases
                  (fun k => String.eqb (strip_chars "_" (k +:+ "_")) k)).
  - split; [done |]. split; [done |]. split; [| done].
    apply startswith_underscore. rewrite <- Hs.
    apply rstrip_by_head, lstrip_by_head.
Qed.

(** X16.  Converting a converted name changes nothing: [_to_snake] gives
    the same result when run on its own result. *)
Theorem to_snake_is_idempotent (name : string) :
  _to_snake (_to_snake name) = _to_snake name.
Proof.
  pose proof (snake_body_shaped name) as Hb.
  pose proof (snake_body_fixed _ Hb) as Hfix.
  unfold _to_snake at 2. destruct (iskeyword (snake_body name)) eqn:K.
  - assert (snake_body (snake_body name +:+ "_") = snake_body name) as E.
    { destruct Hb as (Hc & _).
      assert (all_chars not_upper (snake_body name) = true) as Hu.
      { revert Hc. apply all_chars_impl. intros c. unfold snake_char.
        by intros [? _]%andb_true_iff. }
      pose proof (keyword_cases
        (fun k => negb (all_chars not_upper k)
                  || String.eqb (snake_body (k +:+ "_")) k)
        (snake_body name) eq_refl K) as H.
      cbn beta in H. rewrite Hu in H. by apply String.eqb_eq in H. }
    unfold _to_snake. by rewrite E, K.
  - unfold _to_snake. by rewrite Hfix, K.
Qed.

(** ** The HTTP wrapper of the SDK *)

(** X17.  [_raise_for_status] returns without raising exactly when the
    status is outside 400-599.  Otherwise it raises, and what it raises
    goes by the status: [QRadarAuthError] for 401, [QRadarNotFoundError]
    for 404, [QRadarRateLimitError] for 429 and plain [QRadarAPIError] for
    the rest, each carrying the status.  The one exception: when the body
    of the failed response parses as JSON to something that is not an
    object, the call to [detail.get] fails and an [AttributeError] gets
    out instead, and that is the only way an error that is not a
    [QRadarError] gets out. *)
Theorem raise_for_status_goes_by_status (py_str : json → string)
    (resp : Http.Response) :
  (Http._raise_for_status py_str resp = None ↔ Http.ok resp = true)
  ∧ ∀ e, Http._raise_for_status py_str resp = Some e →
      (Http.is_qradar_error e = false
       ↔ ∃ v, Http.json_body resp = Some v ∧ not_object v = true)
      ∧ match e with
        | Http.QRadarAuthError _ => Http.status_code resp = 401%Z
        | Http.QRadarNotFoundError s _ =>
            s = 404%Z ∧ Http.status_code resp = 404%Z
        | Http.QRadarRateLimitError s _ =>
            s = 429%Z ∧ Http.status_code resp = 429%Z
        | Http.QRadarAPIError s _ =>
            s = Http.status_code resp
            ∧ s ≠ 401%Z ∧ s ≠ 404%Z ∧ s ≠ 429%Z
            ∧ (400 ≤ s < 600)%Z
        | Http.AttributeError => True
        end.
Proof.
  unfold Http._raise_for_status.
  destruct (Http.ok resp) eqn:Hok.
  { split; [done |]. by intros e. }
  assert (400 ≤ Http.status_code resp < 600)%Z as Hs.
  { unfold Http.ok in Hok. apply negb_false_iff, andb_true_iff in Hok. lia. }
  assert (∀ message e,
    (if (Http.status_code resp =? 401)%Z
     then Some (Http.QRadarAuthError
                  ("Authentication failed: " +:+ Http.format py_str message))
     else if (Http.status_code resp =? 404)%Z
     then Some (Http.QRadarNotFoundError (Http.status_code resp) message)
     else if (Http.status_code resp =? 429)%Z
     then Some (Http.QRadarRateLimitError (Http.status_code resp) message)
     else Some (Http.QRadarAPIError (Http.status_code resp) message))
    = Some e →
    Http.is_qradar_error e = true
    ∧ match e with
      | Http.QRadarAuthError _ => Http.status_code resp = 401%Z
      | Http.QRadarNotFoundError s _ =>
          s = 404%Z ∧ Http.status_code resp = 404%Z
      | Http.QRadarRateLimitError s _ =>
          s = 429%Z ∧ Http.status_code resp = 429%Z
      | Http.QRadarAPIError s _ =>
          s = Http.status_code resp
          ∧ s ≠ 401%Z ∧ s ≠ 404%Z ∧ s ≠ 429%Z
          ∧ (400 ≤ s < 600)%Z
      | Http.AttributeError => True
      end) as Hclass.
  { intros message e.
    destruct (Z.eqb_spec (Http.status_code resp) 401);
      [by intros [= <-] |].
    destruct (Z.eqb_spec (Http.status_code resp) 404);
      [by intros [= <-] |].
    destruct (Z.eqb_spec (Http.status_code resp) 429);
      [by intros [= <-] |].
    intros [= <-]. done. }
  split.
  { split; [| done]. unfold Http.error_message.
    destruct (Http.json_body resp) as [[]|]; try done;
      by repeat destruct (Z.eqb _ _). }
  intros e. unfold Http.error_message.
  destruct (Http.json_body resp) as [v|] eqn:Hbody.
  - destruct v;
      try (intros [= <-]; split; [| done]; split; [intros _ | done];
           eexists; split; [reflexivity | done]).
    intros He. destruct (Hclass _ _ He) as [Hq Hm]. split; [| done].
    rewrite Hq. split; [done |]. by intros (v & [= <-] & ?).
  - intros He. destruct (Hclass _ _ He) as [Hq Hm]. split; [| done].
    rewrite Hq. split; [done |]. by intros (v & ? & _).
Qed.

Lemma raise_for_status_goes_by_status_witness :
  Http.status_code not_found_response = 404%Z
  ∧ ∃ v, Http.json_body list_body_response = Some v ∧ not_object v = true.
Proof.
  split.
  - exact (proj2 (proj2
      (proj2 (raise_for_status_goes_by_status (fun _ => EmptyString)
                not_found_response)
         (Http.QRadarNotFoundError 404 (JStr "No such offense.")) eq_refl))).
  - exact (proj1 (proj1
      (proj2 (raise_for_status_goes_by_status (fun _ => EmptyString)
                list_body_response)
         Http.AttributeError eq_refl)) eq_refl).
Defined.

Section PaginateFacts.
Context {A : Type}.
Implicit Types (items page : list A) (pages : list (list A)).

Lemma range_server_page items (n : nat) (page_size : Z) :
  range_server items (Z.of_nat n) (Z.of_nat n + page_size - 1)
  = take (Z.to_nat page_size) (drop n items).
Proof.
  unfold range_server. rewrite Nat2Z.id. f_equal. lia.
Qed.

(** The loop from position [n] on, with enough requests to spend *)
Lemma paginate_loop_spec (fuel : nat) items (page_size : Z)
    (max_items : option Z) (n : nat) (fetched : Z) :
  (1 ≤ page_size)%Z →
  length (drop n items) < fuel →
  ∃ pages,
    Http.paginate_loop fuel (range_server items) page_size max_items
      (Z.of_nat n) fetched = Some pages
    ∧ (pages = [] ↔ drop n items = [])
    ∧ Forall (fun page => page ≠ []
                          ∧ (Z.of_nat (length page) ≤ page_size)%Z) pages
    ∧ concat pages `prefix_of` drop n items
    ∧ match max_items with
      | None => concat pages = drop n items
      | Some m =>
          (concat pages = drop n items
           ∨ (m ≤ fetched + Z.of_nat (length (concat pages)))%Z)
          ∧ (fetched + Z.of_nat (length (concat pages))
             < Z.max m (fetched + 1) + page_size)%Z
      end.
Proof.
  intros Hps. revert n fetched.
  induction fuel as [|fuel IH]; intros n fetched Hfuel; [lia |].
  cbn [Http.paginate_loop]. rewrite range_server_page.
  set (p := Z.to_nat page_size). assert (1 ≤ p) as Hp by lia.
  destruct (take p (drop n items)) as [|x page'] eqn:Hpage.
  { assert (drop n items = []) as ->.
    { apply (f_equal length) in Hpage. rewrite length_take in Hpage.
      simpl in Hpage. apply length_zero_iff_nil. lia. }
    exists []. split; [done |]. split; [done |]. split; [done |].
    split; [done |].
    destruct max_items as [m|]; [| done]. simpl. split; [by left | lia]. }
  assert (drop n items ≠ []) as Hne.
  { intros E. by rewrite E, take_nil in Hpage. }
  set (page := x :: page') in *.
  assert (length page = p `min` length (drop n items)) as Hlen.
  { by rewrite <- Hpage, length_take. }
  assert (page `prefix_of` drop n items) as Hpre.
  { rewrite <- Hpage. exists (drop p (drop n items)).
    by rewrite take_drop. }
  assert (Forall (fun page => page ≠ []
                              ∧ (Z.of_nat (length page) ≤ page_size)%Z)
            [page]) as Hone.
  { constructor; [| done]. split; [done | lia]. }
  assert (concat [page] = page) as Hcat by apply app_nil_r.
  destruct (match max_items with
            | Some m => (m <=? fetched + Z.of_nat (length page))%Z
            | None => false
            end) eqn:Henough.
  { exists [page]. split; [done |]. split; [done |]. split; [done |].
    rewrite Hcat. split; [done |].
    destruct max_items as [m|]; [| done].
    split; [right |]; lia. }
  destruct (Z.of_nat (length page) <? page_size)%Z eqn:Hshort.
  { exists [page]. split; [done |]. split; [done |]. split; [done |].
    rewrite Hcat. split; [done |].
    assert (page = drop n items) as Hall.
    { rewrite <- Hpage. apply take_ge. lia. }
    destruct max_items as [m|]; [| done].
    split; [by left | lia]. }
  assert (length page = p) as Hfull by lia.
  replace (Z.of_nat n + page_size)%Z with (Z.of_nat (n + p)) by lia.
  destruct (IH (n + p) (fetched + Z.of_nat (length page))%Z)
    as (pages & -> & _ & Hall & Hprefix & Hmax).
  { rewrite length_drop in *. lia. }
  assert (drop n items = page ++ drop (n + p) items) as Hsplit.
  { rewrite <- drop_drop, <- Hpage. by rewrite take_drop. }
  exists (page :: pages). split; [done |]. split; [done |].
  split; [constructor; [split; [done | lia] | done] |].
  cbn [concat]. rewrite Hsplit.
  split; [by apply prefix_app |].
  destruct max_items as [m|].
  - destruct Hmax as [[Heq|Hge] Hlt]; rewrite length_app.
    + split; [left; by rewrite Heq | lia].
    + split; [right; lia | lia].
  - by rewrite Hmax.
Qed.

End PaginateFacts.

(** X18.  [paginate] against a console that serves ranges of a list of
    items, with a page size of at least 1.  Read to its end it stops (one
    request per item and one more are enough), every page it yields is
    non-empty and no longer than the page size, and the pages laid end to
    end are an initial part of the list: the whole list when no limit is
    given.  With a limit [max_items] it goes on until the count reaches the
    limit or the list ends, so it yields whole pages, fewer than one page
    size of items past the limit.  It yields no page only when the list is
    empty: a limit of 0 still gets the first page. *)
Theorem paginate_reads_the_items {A : Type} (items : list A)
    (page_size : Z) (max_items : option Z) :
  (1 ≤ page_size)%Z →
  ∃ pages,
    Http.paginate (S (length items)) (range_server items) page_size
      max_items = Some pages
    ∧ (pages = [] ↔ items = [])
    ∧ Forall (fun page => page ≠ []
                          ∧ (Z.of_nat (length page) ≤ page_size)%Z) pages
    ∧ concat pages `prefix_of` items
    ∧ match max_items with
      | None => concat pages = items
      | Some m =>
          (concat pages = items
           ∨ (m ≤ Z.of_nat (length (concat pages)))%Z)
          ∧ (Z.of_nat (length (concat pages)) < Z.max m 1 + page_size)%Z
      end.
Proof.
  intros Hps. unfold Http.paginate.
  destruct (paginate_loop_spec (S (length items)) items page_size max_items
              0 0 Hps) as (pages & E & Hnil & Hall & Hpre & Hmax).
  { rewrite drop_0. lia. }
  exists pages. rewrite drop_0 in *. split; [exact E |].
  split; [done |]. split; [done |]. split; [done |].
  destruct max_items as [m|]; [| done].
  by rewrite !Z.add_0_l in Hmax.
Qed.

Lemma paginate_reads_the_items_witness :
  Http.paginate 6 (range_server [1; 2; 3; 4; 5]) 2 (Some 3%Z)
  = Some [[1; 2]; [3; 4]]
  ∧ ∃ pages,
      Http.paginate 6 (range_server [1; 2; 3; 4; 5]) 2 None = Some pages
      ∧ concat pages = [1; 2; 3; 4; 5].
Proof.
  split; [reflexivity |].
  destruct (paginate_reads_the_items [1; 2; 3; 4; 5] 2 None)
    as (pages & E & _ & _ & _ & Hcat); [lia |].
  by exists pages.
Defined.

Section BaseUrlFacts.

Lemma rstrip_by_snoc (p : ascii → bool) (s : string) (c : ascii) :
  p c = true → rstrip_by p (s +:+ String c EmptyString) = rstrip_by p s.
Proof.
  intros Hc. induction s as [|d s IH]; simpl; [by rewrite Hc |].
  by rewrite IH.
Qed.

Lemma rstrip_by_append (p : ascii → bool) (a b : string) :
  rstrip_by p b ≠ EmptyString →
  rstrip_by p (a +:+ b) = a +:+ rstrip_by p b.
Proof.
  intros Hb. induction a as [|c a IH]; simpl; [done |].
  rewrite IH. destruct (rstrip_by p b) as [|d r]; [done |].
  by destruct a.
Qed.

End BaseUrlFacts.

(** X19.  The base URL of a session.  Slashes at the end of the host do
    not matter.  A host that starts with [http://] or [https://] keeps its
    scheme, any other gets [https://] in front, and [/api] follows the
    host without its trailing slashes.  A host that is empty or all
    slashes is not refused: it gives [https:/api]. *)
Theorem base_url_of_host (host : string) :
  let base := rstrip_by Http.is_slash host in
  Http.make_base_url (host +:+ "/") = Http.make_base_url host
  ∧ Http.make_base_url host
    = if startswith base "http://" || startswith base "https://"
      then base +:+ "/api"
      else if nonempty base then "https://" +:+ base +:+ "/api"
      else "https:/api".
Proof.
  cbn zeta. unfold Http.make_base_url. cbn zeta.
  split; [by rewrite rstrip_by_snoc |].
  destruct (startswith _ "http://" || startswith _ "https://").
  - by rewrite rstrip_by_idemp.
  - destruct (rstrip_by Http.is_slash host) as [|c base] eqn:E; [done |].
    cbn [nonempty]. rewrite rstrip_by_append.
    + rewrite <- E, rstrip_by_idemp. by rewrite append_assoc.
    + rewrite <- E, rstrip_by_idemp. by rewrite E.
Qed.

(** ** Type hints *)

(** X20.  [_python_type] on the schema [_json_to_schema] infers from a
    sample never fails, and the hint it gives is the one of the sample:
    [bool], [int], [float] and [str] for the scalars, [Dict[str, Any]] for
    an object, [List[...]] around the hint of the first element for a
    list ([List[Any]] when the list is empty), and [Any] for [null]. *)
Theorem python_type_of_inferred_schema (v : json) :
  _python_type (_json_to_schema v) = Some (type_hint v).
Proof.
  induction v as [|b|n|f|s|l Hl|d Hd] using json_nested_ind; try done.
  destruct l as [|v0 l]; [done |].
  apply Forall_cons in Hl as [H0 _].
  cbn [_json_to_schema type_hint].
  assert (json_truthy (_json_to_schema v0) = false → v0 = JNull) as Hnull.
  { by destruct v0 as [| | | | |[|]|]. }
  revert H0 Hnull. generalize (_json_to_schema v0). intros S0 H0 Hnull.
  cbn. destruct (json_truthy S0).
  - by rewrite H0.
  - by rewrite Hnull.
Qed.

(** ** The parameters of a request *)

Section RequestFacts.

Lemma dict_get_not_key {V} (k : string) (d : dict V) :
  k ∉ dict_keys d → dict_get k d = None.
Proof.
  intros H%dict_has_false_keys. unfold dict_has in H.
  by destruct (dict_get k d).
Qed.

(** [d.update(items)], read back *)
Lemma dict_get_update {V} (k : string) (items d : dict V) :
  dict_wf items →
  dict_get k (Http.update d items)
  = match dict_get k items with
    | Some v => Some v
    | None => dict_get k d
    end.
Proof.
  unfold Http.update. revert d.
  induction items as [|[k0 v0] items IH]; intros d Hwf; [done |].
  apply NoDup_cons in Hwf as [Hk0 Hwf].
  cbn [fold_left fst snd dict_get]. rewrite (IH _ Hwf).
  destruct (String.eqb k k0) eqn:E.
  - apply String.eqb_eq in E as ->.
    by rewrite (dict_get_not_key k0 items Hk0), dict_get_set_eq.
  - apply String.eqb_neq in E.
    rewrite dict_get_set_ne; [done | congruence].
Qed.

Lemma dict_keys_not_none (k : string) (params : dict (option string)) :
  k ∈ dict_keys
        (omap (fun kv : string * option string =>
                 match kv.2 with Some v => Some (kv.1, v) | None => None end)
           params) →
  k ∈ dict_keys params.
Proof.
  unfold dict_keys. induction params as [|[k0 [v0|]] params IH]; [done | |].
  - cbn. intros [->|H]%elem_of_cons; [by left | right; by apply IH].
  - cbn. intros H. right. by apply IH.
Qed.

Lemma dict_wf_not_none (params : dict (option string)) :
  dict_wf params →
  dict_wf
    (omap (fun kv : string * option string =>
             match kv.2 with Some v => Some (kv.1, v) | None => None end)
       params).
Proof.
  unfold dict_wf. induction params as [|[k0 [v0|]] params IH]; [done | |].
  - intros [Hk Hwf]%NoDup_cons. cbn. apply NoDup_cons. split; [| by apply IH].
    intros H. by apply Hk, dict_keys_not_none.
  - intros [_ Hwf]%NoDup_cons. cbn. by apply IH.
Qed.

Lemma dict_get_not_none (k : string) (params : dict (option string)) :
  dict_wf params →
  dict_get k
    (omap (fun kv : string * option string =>
             match kv.2 with Some v => Some (kv.1, v) | None => None end)
       params)
  = given_param params k.
Proof.
  unfold given_param.
  induction params as [|[k0 [v0|]] params IH]; [done | |];
    intros [Hk Hwf]%NoDup_cons; cbn; rewrite (IH Hwf).
  - by destruct (String.eqb k k0).
  - destruct (String.eqb k k0) eqn:E; [| done].
    apply String.eqb_eq in E as ->.
    by rewrite (dict_get_not_key k0 params Hk).
Qed.

End RequestFacts.

(** X21.  What [request] sends as query parameters and headers.  A key of
    [params] whose value is [None] is not sent.  The arguments [fields],
    [filter_expr] and [sort] go out under [fields], [filter] and [sort]
    whenever they are not [None], the empty string included, and take the
    place of a value given for the same key in [params].  [range_header]
    goes out as the header [Range] with [items=] in front, in place of a
    [Range] given in [headers]. *)
Theorem request_arguments_override (params : dict (option string))
    (headers : dict string) (range_header fields filter_expr sort
      : option string) (k : string) :
  dict_wf params → dict_wf headers →
  dict_get k (Http.merged_params (Some params) fields filter_expr sort)
  = (if String.eqb k "sort" && present sort then sort
     else if String.eqb k "filter" && present filter_expr then filter_expr
     else if String.eqb k "fields" && present fields then fields
     else given_param params k)
  ∧ dict_get k (Http.merged_headers (Some headers) range_header)
    = match range_header with
      | Some r => if String.eqb k "Range" then Some ("items=" +:+ r)
                  else dict_get k headers
      | None => dict_get k headers
      end.
Proof.
  intros Hp Hh. split.
  - unfold Http.merged_params.
    set (m0 := Http.update [] _).
    assert (dict_get k m0 = given_param params k) as E0.
    { unfold m0. rewrite dict_get_update by by apply dict_wf_not_none.
      rewrite dict_get_not_none by done.
      by destruct (given_param params k). }
    clearbody m0.
    assert (∀ (key : string) (arg : option string) (m : dict string),
      dict_get k (match arg with Some v => dict_set key v m | None => m end)
      = if String.eqb k key && present arg then arg else dict_get k m) as Hset.
    { intros key [v|] m; [| by rewrite andb_false_r].
      rewrite andb_true_r. destruct (String.eqb k key) eqn:E.
      - apply String.eqb_eq in E as ->. apply dict_get_set_eq.
      - apply String.eqb_neq in E. apply dict_get_set_ne. congruence. }
    by rewrite !Hset, E0.
  - unfold Http.merged_headers.
    assert (dict_get k (Http.update [] headers) = dict_get k headers) as E0.
    { rewrite dict_get_update by done. by destruct (dict_get k headers). }
    destruct range_header as [r|]; [| done].
    destruct (String.eqb k "Range") eqn:E.
    + apply String.eqb_eq in E as ->. apply dict_get_set_eq.
    + apply String.eqb_neq in E. rewrite dict_get_set_ne; [done | congruence].
Qed.

Lemma request_arguments_override_witness :
  dict_get "filter"
    (Http.merged_params
       (Some [("filter", Some "status=OPEN"); ("limit", None)])
       None (Some "id>5") None)
  = Some "id>5"
  ∧ dict_get "limit"
      (Http.merged_params
         (Some [("filter", Some "status=OPEN"); ("limit", None)])
         None (Some "id>5") None)
    = None.
Proof.
  assert (dict_wf [("filter", Some "status=OPEN"); ("limit", @None string)])
    as Hp.
  { apply (bool_decide_unpack _). by vm_compute. }
  assert (dict_wf (@nil (string * string))) as Hh by constructor.
  split.
  - etrans;
      [exact (proj1 (request_arguments_override _ [] None None (Some "id>5")
                       None "filter" Hp Hh))
      | reflexivity].
  - etrans;
      [exact (proj1 (request_arguments_override _ [] None None (Some "id>5")
                       None "limit" Hp Hh))
      | reflexivity].
Defined.
